(** * File Process Tracker: the batch copy engine and its record store

    A shallow embedding of [src/database.py], [src/file_processor.py] and
    the control flow of [main.py].  The file system, the SQLite store and
    the clock are explicit state; what the program takes from its runtime
    (the glob matcher, [shutil.copy2], [unlink], storage faults, the hash
    function) is an explicit environment. *)

From Stdlib Require Import ZArith String Ascii List Sorted.
From stdpp Require Import base gmap strings list sorting pretty.

Open Scope Z_scope.

(** ** The runtime environment *)

(** [fnmatch.fnmatch filename pattern] of the Python standard library.  The
    program only asks whether a name matches a pattern, so the matcher is
    an interface; [glob_star] below is an instance for the examples. *)
Class Fnmatch := fnmatch : string -> string -> bool.

(** One path produced by [source_dir.glob(...)]: the directories between
    the source root and the entry, the base name ([path.name]), whether
    [path.is_file()] holds and [path.stat().st_size]. *)
Record SourceEntry := {
  parent : list string;
  name : string;
  is_file : bool;
  st_size : Z
}.

#[global] Instance SourceEntry_eq_dec : EqDecision SourceEntry.
Proof. solve_decision. Defined.

(** An entry of the (flat) target directory, keyed by base name. *)
Inductive TEntry :=
| TFile (size : Z)
| TDir.

#[global] Instance TEntry_eq_dec : EqDecision TEntry.
Proof. solve_decision. Defined.

(** The exception classes the handlers of [_copy_file] tell apart. *)
Inductive CopyExn :=
| PermissionError
| OSError
| OtherException.

(** What [target.parent.mkdir(...); shutil.copy2(source, target)] and the
    two [stat] calls after it do: the copy returns having written [n]
    bytes, returns without a file at the target, or one of the calls
    raises; [remains] is then the size of the file that is at the target
    when the exception leaves ([copy2] creates the target before it
    copies), [None] when there is none. *)
Inductive CopyEffect :=
| Written (n : Z)
| NotWritten
| Raised (e : CopyExn) (msg : string) (remains : option Z).

(** What the operating system, the storage layer and the hash library do
    during one call.  The listing of the directories and the SELECT
    queries return; the failures are those of the copy, of [unlink], of
    the two INSERT statements and of a query with too many variables.
    Nothing but the program changes the target directory and the store. *)
Record Env := {
  (** successive readings of [datetime.now()], in microseconds *)
  clock : nat -> Z;
  copy2 : SourceEntry -> CopyEffect;
  (** the storage layer failing on the INSERT of a record for a file name
      (locked database, I/O error), with the text of the exception *)
  insert_fault : string -> option string;
  (** [_compute_file_hash] on the copied file; [None] when it raises *)
  digest : string -> option string;
  (** [unlink] raising on the target file of a name (the file is there:
      the exception is no [FileNotFoundError]) *)
  unlink_fault : string -> option (CopyExn * string);
  (** the storage layer failing on the INSERT of an error entry for a
      file name, with the text of the exception *)
  log_fault : string -> option string;
  (** SQLITE_LIMIT_VARIABLE_NUMBER of the connection: the largest number
      of [?] that one statement may bind *)
  max_variable_number : nat
}.

(** ** pathlib *)

(** A [PurePosixPath]: its root (["/"], ["//"] or none) and its
    components. *)
Record PurePath := {
  root : string;
  parts : list string
}.

(** The pieces of a string between its slashes; [acc] is the piece being
    read. *)
Fixpoint split_slash (s acc : string) : list string :=
  match s with
  | EmptyString => [acc]
  | String c s' =>
      if Ascii.eqb c "/" then acc :: split_slash s' EmptyString
      else split_slash s' (acc +:+ String c EmptyString)
  end.

(** [Path(s)]: two leading slashes are a root of their own, any other
    number of them is the root ["/"]; empty components and ["."] are
    dropped. *)
Definition Path (s : string) : PurePath :=
  {| root := if String.prefix "///" s then "/"
             else if String.prefix "//" s then "//"
             else if String.prefix "/" s then "/"
             else "";
     parts := filter (λ x, x ≠ "" ∧ x ≠ ".") (split_slash s "") |}.

(** [str(p)] *)
Definition str_path (p : PurePath) : string :=
  match parts p with
  | [] => if bool_decide (root p = "") then "." else root p
  | _ => root p +:+ String.concat "/" (parts p)
  end.

(** [p / key]: a key with a root replaces [p]. *)
Definition truediv (p : PurePath) (key : string) : PurePath :=
  let q := Path key in
  if bool_decide (root q = "") then {| root := root p; parts := parts p ++ parts q |}
  else q.

(** ** database.py *)

Module Database.

(** A row of [processed_files]. *)
Record ProcessedFile := {
  pf_id : Z;
  pf_filename : string;
  pf_source_path : string;
  pf_target_path : string;
  pf_size : Z;
  pf_copy_date : Z;
  pf_hash : option string
}.

(** A row of [errors]. *)
Record ErrorRow := {
  er_id : Z;
  er_timestamp : Z;
  er_filename : string;
  er_error_type : string;
  er_error_message : string
}.

(** The two tables in insertion order, and the AUTOINCREMENT counter of
    each (the largest id handed out so far).  The column [created_at],
    which the program never reads, is left out. *)
Record DatabaseManager := {
  processed_files : list ProcessedFile;
  errors : list ErrorRow;
  processed_seq : Z;
  errors_seq : Z
}.

Inductive SqliteError :=
| IntegrityError (msg : string)
| OperationalError (msg : string).

(** [str(e)] *)
Definition str (e : SqliteError) : string :=
  match e with
  | IntegrityError msg => msg
  | OperationalError msg => msg
  end.

(** CREATE TABLE IF NOT EXISTS on a new database file. *)
Definition _initialize_database : DatabaseManager :=
  {| processed_files := []; errors := []; processed_seq := 0; errors_seq := 0 |}.

(** SELECT 1 FROM processed_files WHERE filename = ? *)
Definition is_file_processed (db : DatabaseManager) (filename : string) : bool :=
  bool_decide (filename ∈ pf_filename <$> processed_files db).

(** INSERT INTO processed_files: [filename TEXT UNIQUE NOT NULL] rejects
    a second row for a file name; the failed statement changes nothing. *)
Definition add_processed_file (env : Env) (db : DatabaseManager)
    (filename source_path target_path : string) (size : Z)
    (copy_date : Z) (file_hash : option string)
    : SqliteError + (Z * DatabaseManager) :=
  match insert_fault env filename with
  | Some msg => inl (OperationalError msg)
  | None =>
      if is_file_processed db filename
      then inl (IntegrityError "UNIQUE constraint failed: processed_files.filename")
      else
        let file_id := processed_seq db + 1 in
        let row := {| pf_id := file_id; pf_filename := filename;
                      pf_source_path := source_path;
                      pf_target_path := target_path; pf_size := size;
                      pf_copy_date := copy_date; pf_hash := file_hash |} in
        inr (file_id,
             {| processed_files := processed_files db ++ [row];
                errors := errors db;
                processed_seq := file_id;
                errors_seq := errors_seq db |})
  end.

(** INSERT INTO errors; [timestamp] is the [datetime.now()] read inside
    the method.  A statement that fails changes nothing. *)
Definition log_error (env : Env) (timestamp : Z) (db : DatabaseManager)
    (filename error_type error_message : string)
    : SqliteError + (Z * DatabaseManager) :=
  match log_fault env filename with
  | Some msg => inl (OperationalError msg)
  | None =>
      let error_id := errors_seq db + 1 in
      let row := {| er_id := error_id; er_timestamp := timestamp;
                    er_filename := filename; er_error_type := error_type;
                    er_error_message := error_message |} in
      inr (error_id,
           {| processed_files := processed_files db;
              errors := errors db ++ [row];
              processed_seq := processed_seq db;
              errors_seq := error_id |})
  end.

(** What [get_unprocessed_files] computes when its query runs: the query
    selects the recorded names among [source_files] into a set, and the
    result keeps the names that are not in it, in order. *)
Definition unprocessed (db : DatabaseManager) (source_files : list string)
    : list string :=
  let processed : gset string :=
    list_to_set (filter (λ n, n ∈ source_files)
                        (pf_filename <$> processed_files db)) in
  filter (λ f, f ∉ processed) source_files.

(** [get_unprocessed_files]: the query binds one variable per name of
    [source_files], and SQLite refuses a statement with more variables
    than the connection allows. *)
Definition get_unprocessed_files (env : Env) (db : DatabaseManager)
    (source_files : list string) : SqliteError + list string :=
  match source_files with
  | [] => inr []
  | _ =>
      if bool_decide (max_variable_number env < length source_files)%nat
      then inl (OperationalError "too many SQL variables")
      else inr (unprocessed db source_files)
  end.

(** SELECT COUNT of the rows of a file name (the duplicate check of
    [check_integrity] counts the same rows per name). *)
Definition count_records (db : DatabaseManager) (filename : string) : nat :=
  length (filter (λ r, pf_filename r = filename) (processed_files db)).

End Database.


(** ** file_processor.py *)

(** The fields set by [FileProcessor.__init__]. *)
Record FileProcessor := {
  source_dir : PurePath;
  target_dir : PurePath;
  batch_size : Z;
  compute_hash : bool;
  hash_algorithm : string;
  exclude_patterns : list string;
  recursive : bool;
  dry_run : bool
}.

(** What a run reads and writes besides the source tree: the entries of
    the target directory by base name (a target directory that does not
    exist yet lists no entry), the record store, and how many times the
    clock has been read. *)
Record World := {
  target : gmap string TEntry;
  db : Database.DatabaseManager;
  ticks : nat
}.

Definition with_target (w : World) (t : gmap string TEntry) : World :=
  {| target := t; db := db w; ticks := ticks w |}.

Definition with_db (w : World) (d : Database.DatabaseManager) : World :=
  {| target := target w; db := d; ticks := ticks w |}.

(** The world after one more reading of the clock. *)
Definition tick (w : World) : World :=
  {| target := target w; db := db w; ticks := S (ticks w) |}.

(** [datetime.now()] *)
Definition datetime_now (env : Env) (w : World) : Z * World :=
  (clock env (ticks w), tick w).

(** [self.db.log_error(...)], which reads the clock for the timestamp
    before it runs the statement; the exception, if the statement fails. *)
Definition db_log_error (env : Env) (w : World)
    (filename error_type error_message : string)
    : option Database.SqliteError * World :=
  let '(timestamp, w) := datetime_now env w in
  match Database.log_error env timestamp (db w) filename error_type error_message with
  | inl e => (Some e, w)
  | inr (_, d) => (None, with_db w d)
  end.

(** [str(file_path)] for an entry that the glob found under the source
    directory: the components of the directory, then those of the entry. *)
Definition path_str (fp : FileProcessor) (file_path : SourceEntry) : string :=
  str_path {| root := root (source_dir fp);
              parts := parts (source_dir fp) ++ parent file_path ++ [name file_path] |}.

(** [str(self.target_dir / filename)] *)
Definition target_path (fp : FileProcessor) (filename : string) : string :=
  str_path (truediv (target_dir fp) filename).

(** The statistics dictionary; [duration] is the key that the end of
    [process_batch] adds. *)
Record Stats := {
  processed : Z;
  skipped : Z;
  errors : Z;
  total_size : Z;
  files_processed : list string;
  files_skipped : list string;
  files_errors : list (string * string);
  duration : option Z
}.

Definition stats0 : Stats :=
  {| processed := 0; skipped := 0; errors := 0; total_size := 0;
     files_processed := []; files_skipped := []; files_errors := [];
     duration := None |}.

Definition count_skipped (s : Stats) (filename : string) : Stats :=
  {| processed := processed s; skipped := skipped s + 1; errors := errors s;
     total_size := total_size s; files_processed := files_processed s;
     files_skipped := files_skipped s ++ [filename];
     files_errors := files_errors s; duration := duration s |}.

Definition count_error (s : Stats) (filename error : string) : Stats :=
  {| processed := processed s; skipped := skipped s; errors := errors s + 1;
     total_size := total_size s; files_processed := files_processed s;
     files_skipped := files_skipped s;
     files_errors := files_errors s ++ [(filename, error)];
     duration := duration s |}.

Definition count_processed (s : Stats) (filename : string) (file_size : Z) : Stats :=
  {| processed := processed s + 1; skipped := skipped s; errors := errors s;
     total_size := total_size s + file_size;
     files_processed := files_processed s ++ [filename];
     files_skipped := files_skipped s; files_errors := files_errors s;
     duration := duration s |}.

Definition set_duration (s : Stats) (d : Z) : Stats :=
  {| processed := processed s; skipped := skipped s; errors := errors s;
     total_size := total_size s; files_processed := files_processed s;
     files_skipped := files_skipped s; files_errors := files_errors s;
     duration := Some d |}.

(** [_is_excluded]: the first matching pattern answers. *)
Definition _is_excluded `{Fnmatch} (fp : FileProcessor) (file_path : SourceEntry) : bool :=
  existsb (fnmatch (name file_path)) (exclude_patterns fp).

(** [self.source_dir.glob(pattern)] over the entries below the source
    directory, listed in discovery order: ["**/*"] yields them all, ["*"]
    the children of the root. *)
Definition glob (fp : FileProcessor) (src : list SourceEntry) : list SourceEntry :=
  if recursive fp then src else filter (λ e, parent e = []) src.

(** [files.sort(key=lambda p: p.name)]: a stable sort on the base name, by
    insertion in front of the first entry that is not smaller. *)
Fixpoint insert_by_name (x : SourceEntry) (l : list SourceEntry) : list SourceEntry :=
  match l with
  | [] => [x]
  | y :: l' =>
      if String.leb (name x) (name y) then x :: y :: l'
      else y :: insert_by_name x l'
  end.

Definition sort_by_name (l : list SourceEntry) : list SourceEntry :=
  foldr insert_by_name [] l.

Definition get_source_files `{Fnmatch} (fp : FileProcessor) (src : list SourceEntry)
    : list SourceEntry :=
  let files := filter (λ path, is_file path && negb (_is_excluded fp path)) (glob fp src) in
  sort_by_name files.

(** The message of the three [except] clauses of [_copy_file]. *)
Definition copy_error_message (e : CopyExn) (msg : string) : string :=
  match e with
  | PermissionError => "Insufficient permissions: " +:+ msg
  | OSError => "System error: " +:+ msg
  | OtherException => "Unexpected error: " +:+ msg
  end.

(** [_copy_file(source, target)] with [target = self.target_dir / filename];
    the target directory after the call comes with the result.  An
    exception of the copy leaves what the copy had written, and so does an
    exception of the [unlink] of a copy of the wrong size. *)
Definition _copy_file (fp : FileProcessor) (env : Env) (tgt : gmap string TEntry)
    (source : SourceEntry) (filename : string)
    : (bool * option string) * gmap string TEntry :=
  match tgt !! filename with
  | Some _ =>
      ((false, Some ("File already exists in target: " +:+ target_path fp filename)), tgt)
  | None =>
      if dry_run fp then ((true, None), tgt)
      else
        match copy2 env source with
        | Raised e msg remains =>
            ((false, Some (copy_error_message e msg)),
             match remains with
             | Some n => <[filename := TFile n]> tgt
             | None => tgt
             end)
        | NotWritten => ((false, Some "Copy failed (file not created)"), tgt)
        | Written target_size =>
            let tgt := <[filename := TFile target_size]> tgt in
            let source_size := st_size source in
            if bool_decide (source_size ≠ target_size)
            then
              match unlink_fault env filename with
              | Some (e, msg) => ((false, Some (copy_error_message e msg)), tgt)
              | None =>
                  ((false,
                    Some ("Incorrect size after copy (" +:+ pretty source_size
                          +:+ " != " +:+ pretty target_size +:+ ")")),
                   delete filename tgt)
              end
            else ((true, None), tgt)
        end
  end.

(** The exceptions that leave [process_batch]: those of the store, and
    that of the [unlink] in the handler of a failed insert. *)
Inductive BatchExn :=
| StoreExn (e : Database.SqliteError)
| UnlinkExn (e : CopyExn) (msg : string).

(** [str(e)] *)
Definition batch_exn_str (e : BatchExn) : string :=
  match e with
  | StoreExn e => Database.str e
  | UnlinkExn _ msg => msg
  end.

(** The body of the loop [for file_path in files_to_process] of
    [process_batch]: one file taken from selection to its outcome, or to
    the exception that leaves the loop.  The calls of the logger and of
    [ProgressLogger] only write log lines and are left out, here and
    below. *)
Definition process_file (fp : FileProcessor) (env : Env) (acc : Stats * World)
    (file_path : SourceEntry) : option BatchExn * (Stats * World) :=
  let '(stats, w) := acc in
  let filename := name file_path in
  let file_size := st_size file_path in
  if Database.is_file_processed (db w) filename
  then (None, (count_skipped stats filename, w))
  else
    let '((success, error_msg), tgt) :=
      _copy_file fp env (target w) file_path filename in
    let w := with_target w tgt in
    if negb success then
      (* a failure always carries its message, see [_copy_file_spec] *)
      let error_msg := default "" error_msg in
      if dry_run fp then (None, (count_error stats filename error_msg, w))
      else
        match db_log_error env w filename "COPY_ERROR" error_msg with
        | (Some e, w) => (Some (StoreExn e), (stats, w))
        | (None, w) => (None, (count_error stats filename error_msg, w))
        end
    else
      let file_hash :=
        if compute_hash fp && negb (dry_run fp) then digest env filename else None in
      if dry_run fp then (None, (count_processed stats filename file_size, w))
      else
        let '(copy_date, w) := datetime_now env w in
        match Database.add_processed_file env (db w) filename
                (path_str fp file_path) (target_path fp filename)
                file_size copy_date file_hash with
        | inr (_, db') => (None, (count_processed stats filename file_size, with_db w db'))
        | inl e =>
            (* the handler: neither the [unlink] nor [log_error] is guarded *)
            match target w !! filename, unlink_fault env filename with
            | Some _, Some (k, msg) => (Some (UnlinkExn k msg), (stats, w))
            | removed, _ =>
                let w := match removed with
                         | Some _ => with_target w (delete filename (target w))
                         | None => w
                         end in
                match db_log_error env w filename "DB_ERROR" (Database.str e) with
                | (Some e', w) => (Some (StoreExn e'), (stats, w))
                | (None, w) => (None, (count_error stats filename (Database.str e), w))
                end
            end
        end.

(** The loop over the batch: an exception ends it. *)
Fixpoint process_files (fp : FileProcessor) (env : Env) (acc : Stats * World)
    (batch : list SourceEntry) : option BatchExn * (Stats * World) :=
  match batch with
  | [] => (None, acc)
  | file_path :: batch =>
      match process_file fp env acc file_path with
      | (Some e, acc) => (Some e, acc)
      | (None, acc) => process_files fp env acc batch
      end
  end.

(** The selection loop of [process_batch]: walk the sorted source files,
    keep those whose name is unprocessed, stop once the batch is full. *)
Fixpoint select_files (batch_size : Z) (unprocessed_names : list string)
    (source_files files_to_process : list SourceEntry) : list SourceEntry :=
  match source_files with
  | [] => files_to_process
  | file_path :: rest =>
      if bool_decide (name file_path ∈ unprocessed_names) then
        let files_to_process := files_to_process ++ [file_path] in
        if bool_decide (batch_size ≤ Z.of_nat (length files_to_process))
        then files_to_process
        else select_files batch_size unprocessed_names rest files_to_process
      else select_files batch_size unprocessed_names rest files_to_process
  end.

(** The files a call of [process_batch] works on when the query of
    [get_unprocessed_files] runs. *)
Definition files_to_process `{Fnmatch} (fp : FileProcessor) (src : list SourceEntry)
    (d : Database.DatabaseManager) : list SourceEntry :=
  let source_files := get_source_files fp src in
  let filenames := name <$> source_files in
  let unprocessed_names := Database.unprocessed d filenames in
  select_files (batch_size fp) unprocessed_names source_files [].

(** How a call of [process_batch] ends. *)
Inductive Outcome :=
| Returned (stats : Stats)
| Raises (e : BatchExn).

(** [process_batch]: the statistics it returns, or the exception it
    raises, and the world it leaves; [src] lists what the glob finds below
    the source directory.  The two early returns hand back the initial
    statistics; the duration is the difference of two clock readings, in
    microseconds ([total_seconds] prints it in seconds). *)
Definition process_batch `{Fnmatch} (fp : FileProcessor) (env : Env)
    (src : list SourceEntry) (w : World) : Outcome * World :=
  let '(start_time, w) := datetime_now env w in
  match get_source_files fp src with
  | [] => (Returned stats0, w)
  | source_files =>
      let filenames := name <$> source_files in
      match Database.get_unprocessed_files env (db w) filenames with
      | inl e => (Raises (StoreExn e), w)
      | inr unprocessed_names =>
          match select_files (batch_size fp) unprocessed_names source_files [] with
          | [] => (Returned stats0, w)
          | batch =>
              match process_files fp env (stats0, w) batch with
              | (Some e, (_, w)) => (Raises e, w)
              | (None, (stats, w)) =>
                  let '(end_time, w) := datetime_now env w in
                  (Returned (set_duration stats (end_time - start_time)), w)
              end
          end
      end
  end.

(** [f.is_file()] on an entry of the target directory. *)
Definition is_regular (e : TEntry) : bool :=
  match e with
  | TFile _ => true
  | TDir => false
  end.

(** [verify_target_files]: the names of the regular files of the target
    directory. *)
Definition verify_target_files (w : World) : list string :=
  (filter (λ f, is_regular f.2) (map_to_list (target w))).*1.

(** The body of the loop [for filename in orphans] of
    [clean_target_orphans]. *)
Definition unlink_orphan (fp : FileProcessor) (env : Env) (acc : Z * World)
    (filename : string) : Z * World :=
  let '(deleted, w) := acc in
  if negb (dry_run fp) then
    match unlink_fault env filename with
    | None => (deleted + 1, with_target w (delete filename (target w)))
    | Some _ => (deleted, w)
    end
  else (deleted + 1, w).

(** [clean_target_orphans]: the number it returns and the world it leaves.
    The loop visits the set of orphans in the order of [elements]. *)
Definition clean_target_orphans (fp : FileProcessor) (env : Env) (w : World)
    : Z * World :=
  let target_files := verify_target_files w in
  match target_files with
  | [] => (0, w)
  | _ =>
      let processed := filter (λ f, Database.is_file_processed (db w) f) target_files in
      let orphans : gset string := list_to_set target_files ∖ list_to_set processed in
      if decide (orphans = ∅) then (0, w)
      else foldl (unlink_orphan fp env) (0, w) (elements orphans)
  end.


(** ** config_loader.py and main.py *)

(** The exceptions the handlers of [main] tell apart; [UnexpectedError]
    stands for every other subclass of [Exception]. *)
Inductive StartupExn :=
| FileNotFoundError (msg : string)
| ValueError (msg : string)
| UnexpectedError (msg : string).

(** The configuration dictionary after the environment overrides; [None]
    is a key that is absent. *)
Record ConfigData := {
  cfg_source_dir : option string;
  cfg_target_dir : option string;
  cfg_database_path : option string;
  cfg_batch_size : option Z;
  cfg_compute_hash : option bool;
  cfg_hash_algorithm : option string;
  cfg_exclude_patterns : option (list string);
  cfg_recursive : option bool;
  cfg_dry_run : option bool
}.

(** The configuration file on disk. *)
Inductive ConfigFile :=
| Missing
| Unparsable (msg : string)
| Parsed (c : ConfigData).

(** [_validate_config] *)
Definition _validate_config (c : ConfigData) : StartupExn + ConfigData :=
  match cfg_source_dir c, cfg_target_dir c, cfg_database_path c, cfg_batch_size c with
  | None, _, _, _ => inl (ValueError "Required configuration field missing: source_dir")
  | _, None, _, _ => inl (ValueError "Required configuration field missing: target_dir")
  | _, _, None, _ => inl (ValueError "Required configuration field missing: database.path")
  | _, _, _, None =>
      inl (ValueError "Required configuration field missing: processing.batch_size")
  | Some _, Some _, Some _, Some b =>
      if bool_decide (b ≤ 0)
      then inl (ValueError ("batch_size must be positive: " +:+ pretty b))
      else inr c
  end.

(** [Config(config_path)] *)
Definition Config (config_path : string) (file : ConfigFile) : StartupExn + ConfigData :=
  match file with
  | Missing => inl (FileNotFoundError ("Configuration file not found: " +:+ config_path))
  | Unparsable msg => inl (UnexpectedError msg)
  | Parsed c => _validate_config c
  end.

(** The options of the command line that [main] acts on. *)
Record Cli := {
  cli_batch_size : option Z;
  cli_dry_run : bool;
  cli_compute_hash : bool;
  cli_hash_algorithm : option string;
  cli_exclude : list string;
  cli_config : string;
  cli_check_integrity : bool;
  cli_list_processed : bool;
  cli_stats : bool;
  cli_clean_orphans : bool
}.

(** [apply_cli_overrides]: every argument that is not [None] replaces the
    configured value; the two flags are booleans, hence never [None]. *)
Definition apply_cli_overrides (c : ConfigData) (cli : Cli) : ConfigData :=
  {| cfg_source_dir := cfg_source_dir c;
     cfg_target_dir := cfg_target_dir c;
     cfg_database_path := cfg_database_path c;
     cfg_batch_size := match cli_batch_size cli with
                       | Some b => Some b
                       | None => cfg_batch_size c
                       end;
     cfg_compute_hash := Some (cli_compute_hash cli);
     cfg_hash_algorithm := match cli_hash_algorithm cli with
                           | Some a => Some a
                           | None => cfg_hash_algorithm c
                           end;
     cfg_exclude_patterns := Some (default [] (cfg_exclude_patterns c) ++ cli_exclude cli);
     cfg_recursive := cfg_recursive c;
     cfg_dry_run := Some (cli_dry_run cli) |}.

(** What [main] finds when it starts: the configuration file, whether the
    record store opens, the entries below the source directory ([None]:
    the directory does not exist) and whether [xxhash] is installed. *)
Record Startup := {
  config_file : ConfigFile;
  database_fault : option string;
  source : option (list SourceEntry);
  xxhash_available : bool
}.

(** [FileProcessor(...)] as [main] builds it from the configuration. *)
Definition FileProcessor_init (c : ConfigData) (s : Startup)
    : StartupExn + (FileProcessor * list SourceEntry) :=
  let source_dir := Path (default "" (cfg_source_dir c)) in
  let compute_hash := default false (cfg_compute_hash c) in
  let hash_algorithm := default "xxhash" (cfg_hash_algorithm c) in
  match source s with
  | None =>
      inl (ValueError ("Source directory does not exist: " +:+ str_path source_dir))
  | Some src =>
      inr ({| source_dir := source_dir;
              target_dir := Path (default "" (cfg_target_dir c));
              batch_size := default 10 (cfg_batch_size c);
              compute_hash := compute_hash;
              hash_algorithm :=
                if compute_hash && bool_decide (hash_algorithm = "xxhash")
                   && negb (xxhash_available s)
                then "sha256" else hash_algorithm;
              exclude_patterns := default [] (cfg_exclude_patterns c);
              recursive := default true (cfg_recursive c);
              dry_run := default false (cfg_dry_run c) |}, src)
  end.

(** How the [try] block of [main] ends. *)
Inductive Flow :=
| Return
| SysExit (code : Z)
| Raise (e : StartupExn).

(** The [try] block of [main]; the second component is the result of
    [process_batch] when the batch ran and returned.  An exception of
    [process_batch] is none of those that [main] names. *)
Definition main_body `{Fnmatch} (cli : Cli) (s : Startup) (env : Env) (w : World)
    : Flow * option Stats * World :=
  match Config (cli_config cli) (config_file s) with
  | inl e => (Raise e, None, w)
  | inr cfg =>
      let cfg := apply_cli_overrides cfg cli in
      match database_fault s with
      | Some msg => (Raise (UnexpectedError msg), None, w)
      | None =>
          if cli_check_integrity cli then (Return, None, w)
          else if cli_list_processed cli then (Return, None, w)
          else if cli_stats cli then (Return, None, w)
          else
            match FileProcessor_init cfg s with
            | inl e => (Raise e, None, w)
            | inr (processor, src) =>
                if cli_clean_orphans cli
                then (Return, None, (clean_target_orphans processor env w).2)
                else
                  match process_batch processor env src w with
                  | (Raises e, w) => (Raise (UnexpectedError (batch_exn_str e)), None, w)
                  | (Returned result, w) =>
                      if bool_decide (0 < errors result)
                      then (SysExit 1, Some result, w)
                      else (Return, Some result, w)
                  end
            end
      end
  end.

(** The exit status of the process: the [except] clauses of [main] turn
    an exception into [sys.exit(1)] or [sys.exit(2)]. *)
Definition exit_code (f : Flow) : Z :=
  match f with
  | Return => 0
  | SysExit code => code
  | Raise (FileNotFoundError _) => 1
  | Raise (ValueError _) => 1
  | Raise (UnexpectedError _) => 2
  end.

(** The exit status of the command.  The option [--config] is declared
    [click.Path(exists=True)]: when the file is missing, click refuses the
    command line with status 2 and the body of [main] does not run. *)
Definition main `{Fnmatch} (cli : Cli) (s : Startup) (env : Env) (w : World) : Z :=
  match config_file s with
  | Missing => 2
  | _ => exit_code (main_body cli s env w).1.1
  end.


(** ** Repeated runs and arbitrary histories *)

(** [process_batch] called once per environment of the list, against the
    same source directory. *)
Fixpoint run_batches `{Fnmatch} (fp : FileProcessor) (src : list SourceEntry)
    (envs : list Env) (w : World) : list Outcome * World :=
  match envs with
  | [] => ([], w)
  | env :: envs =>
      let '(s, w) := process_batch fp env src w in
      let '(ss, w) := run_batches fp src envs w in
      (s :: ss, w)
  end.

(** The operations that write to the record store or the target
    directory, each with the processor and environment of its call. *)
Inductive Op :=
| OpProcessBatch (fp : FileProcessor) (env : Env) (src : list SourceEntry)
| OpCleanOrphans (fp : FileProcessor) (env : Env)
| OpAddProcessedFile (env : Env) (filename source_path target_path : string)
    (size copy_date : Z) (file_hash : option string)
| OpLogError (env : Env) (filename error_type error_message : string).

Definition run_op `{Fnmatch} (w : World) (op : Op) : World :=
  match op with
  | OpProcessBatch fp env src => (process_batch fp env src w).2
  | OpCleanOrphans fp env => (clean_target_orphans fp env w).2
  | OpAddProcessedFile env filename source_path target_path size copy_date file_hash =>
      match Database.add_processed_file env (db w) filename source_path target_path
              size copy_date file_hash with
      | inr (_, d) => with_db w d
      | inl _ => w
      end
  | OpLogError env filename error_type error_message =>
      (db_log_error env w filename error_type error_message).2
  end.

(** An environment in which the copy of every file writes all its bytes
    and the store accepts the inserts into its two tables. *)
Definition faithful (env : Env) : Prop :=
  ∀ f, copy2 env f = Written (st_size f) ∧ insert_fault env (name f) = None
       ∧ log_fault env (name f) = None.

(** The query of [get_unprocessed_files] over the source files stays
    within the variables that the connection allows. *)
Definition within_variable_limit `{Fnmatch} (fp : FileProcessor)
    (src : list SourceEntry) (env : Env) : Prop :=
  (length (get_source_files fp src) ≤ max_variable_number env)%nat.

(** The same processor in simulation mode or in real mode. *)
Definition with_dry_run (fp : FileProcessor) (b : bool) : FileProcessor :=
  {| source_dir := source_dir fp; target_dir := target_dir fp;
     batch_size := batch_size fp; compute_hash := compute_hash fp;
     hash_algorithm := hash_algorithm fp;
     exclude_patterns := exclude_patterns fp; recursive := recursive fp;
     dry_run := b |}.

(** The names [process_batch] still has to work on. *)
Definition pending `{Fnmatch} (fp : FileProcessor) (src : list SourceEntry)
    (d : Database.DatabaseManager) : list string :=
  Database.unprocessed d (name <$> get_source_files fp src).

(** A regular file of the target directory without a record. *)
Definition is_orphan (w : World) (filename : string) : bool :=
  match target w !! filename with
  | Some e => is_regular e && negb (Database.is_file_processed (db w) filename)
  | None => false
  end.

(** The orphans of a world, as the listing of the target directory
    gives them. *)
Definition orphans_of (w : World) : list string :=
  filter (λ f, is_orphan w f) (map_to_list (target w)).*1.

(** ** Instances for the examples *)

(** A matcher for patterns made of [*], [?] and literal characters. *)
Fixpoint glob_star (s p : string) {struct p} : bool :=
  match p with
  | EmptyString => match s with EmptyString => true | _ => false end
  | String c p' =>
      if Ascii.eqb c "*" then
        (fix star (s : string) : bool :=
           glob_star s p'
           || match s with EmptyString => false | String _ s' => star s' end) s
      else
        match s with
        | EmptyString => false
        | String d s' => (Ascii.eqb c "?" || Ascii.eqb c d) && glob_star s' p'
        end
  end.

(** Every copy succeeds, the store has no fault and allows 999 variables
    (the bound of SQLite before 3.32), no hash is computed and the clock
    advances by one second per reading. *)
Definition env_ok : Env :=
  {| clock := λ n, 1000000 * Z.of_nat n;
     copy2 := λ f, Written (st_size f);
     insert_fault := λ _, None;
     digest := λ _, None;
     unlink_fault := λ _, None;
     log_fault := λ _, None;
     max_variable_number := Z.to_nat 999 |}.

Definition file (dir : list string) (n : string) (size : Z) : SourceEntry :=
  {| parent := dir; name := n; is_file := true; st_size := size |}.

(** A source directory with three files, found in the order [c.tmp],
    [b.jpg], [a.txt]. *)
Definition src_abc : list SourceEntry :=
  [file [] "c.tmp" 7; file [] "b.jpg" 20; file [] "a.txt" 5].

(** Two files with one base name in two subdirectories. *)
Definition src_dup : list SourceEntry :=
  [file ["a"] "x.txt" 3; file ["b"] "x.txt" 4].

Definition processor (size : Z) (dry : bool) : FileProcessor :=
  {| source_dir := Path "/src"; target_dir := Path "/dst"; batch_size := size;
     compute_hash := false; hash_algorithm := "xxhash";
     exclude_patterns := ["*.tmp"]; recursive := true; dry_run := dry |}.

Definition world0 : World :=
  {| target := ∅; db := Database._initialize_database; ticks := 0 |}.

(** The order on file names that the sort uses: lexicographic on the
    character codes. *)
Definition name_le (a b : SourceEntry) : Prop :=
  String.leb (name a) (name b) = true.

(** The names a result mentions in any of its three lists. *)
Definition mentioned (s : Stats) : list string :=
  files_processed s ++ files_skipped s ++ (files_errors s).*1.

(** The counters of a result agree with its lists. *)
Definition counts_agree (s : Stats) : Prop :=
  processed s = Z.of_nat (length (files_processed s))
  ∧ skipped s = Z.of_nat (length (files_skipped s))
  ∧ errors s = Z.of_nat (length (files_errors s)).

(** The sum of the [processed] counts of a sequence of results. *)
Definition total_processed (ss : list Stats) : Z :=
  foldr (λ s acc, processed s + acc) 0 ss.

(** A command line that asks for the normal processing mode. *)
Definition cli0 : Cli :=
  {| cli_batch_size := None; cli_dry_run := false; cli_compute_hash := false;
     cli_hash_algorithm := None; cli_exclude := []; cli_config := "config/config.yaml";
     cli_check_integrity := false; cli_list_processed := false;
     cli_stats := false; cli_clean_orphans := false |}.

Definition config_with (size : Z) : ConfigData :=
  {| cfg_source_dir := Some "/src"; cfg_target_dir := Some "/dst";
     cfg_database_path := Some "data/file_tracker.db"; cfg_batch_size := Some size;
     cfg_compute_hash := None; cfg_hash_algorithm := None;
     cfg_exclude_patterns := Some ["*.tmp"]; cfg_recursive := None;
     cfg_dry_run := None |}.

(** A start with a valid configuration over the source [src_abc], and one
    whose configuration asks for a batch size of zero. *)
Definition startup_ok : Startup :=
  {| config_file := Parsed (config_with 10); database_fault := None;
     source := Some src_abc; xxhash_available := true |}.

Definition startup_bad : Startup :=
  {| config_file := Parsed (config_with 0); database_fault := None;
     source := Some src_abc; xxhash_available := true |}.

(** A target directory with a recorded file, an orphan and a directory. *)
Definition world_orphan : World :=
  {| target := {["tracked.txt" := TFile 13; "orphan.txt" := TFile 19; "sub" := TDir]};
     db := {| Database.processed_files :=
                [{| Database.pf_id := 1; Database.pf_filename := "tracked.txt";
                    Database.pf_source_path := "/source/tracked.txt";
                    Database.pf_target_path := "/dst/tracked.txt";
                    Database.pf_size := 100; Database.pf_copy_date := 0;
                    Database.pf_hash := None |}];
              Database.errors := []; Database.processed_seq := 1;
              Database.errors_seq := 0 |};
     ticks := 0 |}.

(** The copy of [a.txt] stops after 3 bytes; every other copy is whole. *)
Definition env_short : Env :=
  {| clock := clock env_ok;
     copy2 := λ f, if String.eqb (name f) "a.txt" then Written 3 else Written (st_size f);
     insert_fault := λ _, None;
     digest := λ _, None;
     unlink_fault := λ _, None;
     log_fault := λ _, None;
     max_variable_number := Z.to_nat 999 |}.

(** The store refuses the record of [a.txt], the database being locked,
    and then takes the error entry. *)
Definition env_locked : Env :=
  {| clock := clock env_ok;
     copy2 := copy2 env_ok;
     insert_fault := λ n, if String.eqb n "a.txt" then Some "database is locked" else None;
     digest := λ _, None;
     unlink_fault := λ _, None;
     log_fault := λ _, None;
     max_variable_number := Z.to_nat 999 |}.

(** The file names of the records, in insertion order. *)
Abbreviation pf_names d := (Database.pf_filename <$> Database.processed_files d).

(** ** database.py: the queries *)

(** ORDER BY copy_date DESC, as an insertion in front of the first row
    that is not more recent.  SQLite leaves the order of rows of equal date
    open; here they keep their order of insertion. *)
Fixpoint insert_by_date (r : Database.ProcessedFile)
    (l : list Database.ProcessedFile) : list Database.ProcessedFile :=
  match l with
  | [] => [r]
  | y :: l' =>
      if bool_decide (Database.pf_copy_date y ≤ Database.pf_copy_date r)
      then r :: y :: l'
      else y :: insert_by_date r l'
  end.

Definition order_by_copy_date_desc (l : list Database.ProcessedFile)
    : list Database.ProcessedFile :=
  foldr insert_by_date [] l.

(** [get_processed_files(limit, offset)]: the clause LIMIT .. OFFSET .. is
    added only when [limit] is truthy, so neither [None] nor 0 limits the
    listing; SQLite reads a negative LIMIT as no bound and a negative
    OFFSET as 0. *)
Definition get_processed_files (d : Database.DatabaseManager)
    (limit : option Z) (offset : Z) : list Database.ProcessedFile :=
  let rows := order_by_copy_date_desc (Database.processed_files d) in
  match limit with
  | None => rows
  | Some l =>
      if bool_decide (l = 0) then rows
      else
        let rest := drop (Z.to_nat offset) rows in
        if bool_decide (l < 0) then rest else take (Z.to_nat l) rest
  end.

(** The dictionary of [get_statistics], without [total_size_gb], which is
    [total_size] rounded as a float. *)
Record Statistics := {
  stat_total_files : Z;
  stat_total_size : Z;
  stat_total_errors : Z;
  stat_last_copy : option Z
}.

(** SUM(size) *)
Definition sum_sizes (l : list Database.ProcessedFile) : Z :=
  foldr (λ r acc, Database.pf_size r + acc) 0 l.

(** [get_statistics]: the two counts, SUM(size) (0 for an empty table) and
    the date of the first row by descending date. *)
Definition get_statistics (d : Database.DatabaseManager) : Statistics :=
  {| stat_total_files := Z.of_nat (length (Database.processed_files d));
     stat_total_size := sum_sizes (Database.processed_files d);
     stat_total_errors := Z.of_nat (length (Database.errors d));
     stat_last_copy :=
       Database.pf_copy_date
         <$> head (order_by_copy_date_desc (Database.processed_files d)) |}.

(** The dictionary of [check_integrity]. *)
Record IntegrityReport := {
  status : string;
  integrity_check : string;
  duplicates : list (string * nat);
  duplicate_count : nat
}.

(** [check_integrity]: the file names with more than one row (GROUP BY
    filename HAVING count > 1, one group per name), and the answer
    [pragma] of PRAGMA integrity_check. *)
Definition check_integrity (pragma : string) (d : Database.DatabaseManager)
    : IntegrityReport :=
  let groups :=
    (λ n, (n, Database.count_records d n))
      <$> remove_dups (Database.pf_filename <$> Database.processed_files d) in
  let duplicates := filter (λ g, (1 < g.2)%nat) groups in
  {| status := if bool_decide (pragma = "ok") && bool_decide (duplicates = [])
               then "ok" else "warning";
     integrity_check := pragma;
     duplicates := duplicates;
     duplicate_count := length duplicates |}.

(** ** file_processor.py: the hash of a file *)

(** A hash object: [xxhash.xxh64()] or [hashlib.sha256()] with its
    [update] and [hexdigest]. *)
Record Hasher := {
  hash_state : Type;
  hash_new : hash_state;
  hash_update : hash_state → list Byte.byte → hash_state;
  hexdigest : hash_state → string
}.

(** The size of the blocks that [_compute_file_hash] reads. *)
Definition chunk_size : nat := Z.to_nat 8192.

(** The loop [while chunk := f.read(8192): hash_obj.update(chunk)] over
    the bytes not read yet; every turn reads at least one byte, so the
    number of bytes of the file bounds the number of turns. *)
Fixpoint read_chunks (h : Hasher) (turns : nat) (st : hash_state h)
    (rest : list Byte.byte) : hash_state h :=
  match turns with
  | O => st
  | S turns =>
      match take chunk_size rest with
      | [] => st
      | chunk =>
          read_chunks h turns (hash_update h st chunk) (drop chunk_size rest)
      end
  end.

(** The hash object that [_compute_file_hash] creates. *)
Definition hash_object (fp : FileProcessor) (xxhash_available : bool)
    (xxh64 sha256 : Hasher) : Hasher :=
  if bool_decide (hash_algorithm fp = "xxhash") && xxhash_available
  then xxh64 else sha256.

(** [_compute_file_hash] on a file with the given bytes. *)
Definition _compute_file_hash (fp : FileProcessor) (xxhash_available : bool)
    (xxh64 sha256 : Hasher) (content : list Byte.byte) : string :=
  let h := hash_object fp xxhash_available xxh64 sha256 in
  hexdigest h (read_chunks h (length content) (hash_new h) content).

(** A hash for the examples: the sum of the bytes, or their number. *)
Definition sum_hasher : Hasher :=
  {| hash_state := N;
     hash_new := 0%N;
     hash_update := λ st chunk, foldl (λ acc b, (acc + Byte.to_N b)%N) st chunk;
     hexdigest := λ st, pretty st |}.

Definition count_hasher : Hasher :=
  {| hash_state := nat;
     hash_new := 0%nat;
     hash_update := λ st chunk, (st + length chunk)%nat;
     hexdigest := λ st, pretty st |}.

(** The same processor with another batch size. *)
Definition with_batch_size (fp : FileProcessor) (size : Z) : FileProcessor :=
  {| source_dir := source_dir fp; target_dir := target_dir fp;
     batch_size := size; compute_hash := compute_hash fp;
     hash_algorithm := hash_algorithm fp;
     exclude_patterns := exclude_patterns fp; recursive := recursive fp;
     dry_run := dry_run fp |}.

(** The record that [process_batch] inserts for a source file at a clock
    reading, under the next id of the store. *)
Definition record_of (fp : FileProcessor) (env : Env) (f : SourceEntry)
    (id copy_date : Z) : Database.ProcessedFile :=
  {| Database.pf_id := id; Database.pf_filename := name f;
     Database.pf_source_path := path_str fp f;
     Database.pf_target_path := target_path fp (name f);
     Database.pf_size := st_size f; Database.pf_copy_date := copy_date;
     Database.pf_hash := if compute_hash fp then digest env (name f) else None |}.

(** The ids of the two tables are 1, 2, ... in the order of insertion and
    the counters stand at the last id. *)
Definition ids_in_sequence (d : Database.DatabaseManager) : Prop :=
  Database.pf_id <$> Database.processed_files d
  = seqZ 1 (Z.of_nat (length (Database.processed_files d)))
  ∧ Database.processed_seq d = Z.of_nat (length (Database.processed_files d))
  ∧ Database.er_id <$> Database.errors d
    = seqZ 1 (Z.of_nat (length (Database.errors d)))
  ∧ Database.errors_seq d = Z.of_nat (length (Database.errors d)).

(** ** config_loader.py: the nested dictionary *)

(** The values that [yaml.safe_load] and [_parse_value] put into the
    configuration dictionary; a float is kept as its text.  The keys of the
    dictionaries are strings, and no dictionary occurs at two places. *)
Unset Elimination Schemes.
Inductive PyValue :=
| PyNone
| PyBool (b : bool)
| PyInt (z : Z)
| PyFloat (repr : string)
| PyStr (s : string)
| PyList (l : list PyValue)
| PyDict (d : gmap string PyValue).
Set Elimination Schemes.

(** The exceptions of the subscripts of [_set_nested_value]. *)
Inductive PyExn :=
| IndexError
| TypeError.

(** [get_nested_value] from the dictionary [current] on. *)
Fixpoint get_nested_value (current : PyValue) (path : list string)
    (default : PyValue) : PyValue :=
  match path with
  | [] => current
  | key :: path =>
      match current with
      | PyDict d =>
          match d !! key with
          | Some v => get_nested_value v path default
          | None => default
          end
      | _ => default
      end
  end.

(** [_set_nested_value]: the configuration after the assignment.  The
    empty path fails at [path[-1]]; a value on the way that is no
    dictionary fails at [key not in current], at [current[key]] or at the
    assignment, before anything is changed. *)
Fixpoint _set_nested_value (current : PyValue) (path : list string)
    (value : PyValue) : PyExn + PyValue :=
  match path with
  | [] => inl IndexError
  | [key] =>
      match current with
      | PyDict d => inr (PyDict (<[key := value]> d))
      | _ => inl TypeError
      end
  | key :: (_ :: _) as rest =>
      match current with
      | PyDict d =>
          match _set_nested_value (from_option id (PyDict ∅) (d !! key)) rest value with
          | inl e => inl e
          | inr child => inr (PyDict (<[key := child]> d))
          end
      | _ => inl TypeError
      end
  end.

(** [isinstance(v, dict)] *)
Definition is_dict (v : PyValue) : bool :=
  match v with
  | PyDict _ => true
  | _ => false
  end.

(** A copy of [f] that fails and leaves a file of [k] bytes under the
    target name: the copy raises after it has created the file, or the
    [unlink] of the copy raises. *)
Definition leaves_file (env : Env) (f : SourceEntry) (k : Z) : Prop :=
  (∃ e msg, copy2 env f = Raised e msg (Some k))
  ∨ (copy2 env f = Written k ∧ is_Some (unlink_fault env (name f))).

(** The copy of [a.txt] stops after 3 bytes, and the file system refuses
    to remove the short copy. *)
Definition env_stuck : Env :=
  {| clock := clock env_ok;
     copy2 := copy2 env_short;
     insert_fault := λ _, None;
     digest := λ _, None;
     unlink_fault := λ n, if String.eqb n "a.txt"
                          then Some (PermissionError, "[Errno 1] Operation not permitted")
                          else None;
     log_fault := λ _, None;
     max_variable_number := Z.to_nat 999 |}.

(** The database is locked for every statement that writes. *)
Definition env_locked_out : Env :=
  {| clock := clock env_ok;
     copy2 := copy2 env_ok;
     insert_fault := λ _, Some "database is locked";
     digest := λ _, None;
     unlink_fault := λ _, None;
     log_fault := λ _, Some "database is locked";
     max_variable_number := Z.to_nat 999 |}.

(** What the loop of [process_batch] over the files [l] adds to the
    record store ([rows], [errs]) on the way from the statistics and world
    [s], [w] to [s'], [w'], whether it ends or raises, and how the
    statistics and the target directory follow: a target name without a
    new record keeps its entry, unless it was free and a failed copy left
    its file there. *)
Definition batch_delta (fp : FileProcessor) (env : Env) (l : list SourceEntry)
    (s : Stats) (w : World) (s' : Stats) (w' : World)
    (rows : list Database.ProcessedFile) (errs : list Database.ErrorRow) : Prop :=
  Database.processed_files (db w') = Database.processed_files (db w) ++ rows
  ∧ Database.errors (db w') = Database.errors (db w) ++ errs
  ∧ (dry_run fp = true → rows = [] ∧ errs = [] ∧ w' = w)
  ∧ (dry_run fp = false →
     processed s' = processed s + Z.of_nat (length rows)
     ∧ total_size s' = total_size s + sum_sizes rows
     ∧ errors s' = errors s + Z.of_nat (length errs)
     ∧ files_processed s' = files_processed s ++ (Database.pf_filename <$> rows)
     ∧ files_errors s'
       = files_errors s
         ++ ((λ e, (Database.er_filename e, Database.er_error_message e)) <$> errs))
  ∧ Forall (λ row, ∃ f id copy_date,
              f ∈ l ∧ row = record_of fp env f id copy_date
              ∧ copy2 env f = Written (st_size f)
              ∧ Database.is_file_processed (db w) (name f) = false
              ∧ target w !! name f = None
              ∧ target w' !! name f = Some (TFile (st_size f))) rows
  ∧ NoDup (Database.pf_filename <$> rows)
  ∧ (∀ k, k ∉ Database.pf_filename <$> rows →
          target w' !! k = target w !! k
          ∨ (dry_run fp = false ∧ target w !! k = None
             ∧ Database.is_file_processed (db w) k = false
             ∧ ∃ g z, g ∈ l ∧ name g = k ∧ leaves_file env g z
                      ∧ target w' !! k = Some (TFile z)))
  ∧ Forall (λ e, (Database.er_error_type e = "COPY_ERROR"
                  ∨ Database.er_error_type e = "DB_ERROR")
                 ∧ ∃ f, f ∈ l ∧ Database.er_filename e = name f) errs.

(** The processor of the examples for other directories, given as the
    command line or the configuration file spells them. *)
Definition processor_in (source target : string) (size : Z) (dry : bool)
    : FileProcessor :=
  {| source_dir := Path source; target_dir := Path target; batch_size := size;
     compute_hash := false; hash_algorithm := "xxhash";
     exclude_patterns := ["*.tmp"]; recursive := true; dry_run := dry |}.

(** A copy of [a.txt] that fails with "No space left on device" after
    it has written 2 bytes. *)
Definition env_full : Env :=
  {| clock := λ n, 1000000 * Z.of_nat n;
     copy2 := λ f, if String.eqb (name f) "a.txt"
                   then Raised OSError "[Errno 28] No space left on device" (Some 2)
                   else Written (st_size f);
     insert_fault := λ _, None;
     digest := λ _, None;
     unlink_fault := λ _, None;
     log_fault := λ _, None;
     max_variable_number := Z.to_nat 999 |}.

(** * Properties *)

(** ** The order on names *)

Lemma ascii_compare_refl (c : ascii) : Ascii.compare c c = Eq.
Proof. unfold Ascii.compare. apply N.compare_refl. Qed.

Lemma ascii_compare_lt_trans (a b c : ascii) :
  Ascii.compare a b = Lt → Ascii.compare b c = Lt → Ascii.compare a c = Lt.
Proof.
  unfold Ascii.compare. rewrite !N.compare_lt_iff. apply N.lt_trans.
Qed.

Lemma string_compare_lt_trans (s1 s2 s3 : string) :
  String.compare s1 s2 = Lt → String.compare s2 s3 = Lt →
  String.compare s1 s3 = Lt.
Proof.
  revert s2 s3. induction s1 as [|a s1 IH]; intros [|b s2] [|c s3]; simpl;
    try congruence.
  destruct (Ascii.compare a b) eqn:Hab; try discriminate.
  - apply Ascii.compare_eq_iff in Hab as ->.
    destruct (Ascii.compare b c) eqn:Hbc; try discriminate; eauto.
  - destruct (Ascii.compare b c) eqn:Hbc; try discriminate.
    + apply Ascii.compare_eq_iff in Hbc as <-. by rewrite Hab.
    + by rewrite (ascii_compare_lt_trans a b c).
Qed.

Lemma string_leb_trans (s1 s2 s3 : string) :
  String.leb s1 s2 = true → String.leb s2 s3 = true → String.leb s1 s3 = true.
Proof.
  unfold String.leb.
  destruct (String.compare s1 s2) eqn:H12; try discriminate; intros _.
  - apply String.compare_eq_iff in H12 as ->. done.
  - destruct (String.compare s2 s3) eqn:H23; try discriminate; intros _.
    + apply String.compare_eq_iff in H23 as <-. by rewrite H12.
    + by rewrite (string_compare_lt_trans s1 s2 s3).
Qed.

Lemma string_leb_false (s1 s2 : string) :
  String.leb s1 s2 = false → String.leb s2 s1 = true.
Proof.
  intros Hf. destruct (String.leb_total s1 s2) as [Ht|Ht]; congruence.
Qed.

#[local] Instance name_le_trans : Transitive name_le.
Proof. intros a b c. unfold name_le. apply string_leb_trans. Qed.

(** ** The stable sort on names *)

Lemma insert_by_name_perm (x : SourceEntry) (l : list SourceEntry) :
  insert_by_name x l ≡ₚ x :: l.
Proof.
  induction l as [|y l IH]; simpl; [done|].
  destruct (String.leb (name x) (name y)); [done|].
  rewrite IH. apply Permutation_swap.
Qed.

Lemma sort_by_name_perm (l : list SourceEntry) : sort_by_name l ≡ₚ l.
Proof.
  induction l as [|x l IH]; simpl; [done|].
  by rewrite insert_by_name_perm, IH.
Qed.

Lemma insert_by_name_sorted (x : SourceEntry) (l : list SourceEntry) :
  StronglySorted name_le l → StronglySorted name_le (insert_by_name x l).
Proof.
  induction 1 as [|y l Hs IH Hy]; simpl.
  - repeat constructor.
  - destruct (String.leb (name x) (name y)) eqn:Hxy.
    + constructor; [by constructor|].
      constructor; [done|].
      eapply Forall_impl; [exact Hy|]. intros z Hz. by trans y.
    + constructor; [done|].
      rewrite insert_by_name_perm. constructor; [|done].
      by apply string_leb_false.
Qed.

Lemma sort_by_name_sorted (l : list SourceEntry) :
  StronglySorted name_le (sort_by_name l).
Proof.
  induction l as [|x l IH]; simpl; [constructor|].
  by apply insert_by_name_sorted.
Qed.

(** ** The record store *)

Lemma is_file_processed_true (d : Database.DatabaseManager) (n : string) :
  Database.is_file_processed d n = true
  ↔ n ∈ Database.pf_filename <$> Database.processed_files d.
Proof. unfold Database.is_file_processed. apply bool_decide_eq_true. Qed.

Lemma is_file_processed_false (d : Database.DatabaseManager) (n : string) :
  Database.is_file_processed d n = false
  ↔ n ∉ Database.pf_filename <$> Database.processed_files d.
Proof. unfold Database.is_file_processed. apply bool_decide_eq_false. Qed.


Lemma list_filter_ext_in {A} (P Q : A → Prop) `{!∀ x, Decision (P x)}
    `{!∀ x, Decision (Q x)} (l : list A) :
  (∀ x, x ∈ l → (P x ↔ Q x)) → filter P l = filter Q l.
Proof.
  induction l as [|a l IH]; intros Hext; [done|].
  rewrite !filter_cons.
  rewrite IH by (intros x Hx; apply Hext; by right).
  assert (P a ↔ Q a) as Ha by (apply Hext; by left).
  repeat case_decide; tauto || done.
Qed.

Lemma unprocessed_filter (d : Database.DatabaseManager) (l : list string) :
  Database.unprocessed d l
  = filter (λ f, Database.is_file_processed d f = false) l.
Proof.
  unfold Database.unprocessed. apply list_filter_ext_in. intros f Hf.
  rewrite is_file_processed_false, elem_of_list_to_set, list_elem_of_filter.
  tauto.
Qed.

Lemma unprocessed_elem (d : Database.DatabaseManager) (l : list string) n :
  n ∈ Database.unprocessed d l
  ↔ Database.is_file_processed d n = false ∧ n ∈ l.
Proof. rewrite unprocessed_filter. by rewrite list_elem_of_filter. Qed.

(** The query runs exactly when its names are no more than the variables
    allowed, and then returns the names without a record. *)
Lemma get_unprocessed_files_runs env (d : Database.DatabaseManager) (l : list string) :
  (length l ≤ max_variable_number env)%nat →
  Database.get_unprocessed_files env d l = inr (Database.unprocessed d l).
Proof.
  intros Hlen. unfold Database.get_unprocessed_files.
  destruct l as [|x l']; [done|].
  rewrite bool_decide_eq_false_2; [done|]. lia.
Qed.

Lemma get_unprocessed_files_raises env (d : Database.DatabaseManager) (l : list string) :
  (max_variable_number env < length l)%nat →
  Database.get_unprocessed_files env d l
  = inl (Database.OperationalError "too many SQL variables").
Proof.
  intros Hlen. unfold Database.get_unprocessed_files.
  destruct l as [|x l']; [simpl in Hlen; lia|].
  by rewrite bool_decide_eq_true_2.
Qed.

Lemma add_processed_file_names env d filename sp tp size cd h i d' :
  Database.add_processed_file env d filename sp tp size cd h = inr (i, d') →
  Database.is_file_processed d filename = false
  ∧ Database.pf_filename <$> Database.processed_files d'
    = (Database.pf_filename <$> Database.processed_files d) ++ [filename]
  ∧ Database.errors d' = Database.errors d.
Proof.
  unfold Database.add_processed_file.
  destruct (insert_fault env filename); [done|].
  destruct (Database.is_file_processed d filename) eqn:Hp; [done|].
  intros [= <- <-]. simpl. by rewrite fmap_app.
Qed.

Lemma add_processed_file_fails env d filename sp tp size cd h :
  Database.is_file_processed d filename = true →
  ∃ e, Database.add_processed_file env d filename sp tp size cd h = inl e.
Proof.
  intros Hp. unfold Database.add_processed_file. rewrite Hp.
  destruct (insert_fault env filename); eauto.
Qed.

(** An error entry that the store takes is appended under the next id; a
    refused one changes nothing but the reading of the clock. *)
Lemma db_log_error_cases env w f t m :
  (log_fault env f = None
   ∧ db_log_error env w f t m
     = (None,
        {| target := target w;
           db := {| Database.processed_files := Database.processed_files (db w);
                    Database.errors :=
                      Database.errors (db w)
                      ++ [{| Database.er_id := Database.errors_seq (db w) + 1;
                             Database.er_timestamp := clock env (ticks w);
                             Database.er_filename := f;
                             Database.er_error_type := t;
                             Database.er_error_message := m |}];
                    Database.processed_seq := Database.processed_seq (db w);
                    Database.errors_seq := Database.errors_seq (db w) + 1 |};
           ticks := S (ticks w) |}))
  ∨ (∃ msg, log_fault env f = Some msg
            ∧ db_log_error env w f t m = (Some (Database.OperationalError msg), tick w)).
Proof.
  unfold db_log_error, datetime_now, Database.log_error. simpl.
  destruct (log_fault env f) as [msg|]; [right; by exists msg|left]. done.
Qed.

Lemma db_log_error_target env w f t m : target (db_log_error env w f t m).2 = target w.
Proof. by destruct (db_log_error_cases env w f t m) as [[_ ->]|(msg & _ & ->)]. Qed.

Lemma db_log_error_processed_files env w f t m :
  Database.processed_files (db (db_log_error env w f t m).2)
  = Database.processed_files (db w).
Proof. by destruct (db_log_error_cases env w f t m) as [[_ ->]|(msg & _ & ->)]. Qed.

(** ** The selection of a batch *)

Lemma select_files_spec bs un src acc :
  (Z.of_nat (length acc) < bs) →
  select_files bs un src acc
  = acc ++ take (Z.to_nat bs - length acc) (filter (λ f, name f ∈ un) src).
Proof.
  revert acc. induction src as [|f src IH]; intros acc Hlt; simpl.
  - by rewrite filter_nil, take_nil, app_nil_r.
  - rewrite filter_cons. case_bool_decide as Hin.
    + rewrite decide_True by done.
      case_bool_decide as Hfull.
      * rewrite length_app in Hfull. simpl in Hfull.
        replace (Z.to_nat bs - length acc)%nat with 1%nat by lia.
        simpl. by rewrite take_0.
      * rewrite length_app in Hfull. simpl in Hfull.
        rewrite IH by (rewrite length_app; simpl; lia).
        rewrite length_app. simpl.
        replace (Z.to_nat bs - length acc)%nat
          with (S (Z.to_nat bs - (length acc + 1)))%nat by lia.
        simpl. by rewrite <- app_assoc.
    + rewrite decide_False by done. by apply IH.
Qed.

Lemma select_files_incl bs un src acc f :
  f ∈ select_files bs un src acc → f ∈ acc ∨ (f ∈ src ∧ name f ∈ un).
Proof.
  revert acc. induction src as [|g src IH]; intros acc; simpl; [auto|].
  case_bool_decide as Hin.
  - case_bool_decide.
    + rewrite elem_of_app, list_elem_of_singleton. intros [?| ->]; auto.
      right. split; [by left|done].
    + intros [Hf|[Hf ?]]%IH.
      * apply elem_of_app in Hf as [?|Hf]; [by left|].
        apply list_elem_of_singleton in Hf as ->. right. split; [by left|done].
      * right. split; [by right|done].
  - intros [?|[? ?]]%IH; [by left|]. right. split; [by right|done].
Qed.


(** ** One file of the batch *)

(** [_copy_file] succeeds only on a free target name, and in real mode
    only when the copy wrote exactly the bytes of the source.  A failure
    comes with a message; it leaves the target directory as it was, or,
    in real mode, with the file that the failed copy left under the free
    target name. *)
Lemma _copy_file_spec fp env (tgt : gmap string TEntry) f :
  ∃ ok m tgt', _copy_file fp env tgt f (name f) = ((ok, m), tgt')
    ∧ ((ok = false ∧ is_Some m
        ∧ (tgt' = tgt
           ∨ (dry_run fp = false ∧ tgt !! name f = None
              ∧ ∃ k, tgt' = <[name f := TFile k]> tgt ∧ leaves_file env f k)))
       ∨ (ok = true ∧ m = None ∧ tgt !! name f = None
          ∧ if dry_run fp then tgt' = tgt
            else copy2 env f = Written (st_size f)
                 ∧ tgt' = <[name f := TFile (st_size f)]> tgt)).
Proof.
  unfold _copy_file. destruct (tgt !! name f) eqn:Hn.
  { do 3 eexists. split; [done|]. left. split_and!; [done|by eexists|by left]. }
  destruct (dry_run fp) eqn:Hdry.
  { do 3 eexists. split; [done|]. by right. }
  destruct (copy2 env f) as [k| |e msg [k|]] eqn:Hc.
  - case_bool_decide as Hk.
    + destruct (unlink_fault env (name f)) as [[e msg]|] eqn:Hu.
      * do 3 eexists. split; [done|]. left. split_and!; [done|by eexists|].
        right. split_and!; [done..|]. exists k. split; [done|].
        right. split; [done|]. by rewrite Hu.
      * do 3 eexists. split; [done|]. left. split_and!; [done|by eexists|].
        left. by rewrite delete_insert_eq, delete_id.
    + do 3 eexists. split; [done|]. right.
      assert (k = st_size f) as -> by (destruct (decide (k = st_size f)); [done|];
        destruct Hk; congruence).
      done.
  - do 3 eexists. split; [done|]. left. split_and!; [done|by eexists|by left].
  - do 3 eexists. split; [done|]. left. split_and!; [done|by eexists|].
    right. split_and!; [done..|]. exists k. split; [done|]. left. eauto.
  - do 3 eexists. split; [done|]. left. split_and!; [done|by eexists|by left].
Qed.

Lemma with_target_same w : with_target w (target w) = w.
Proof. by destruct w. Qed.

Lemma process_file_skip fp env s w f :
  Database.is_file_processed (db w) (name f) = true →
  process_file fp env (s, w) f = (None, (count_skipped s (name f), w)).
Proof. intros Hp. unfold process_file. by rewrite Hp. Qed.

(** What the loop does with a file whose copy failed: it logs the error
    and counts it, in simulation mode it only counts it; when the store
    refuses the error entry its exception leaves the loop. *)
Lemma process_file_copy_failed fp env s w f msg tgt' :
  Database.is_file_processed (db w) (name f) = false →
  _copy_file fp env (target w) f (name f) = ((false, Some msg), tgt') →
  process_file fp env (s, w) f
  = if dry_run fp then (None, (count_error s (name f) msg, with_target w tgt'))
    else match log_fault env (name f) with
         | None =>
             (None, (count_error s (name f) msg,
                     (db_log_error env (with_target w tgt') (name f) "COPY_ERROR" msg).2))
         | Some m =>
             (Some (StoreExn (Database.OperationalError m)),
              (s, tick (with_target w tgt')))
         end.
Proof.
  intros Hq Hc. unfold process_file. rewrite Hq, Hc. cbn [negb default from_option id].
  destruct (dry_run fp); [done|].
  destruct (db_log_error_cases env (with_target w tgt') (name f) "COPY_ERROR" msg)
    as [[Hl ->]|(m & Hl & ->)]; by rewrite Hl.
Qed.

Lemma _copy_file_target_exists fp env (w : World) f e :
  target w !! name f = Some e →
  _copy_file fp env (target w) f (name f)
  = ((false, Some ("File already exists in target: " +:+ target_path fp (name f))),
     target w).
Proof. intros He. unfold _copy_file. by rewrite He. Qed.

Lemma process_file_dry_ok fp env s w f :
  dry_run fp = true →
  Database.is_file_processed (db w) (name f) = false →
  target w !! name f = None →
  process_file fp env (s, w) f = (None, (count_processed s (name f) (st_size f), w)).
Proof.
  intros Hdry Hq Hn. unfold process_file, _copy_file. rewrite Hq, Hn, Hdry. simpl.
  rewrite ?Hdry. by rewrite with_target_same.
Qed.

Lemma add_processed_file_row env d filename sp tp size cd h :
  insert_fault env filename = None →
  Database.is_file_processed d filename = false →
  Database.add_processed_file env d filename sp tp size cd h
  = inr (Database.processed_seq d + 1,
         {| Database.processed_files :=
              Database.processed_files d
              ++ [{| Database.pf_id := Database.processed_seq d + 1;
                     Database.pf_filename := filename;
                     Database.pf_source_path := sp; Database.pf_target_path := tp;
                     Database.pf_size := size; Database.pf_copy_date := cd;
                     Database.pf_hash := h |}];
            Database.errors := Database.errors d;
            Database.processed_seq := Database.processed_seq d + 1;
            Database.errors_seq := Database.errors_seq d |}).
Proof.
  intros Hi Hq. unfold Database.add_processed_file. by rewrite Hi, Hq.
Qed.

Lemma add_processed_file_fault env d filename sp tp size cd h msg :
  insert_fault env filename = Some msg →
  Database.add_processed_file env d filename sp tp size cd h
  = inl (Database.OperationalError msg).
Proof. intros Hi. unfold Database.add_processed_file. by rewrite Hi. Qed.

(** The world after the record of [f] has been inserted at the clock
    reading of [w]. *)
Lemma process_file_recorded fp env s w f :
  dry_run fp = false →
  Database.is_file_processed (db w) (name f) = false →
  target w !! name f = None →
  copy2 env f = Written (st_size f) → insert_fault env (name f) = None →
  process_file fp env (s, w) f
  = (None,
     (count_processed s (name f) (st_size f),
      {| target := <[name f := TFile (st_size f)]> (target w);
         db := {| Database.processed_files :=
                    Database.processed_files (db w)
                    ++ [record_of fp env f (Database.processed_seq (db w) + 1)
                          (clock env (ticks w))];
                  Database.errors := Database.errors (db w);
                  Database.processed_seq := Database.processed_seq (db w) + 1;
                  Database.errors_seq := Database.errors_seq (db w) |};
         ticks := S (ticks w) |})).
Proof.
  intros Hdry Hq Hn Hc Hi. unfold process_file, _copy_file.
  rewrite Hq, Hn, Hdry, Hc. rewrite bool_decide_eq_false_2 by (intros ?; done).
  cbn [negb]. rewrite ?Hdry. unfold datetime_now. cbn [db tick with_target ticks].
  rewrite add_processed_file_row by done. unfold record_of. cbn [negb].
  by rewrite andb_true_r.
Qed.

(** The handler of a refused insert: the [unlink] of the copy and the
    logging of the error, each of which may raise. *)
Lemma process_file_insert_fault fp env s w f im :
  dry_run fp = false →
  Database.is_file_processed (db w) (name f) = false →
  target w !! name f = None →
  copy2 env f = Written (st_size f) → insert_fault env (name f) = Some im →
  process_file fp env (s, w) f
  = match unlink_fault env (name f) with
    | Some (k, um) =>
        (Some (UnlinkExn k um),
         (s, tick (with_target w (<[name f := TFile (st_size f)]> (target w)))))
    | None =>
        match log_fault env (name f) with
        | None =>
            (None, (count_error s (name f) im,
                    (db_log_error env (tick w) (name f) "DB_ERROR" im).2))
        | Some lm =>
            (Some (StoreExn (Database.OperationalError lm)), (s, tick (tick w)))
        end
    end.
Proof.
  intros Hdry Hq Hn Hc Hi. unfold process_file, _copy_file.
  rewrite Hq, Hn, Hdry, Hc. rewrite bool_decide_eq_false_2 by (intros ?; done).
  cbn [negb]. rewrite ?Hdry. unfold datetime_now. cbn [db tick with_target ticks target].
  rewrite (add_processed_file_fault _ _ _ _ _ _ _ _ im) by done.
  rewrite lookup_insert_eq.
  destruct (unlink_fault env (name f)) as [[k um]|]; [done|].
  rewrite delete_insert_eq, delete_id by done. cbn [Database.str].
  match goal with
  | |- context [db_log_error env ?w0 ?n ?t ?m] =>
      destruct (db_log_error_cases env w0 n t m) as [[Hl ->]|(lm & Hl & ->)];
      rewrite Hl
  end; [|done].
  unfold db_log_error, datetime_now, Database.log_error. cbn. by rewrite Hl.
Qed.

(** Every way a step can go. *)
Lemma process_file_cases fp env s w f :
  let n := name f in
  let r := process_file fp env (s, w) f in
  (Database.is_file_processed (db w) n = true ∧ r = (None, (count_skipped s n, w)))
  ∨ (Database.is_file_processed (db w) n = false
     ∧ ((∃ msg tgt',
           _copy_file fp env (target w) f n = ((false, Some msg), tgt')
           ∧ (tgt' = target w
              ∨ (dry_run fp = false ∧ target w !! n = None
                 ∧ ∃ k, tgt' = <[n := TFile k]> (target w) ∧ leaves_file env f k))
           ∧ ((dry_run fp = true ∧ tgt' = target w
               ∧ r = (None, (count_error s n msg, w)))
              ∨ (dry_run fp = false ∧ log_fault env n = None
                 ∧ r = (None, (count_error s n msg,
                               (db_log_error env (with_target w tgt') n "COPY_ERROR" msg).2)))
              ∨ (dry_run fp = false
                 ∧ ∃ m, log_fault env n = Some m
                        ∧ r = (Some (StoreExn (Database.OperationalError m)),
                               (s, tick (with_target w tgt'))))))
        ∨ (dry_run fp = true ∧ target w !! n = None
           ∧ r = (None, (count_processed s n (st_size f), w)))
        ∨ (dry_run fp = false ∧ target w !! n = None
           ∧ copy2 env f = Written (st_size f)
           ∧ ((insert_fault env n = None
               ∧ r = (None,
                      (count_processed s n (st_size f),
                       {| target := <[n := TFile (st_size f)]> (target w);
                          db := {| Database.processed_files :=
                                     Database.processed_files (db w)
                                     ++ [record_of fp env f
                                           (Database.processed_seq (db w) + 1)
                                           (clock env (ticks w))];
                                   Database.errors := Database.errors (db w);
                                   Database.processed_seq :=
                                     Database.processed_seq (db w) + 1;
                                   Database.errors_seq := Database.errors_seq (db w) |};
                          ticks := S (ticks w) |})))
              ∨ (∃ im, insert_fault env n = Some im
                   ∧ ((∃ k um, unlink_fault env n = Some (k, um)
                         ∧ r = (Some (UnlinkExn k um),
                                (s, tick (with_target w
                                            (<[n := TFile (st_size f)]> (target w))))))
                      ∨ (unlink_fault env n = None ∧ log_fault env n = None
                         ∧ r = (None, (count_error s n im,
                                       (db_log_error env (tick w) n "DB_ERROR" im).2)))
                      ∨ (unlink_fault env n = None
                         ∧ ∃ lm, log_fault env n = Some lm
                                 ∧ r = (Some (StoreExn (Database.OperationalError lm)),
                                        (s, tick (tick w)))))))))).
Proof.
  intros n r. unfold r, n. clear r n.
  destruct (Database.is_file_processed (db w) (name f)) eqn:Hq.
  { left. split; [done|]. by apply process_file_skip. }
  right. split; [done|].
  destruct (_copy_file_spec fp env (target w) f)
    as (ok & m & tgt' & Hcopy & [(-> & [msg ->] & Htgt)|(-> & -> & Hn & Hok)]).
  - left. exists msg, tgt'. split; [done|]. split; [done|].
    rewrite (process_file_copy_failed fp env s w f msg tgt') by done.
    destruct (dry_run fp) eqn:Hdry.
    + left. destruct Htgt as [->|(? & _)]; [|done].
      by rewrite with_target_same.
    + right. destruct (log_fault env (name f)) as [lm|] eqn:Hl; [right|left]; eauto.
  - right. destruct (dry_run fp) eqn:Hdry.
    + left. split_and!; [done..|]. by apply process_file_dry_ok.
    + right. destruct Hok as [Hc ->]. split_and!; [done..|].
      destruct (insert_fault env (name f)) as [im|] eqn:Hi.
      * right. exists im. split; [done|].
        rewrite (process_file_insert_fault fp env s w f im) by done.
        destruct (unlink_fault env (name f)) as [[k um]|]; [left; eauto|right].
        destruct (log_fault env (name f)) as [lm|]; [right|left]; eauto.
      * left. split; [done|]. by apply process_file_recorded.
Qed.

(** The nine ways of [process_file_cases], named. *)
Ltac step_cases fp env s w f :=
  let Hq := fresh "Hq" in
  let Hr := fresh "Hr" in
  let msg := fresh "msg" in
  let tgt' := fresh "tgt'" in
  let Hcopy := fresh "Hcopy" in
  let Htgt := fresh "Htgt" in
  let Hdry := fresh "Hdry" in
  let Hl := fresh "Hl" in
  let Hn := fresh "Hn" in
  let Hc := fresh "Hc" in
  let Hi := fresh "Hi" in
  let Hu := fresh "Hu" in
  let m := fresh "m" in
  let im := fresh "im" in
  let k := fresh "k" in
  let um := fresh "um" in
  let lm := fresh "lm" in
  destruct (process_file_cases fp env s w f)
    as [[Hq Hr]
       |[Hq [(msg & tgt' & Hcopy & Htgt
              & [(Hdry & -> & Hr)|[(Hdry & Hl & Hr)|(Hdry & m & Hl & Hr)]])
            |[(Hdry & Hn & Hr)
             |(Hdry & Hn & Hc
               & [[Hi Hr]
                 |(im & Hi & [(k & um & Hu & Hr)
                             |[(Hu & Hl & Hr)|(Hu & lm & Hl & Hr)]])])]]]];
  rewrite Hr in *; clear Hr.

Lemma process_file_mentioned fp env s w f :
  (process_file fp env (s, w) f).1 = None →
  mentioned (process_file fp env (s, w) f).2.1 ≡ₚ mentioned s ++ [name f].
Proof.
  unfold mentioned. step_cases fp env s w f; cbn [fst snd]; try done; intros _;
    cbn [files_processed files_skipped files_errors count_skipped count_error
         count_processed]; rewrite ?fmap_app; simpl; solve_Permutation.
Qed.

(** An exception leaves the statistics of the loop as they were. *)
Lemma process_file_raises fp env s w f e :
  (process_file fp env (s, w) f).1 = Some e →
  (process_file fp env (s, w) f).2.1 = s
  ∧ dry_run fp = false
  ∧ Database.is_file_processed (db w) (name f) = false
  ∧ ((∃ m, e = StoreExn (Database.OperationalError m) ∧ log_fault env (name f) = Some m)
     ∨ (∃ k um im, e = UnlinkExn k um ∧ unlink_fault env (name f) = Some (k, um)
                   ∧ insert_fault env (name f) = Some im
                   ∧ copy2 env f = Written (st_size f))).
Proof.
  step_cases fp env s w f; cbn [fst snd]; try done; intros [= <-];
    split_and!; try done; [left|right|left]; eauto 10.
Qed.

Lemma process_file_counts fp env s w f :
  counts_agree s → counts_agree (process_file fp env (s, w) f).2.1.
Proof.
  unfold counts_agree. intros (Hp & Hs & He).
  step_cases fp env s w f; cbn [fst snd]; try done;
    cbn [processed skipped errors files_processed files_skipped files_errors
         count_skipped count_error count_processed];
    rewrite ?length_app; simpl; lia.
Qed.

(** Simulation mode raises nothing and changes nothing. *)
Lemma process_file_dry fp env s w f :
  dry_run fp = true →
  (process_file fp env (s, w) f).1 = None ∧ (process_file fp env (s, w) f).2.2 = w.
Proof.
  intros Hd. step_cases fp env s w f; cbn [fst snd]; try done; congruence.
Qed.

Lemma db_log_error_ticks env w f t m :
  (ticks w ≤ ticks (db_log_error env w f t m).2)%nat.
Proof.
  destruct (db_log_error_cases env w f t m) as [[_ ->]|(lm & _ & ->)]; simpl; lia.
Qed.

Lemma process_file_ticks fp env s w f :
  (ticks w ≤ ticks (process_file fp env (s, w) f).2.2)%nat.
Proof.
  step_cases fp env s w f; cbn [fst snd]; try done; cbn [ticks tick with_target];
    try lia.
  - etrans; [|apply db_log_error_ticks]. done.
  - etrans; [|apply db_log_error_ticks]. simpl. lia.
Qed.

(** A step adds at most one record, for the name of its file, and only
    after a copy that wrote as many bytes as the source has. *)
Lemma process_file_names fp env s w f :
  pf_names (db (process_file fp env (s, w) f).2.2) = pf_names (db w)
  ∨ (Database.is_file_processed (db w) (name f) = false
     ∧ dry_run fp = false
     ∧ target w !! name f = None
     ∧ copy2 env f = Written (st_size f)
     ∧ pf_names (db (process_file fp env (s, w) f).2.2)
       = pf_names (db w) ++ [name f]).
Proof.
  step_cases fp env s w f; cbn [fst snd]; try (by left).
  - left. by rewrite db_log_error_processed_files.
  - right. split_and!; [done..|]. simpl. by rewrite fmap_app.
  - left. by rewrite db_log_error_processed_files.
Qed.

(** ** The loop over the batch *)

Lemma process_files_cons fp env acc f l :
  process_files fp env acc (f :: l)
  = match (process_file fp env acc f).1 with
    | Some e => process_file fp env acc f
    | None => process_files fp env (process_file fp env acc f).2 l
    end.
Proof.
  cbn [process_files]. by destruct (process_file fp env acc f) as [[e|] acc'].
Qed.

(** A relation that every step respects holds between the start and the
    end of the loop. *)
Lemma process_files_rel fp env (R : relation (Stats * World)) l :
  Reflexive R → Transitive R →
  (∀ acc f, f ∈ l → R acc (process_file fp env acc f).2) →
  ∀ acc, R acc (process_files fp env acc l).2.
Proof.
  intros Hrefl Htrans. induction l as [|f l IH]; intros Hstep acc; [done|].
  rewrite process_files_cons.
  destruct (process_file fp env acc f).1 eqn:Hflow.
  - apply Hstep. by left.
  - trans (process_file fp env acc f).2; [apply Hstep; by left|].
    apply IH. intros acc' g Hg. apply Hstep. by right.
Qed.

Lemma process_files_mentioned fp env batch s w :
  (process_files fp env (s, w) batch).1 = None →
  mentioned (process_files fp env (s, w) batch).2.1
  ≡ₚ mentioned s ++ (name <$> batch).
Proof.
  revert s w. induction batch as [|f batch IH]; intros s w.
  { intros _. simpl. by rewrite app_nil_r. }
  rewrite process_files_cons.
  pose proof (process_file_mentioned fp env s w f) as Hm.
  destruct (process_file fp env (s, w) f) as [[e|] [s1 w1]]; cbn [fst snd] in *;
    [done|].
  intros Hflow. rewrite IH by done. rewrite Hm by done.
  by rewrite <- app_assoc.
Qed.

Lemma process_files_counts fp env batch s w :
  counts_agree s → counts_agree (process_files fp env (s, w) batch).2.1.
Proof.
  intros Hs.
  refine (process_files_rel fp env (λ a b, counts_agree a.1 → counts_agree b.1)
            batch _ _ _ (s, w) Hs).
  - by intros ?.
  - intros a b c. tauto.
  - intros [s0 w0] f _. apply process_file_counts.
Qed.

Lemma process_files_dry fp env batch s w :
  dry_run fp = true →
  (process_files fp env (s, w) batch).1 = None
  ∧ (process_files fp env (s, w) batch).2.2 = w.
Proof.
  intros Hdry. revert s w. induction batch as [|f batch IH]; intros s w; [done|].
  rewrite process_files_cons.
  destruct (process_file_dry fp env s w f Hdry) as [Hflow Hw].
  rewrite Hflow. destruct (process_file fp env (s, w) f) as [e [s1 w1]].
  cbn [fst snd] in *. subst w1. apply IH.
Qed.

Lemma process_files_ticks fp env batch s w :
  (ticks w ≤ ticks (process_files fp env (s, w) batch).2.2)%nat.
Proof.
  refine (process_files_rel fp env (λ a b, (ticks a.2 ≤ ticks b.2)%nat)
            batch _ _ _ (s, w)).
  - by intros ?.
  - intros a b c. simpl. lia.
  - intros [s0 w0] f _. apply process_file_ticks.
Qed.

Lemma process_files_nodup fp env batch s w :
  NoDup (pf_names (db w)) →
  NoDup (pf_names (db (process_files fp env (s, w) batch).2.2)).
Proof.
  refine (process_files_rel fp env
            (λ a b, NoDup (pf_names (db a.2)) → NoDup (pf_names (db b.2)))
            batch _ _ _ (s, w)); [by intros ?|intros a b c; tauto|].
  intros [s0 w0] f _ Hnd. cbn [snd] in *.
  destruct (process_file_names fp env s0 w0 f) as [->|(Hq & _ & _ & _ & ->)]; [done|].
  apply NoDup_app. split_and!; [done| |apply NoDup_singleton].
  intros x Hx ->%list_elem_of_singleton.
  by apply is_file_processed_false in Hq.
Qed.

(** Every record the loop adds belongs to a file of the batch whose copy
    wrote as many bytes as the source has, in real mode. *)
Lemma process_files_recorded fp env batch s w n :
  n ∈ pf_names (db (process_files fp env (s, w) batch).2.2) →
  n ∈ pf_names (db w)
  ∨ (dry_run fp = false
     ∧ ∃ f, f ∈ batch ∧ name f = n ∧ copy2 env f = Written (st_size f)).
Proof.
  revert s w. induction batch as [|f batch IH]; intros s w; [by left|].
  rewrite process_files_cons.
  pose proof (process_file_names fp env s w f) as Hn.
  assert (n ∈ pf_names (db (process_file fp env (s, w) f).2.2) →
          n ∈ pf_names (db w)
          ∨ (dry_run fp = false
             ∧ ∃ g, g ∈ f :: batch ∧ name g = n ∧ copy2 env g = Written (st_size g)))
    as Hstep.
  { destruct Hn as [->|(_ & Hd & _ & Hc & ->)]; [by left|].
    intros [?|Hin]%elem_of_app; [by left|].
    apply list_elem_of_singleton in Hin as ->. right. split; [done|].
    exists f. split_and!; [by left|done|done]. }
  destruct (process_file fp env (s, w) f) as [[e|] [s1 w1]]; cbn [fst snd] in *;
    [done|].
  intros [Hin|(Hd & g & Hg & Hgn & Hc)]%IH; [auto|].
  right. split; [done|]. exists g. split_and!; [by right|done|done].
Qed.

(** ** The shape of [process_batch] *)

Lemma files_to_process_nil_source `{Fnmatch} fp src d :
  get_source_files fp src = [] → files_to_process fp src d = [].
Proof. unfold files_to_process. by intros ->. Qed.

(** A call raises at once when the query has too many variables;
    otherwise it returns the zeroed statistics when nothing is selected,
    and runs the loop over the selected files. *)
Lemma process_batch_unfold `{Fnmatch} fp env src w :
  process_batch fp env src w
  = if bool_decide (max_variable_number env < length (get_source_files fp src))%nat
    then (Raises (StoreExn (Database.OperationalError "too many SQL variables")), tick w)
    else
      match files_to_process fp src (db w) with
      | [] => (Returned stats0, tick w)
      | batch =>
          let r := process_files fp env (stats0, tick w) batch in
          match r.1 with
          | Some e => (Raises e, r.2.2)
          | None =>
              (Returned (set_duration r.2.1 (clock env (ticks r.2.2) - clock env (ticks w))),
               tick r.2.2)
          end
      end.
Proof.
  unfold process_batch, datetime_now, files_to_process.
  destruct (get_source_files fp src) as [|x l] eqn:Hsrc.
  { rewrite bool_decide_eq_false_2 by (simpl; lia). done. }
  change (db (tick w)) with (db w).
  unfold Database.get_unprocessed_files. rewrite fmap_cons, <- fmap_cons.
  destruct (name <$> x :: l) as [|y names] eqn:Hnames; [done|].
  rewrite <- Hnames, length_fmap. case_bool_decide; [done|].
  destruct (select_files _ _ _ _); [done|].
  by destruct (process_files _ _ _ _) as [[e|] [s1 w1]].
Qed.

(** What a call that returns has done. *)
Lemma process_batch_returned `{Fnmatch} fp env src w result :
  (process_batch fp env src w).1 = Returned result →
  (length (get_source_files fp src) ≤ max_variable_number env)%nat
  ∧ let batch := files_to_process fp src (db w) in
    let r := process_files fp env (stats0, tick w) batch in
    (batch = [] ∧ result = stats0 ∧ (process_batch fp env src w).2 = tick w)
    ∨ (batch ≠ [] ∧ r.1 = None
       ∧ result = set_duration r.2.1 (clock env (ticks r.2.2) - clock env (ticks w))
       ∧ (process_batch fp env src w).2 = tick r.2.2).
Proof.
  rewrite process_batch_unfold. case_bool_decide as Hlim; [done|].
  intros Hret. split; [lia|]. revert Hret.
  destruct (files_to_process fp src (db w)) as [|f batch] eqn:Hbatch.
  { cbn [fst snd]. intros [= <-]. by left. }
  cbv zeta. destruct (process_files _ _ _ _).1 eqn:Hflow; cbn [fst snd]; [done|].
  intros [= <-]. right. done.
Qed.

(** The world after a call, whether it returns or raises: that of the
    loop over the selected files, or over none, up to the reading of the
    clock at the end. *)
Lemma process_batch_world `{Fnmatch} fp env src w :
  ∃ l, (l = [] ∨ l = files_to_process fp src (db w))
       ∧ let r := process_files fp env (stats0, tick w) l in
         target (process_batch fp env src w).2 = target r.2.2
         ∧ db (process_batch fp env src w).2 = db r.2.2
         ∧ (ticks r.2.2 ≤ ticks (process_batch fp env src w).2)%nat.
Proof.
  rewrite process_batch_unfold. case_bool_decide.
  { exists []. split; [by left|]. done. }
  exists (files_to_process fp src (db w)). split; [by right|].
  destruct (files_to_process fp src (db w)) as [|f batch]; [done|].
  cbv zeta. destruct (process_files _ _ _ _).1; cbn [fst snd]; split_and!; try done.
  simpl. lia.
Qed.

(** A call returns whenever the query is within the limit and no step
    raises; in simulation mode the query is all that can raise. *)
Lemma process_batch_returns `{Fnmatch} fp env src w :
  (length (get_source_files fp src) ≤ max_variable_number env)%nat →
  (process_files fp env (stats0, tick w) (files_to_process fp src (db w))).1 = None →
  ∃ result, (process_batch fp env src w).1 = Returned result.
Proof.
  intros Hlim Hflow. rewrite process_batch_unfold.
  rewrite bool_decide_eq_false_2 by lia.
  destruct (files_to_process fp src (db w)) as [|f batch]; [by eexists|].
  cbv zeta. rewrite Hflow. by eexists.
Qed.

Lemma files_to_process_elem `{Fnmatch} fp src d f :
  f ∈ files_to_process fp src d →
  f ∈ get_source_files fp src ∧ Database.is_file_processed d (name f) = false.
Proof.
  unfold files_to_process. intros [Hf|[Hf Hn]]%select_files_incl.
  { by apply elem_of_nil in Hf. }
  split; [done|]. by apply unprocessed_elem in Hn as [? _].
Qed.

Lemma get_source_files_elem `{Fnmatch} fp src f :
  f ∈ get_source_files fp src
  ↔ f ∈ glob fp src ∧ is_file f = true ∧ _is_excluded fp f = false.
Proof.
  unfold get_source_files. rewrite sort_by_name_perm, list_elem_of_filter.
  rewrite andb_True, negb_True, Is_true_true, Is_true_false. tauto.
Qed.

(** ** What a result mentions *)

Lemma process_batch_mentioned `{Fnmatch} fp env src w result :
  (process_batch fp env src w).1 = Returned result →
  mentioned result ≡ₚ name <$> files_to_process fp src (db w).
Proof.
  intros [_ [(-> & -> & _)|(_ & Hflow & -> & _)]]%process_batch_returned; [done|].
  change (mentioned (set_duration ?s _)) with (mentioned s).
  by rewrite process_files_mentioned.
Qed.

Lemma process_batch_counts `{Fnmatch} fp env src w result :
  (process_batch fp env src w).1 = Returned result → counts_agree result.
Proof.
  intros [_ [(_ & -> & _)|(_ & Hflow & -> & _)]]%process_batch_returned.
  { by repeat split. }
  assert (counts_agree stats0) as H0 by by repeat split.
  pose proof (process_files_counts fp env (files_to_process fp src (db w)) stats0
                (tick w) H0) as (? & ? & ?).
  by repeat split.
Qed.

Lemma is_excluded_true `{Fnmatch} fp f :
  _is_excluded fp f = true
  ↔ ∃ p, p ∈ exclude_patterns fp ∧ fnmatch (name f) p = true.
Proof.
  unfold _is_excluded. rewrite existsb_exists.
  by setoid_rewrite <- list_elem_of_In.
Qed.

(** C7, amended: a call that selected at least one file and returns,
    returns a result whose duration is the last clock reading of the call
    minus the first; a call that finds no source file, or only processed
    ones, returns the zeroed statistics, which carry no duration.  A call
    returns whenever the store runs its query and no statement of the loop
    raises. *)
Theorem process_batch_duration `{Fnmatch} fp env src w :
  let r := process_batch fp env src w in
  (∀ result, r.1 = Returned result →
     match files_to_process fp src (db w) with
     | [] => result = stats0 ∧ duration result = None
     | _ :: _ =>
         duration result = Some (clock env (Nat.pred (ticks r.2)) - clock env (ticks w))
         ∧ (ticks w < Nat.pred (ticks r.2))%nat
     end)
  ∧ (within_variable_limit fp src env → files_to_process fp src (db w) = [] →
     r.1 = Returned stats0 ∧ duration stats0 = None)
  ∧ (within_variable_limit fp src env →
     (process_files fp env (stats0, tick w) (files_to_process fp src (db w))).1 = None →
     ∃ result, r.1 = Returned result).
Proof.
  intros r. unfold r. split_and!.
  - intros result Hret.
    apply process_batch_returned in Hret
      as [_ [(-> & -> & _)|(Hne & Hflow & -> & ->)]]; [done|].
    destruct (files_to_process fp src (db w)) as [|f batch] eqn:Hbatch; [done|].
    cbn [duration set_duration tick ticks Nat.pred]. split; [done|].
    pose proof (process_files_ticks fp env (f :: batch) stats0 (tick w)) as Hmono.
    cbn [tick ticks] in Hmono. lia.
  - intros Hlim Hnil. rewrite process_batch_unfold, Hnil.
    rewrite bool_decide_eq_false_2; [done|]. unfold within_variable_limit in Hlim. lia.
  - apply process_batch_returns.
Qed.

Lemma process_batch_duration_witness :
  ∃ result,
    (process_batch (H:=glob_star) (processor 10 false) env_ok src_abc world0).1
    = Returned result
    ∧ duration result = Some 3000000.
Proof.
  eexists. split; [vm_compute; reflexivity|].
  destruct (process_batch_duration (H:=glob_star) (processor 10 false) env_ok
              src_abc world0) as [Hd _].
  specialize (Hd _ eq_refl). vm_compute in Hd. destruct Hd as [Hd _]. exact Hd.
Defined.

(** C7 as stated fails: on an empty source directory, and when every file
    is already recorded, the result has no duration. *)
Lemma process_batch_duration_counterexample :
  (∃ result,
     (process_batch (H:=glob_star) (processor 10 false) env_ok [] world0).1
     = Returned result ∧ duration result = None)
  ∧ let w := (process_batch (H:=glob_star) (processor 10 false) env_ok src_abc world0).2 in
    ∃ result,
      (process_batch (H:=glob_star) (processor 10 false) env_ok src_abc w).1
      = Returned result ∧ duration result = None.
Proof. split; eexists; split; vm_compute; reflexivity. Qed.

(** ** Ordering of the source files and of the batch *)

Lemma string_leb_refl (s : string) : String.leb s s = true.
Proof.
  unfold String.leb. replace (String.compare s s) with Eq; [done|].
  induction s as [|c s IH]; simpl; [done|]. by rewrite ascii_compare_refl.
Qed.

Lemma StronglySorted_filter {A} (R : relation A) (P : A → Prop)
    `{!∀ x, Decision (P x)} (l : list A) :
  StronglySorted R l → StronglySorted R (filter P l).
Proof.
  induction 1 as [|x l Hs IH Hx]; [constructor|].
  rewrite filter_cons. case_decide; [|done].
  constructor; [done|]. apply Forall_forall. intros y [_ Hy]%list_elem_of_filter.
  by eapply Forall_forall in Hx.
Qed.

Lemma get_source_files_sorted `{Fnmatch} fp src :
  StronglySorted name_le (get_source_files fp src).
Proof. apply sort_by_name_sorted. Qed.

Lemma files_to_process_spec `{Fnmatch} fp src d :
  0 < batch_size fp →
  files_to_process fp src d
  = take (Z.to_nat (batch_size fp))
      (filter (λ f, Database.is_file_processed d (name f) = false)
              (get_source_files fp src)).
Proof.
  intros Hbs. unfold files_to_process.
  rewrite select_files_spec by (simpl; lia).
  simpl. rewrite Nat.sub_0_r. f_equal.
  apply list_filter_ext_in. intros f Hf.
  rewrite unprocessed_elem. split; [tauto|].
  intros Hq. split; [done|]. by apply list_elem_of_fmap_2.
Qed.

(** ** What a step and the loop may touch *)

(** A step touches no other target name than that of its file. *)
Lemma process_file_target_frame fp env s w f k :
  k ≠ name f → target (process_file fp env (s, w) f).2.2 !! k = target w !! k.
Proof.
  intros Hk.
  assert (∀ tgt', tgt' = target w
                  ∨ (dry_run fp = false ∧ target w !! name f = None
                     ∧ ∃ z, tgt' = <[name f := TFile z]> (target w) ∧ leaves_file env f z) →
                  tgt' !! k = target w !! k) as Hleft.
  { intros tgt' [->|(_ & _ & z & -> & _)]; [done|]. by rewrite lookup_insert_ne. }
  step_cases fp env s w f; cbn [fst snd]; try done;
    rewrite ?db_log_error_target; cbn [target tick with_target];
    rewrite ?lookup_insert_ne by done; auto.
Qed.

Lemma process_files_target_frame fp env l s w k :
  k ∉ name <$> l → target (process_files fp env (s, w) l).2.2 !! k = target w !! k.
Proof.
  revert s w. induction l as [|f l IH]; intros s w Hk; [done|].
  rewrite fmap_cons, not_elem_of_cons in Hk. destruct Hk as [Hkf Hk].
  rewrite process_files_cons.
  pose proof (process_file_target_frame fp env s w f k Hkf) as Hstep.
  destruct (process_file fp env (s, w) f) as [[e|] [s1 w1]]; cbn [fst snd] in *;
    [done|].
  by rewrite IH.
Qed.

(** An entry of the target directory is never removed or replaced. *)
Lemma process_file_target_keeps fp env s w f k e :
  target w !! k = Some e → target (process_file fp env (s, w) f).2.2 !! k = Some e.
Proof.
  intros Hk. destruct (decide (k = name f)) as [->|Hne];
    [|by rewrite process_file_target_frame].
  step_cases fp env s w f; cbn [fst snd]; try done;
    rewrite ?db_log_error_target; cbn [target tick with_target]; try congruence.
  - destruct Htgt as [->|(_ & ? & _)]; [done|congruence].
  - destruct Htgt as [->|(_ & ? & _)]; [done|congruence].
Qed.

Lemma process_files_target_keeps fp env l s w k e :
  target w !! k = Some e → target (process_files fp env (s, w) l).2.2 !! k = Some e.
Proof.
  refine (process_files_rel fp env
            (λ a b, target a.2 !! k = Some e → target b.2 !! k = Some e)
            l _ _ _ (s, w)); [by intros ?|intros a b c; tauto|].
  intros [s0 w0] f _. apply process_file_target_keeps.
Qed.

(** ** The loop when nothing fails *)

(** In real mode, when every copy is whole and the store accepts every
    insert, the loop over unprocessed files with distinct names and free
    target names raises nothing, and copies, records and reports them
    all, in order. *)
Lemma process_files_faithful fp env l s w :
  dry_run fp = false → faithful env → NoDup (name <$> l) →
  (∀ f, f ∈ l → Database.is_file_processed (db w) (name f) = false
                ∧ target w !! name f = None) →
  let r := process_files fp env (s, w) l in
  r.1 = None
  ∧ files_processed r.2.1 = files_processed s ++ (name <$> l)
  ∧ processed r.2.1 = processed s + Z.of_nat (length l)
  ∧ skipped r.2.1 = skipped s ∧ errors r.2.1 = errors s
  ∧ pf_names (db r.2.2) = pf_names (db w) ++ (name <$> l)
  ∧ Database.errors (db r.2.2) = Database.errors (db w)
  ∧ (∀ f, f ∈ l → target r.2.2 !! name f = Some (TFile (st_size f)))
  ∧ (∀ k, k ∉ name <$> l → target r.2.2 !! k = target w !! k).
Proof.
  intros Hdry Hfaith. revert s w.
  induction l as [|f l IH]; intros s w Hnd Hq.
  { cbn [process_files fst snd fmap list_fmap length]. rewrite !app_nil_r.
    split_and!; try done; [lia|]. by intros f []%elem_of_nil. }
  rewrite fmap_cons in Hnd. apply NoDup_cons in Hnd as [Hf Hnd].
  destruct (Hq f) as [Hqf Hn]; [by left|]. destruct (Hfaith f) as (Hc & Hi & _).
  cbv zeta. rewrite process_files_cons.
  rewrite (process_file_recorded fp env s w f) by done. cbn [fst snd].
  match goal with
  | |- context [process_files fp env (?s1, ?w1) l] =>
      destruct (IH s1 w1) as (I1 & I2 & I3 & I4 & I5 & I6 & I7 & I8 & I9); [done| |]
  end.
  - intros g Hg. destruct (Hq g) as [Hqg Hng]; [by right|]. cbn [db target].
    assert (name g ≠ name f) as Hne.
    { intros Heq. apply Hf. rewrite <- Heq. by apply list_elem_of_fmap_2. }
    split; [|by rewrite lookup_insert_ne].
    apply is_file_processed_false. cbn [Database.processed_files].
    rewrite fmap_app. cbn [fmap list_fmap record_of Database.pf_filename].
    intros [Hin|Hin%list_elem_of_singleton]%elem_of_app; [|done].
    by apply is_file_processed_false in Hqg.
  - rewrite I1, I2, I3, I4, I5, I6, I7.
    cbn [files_processed processed skipped errors count_processed db target
         Database.processed_files Database.errors length].
    rewrite !fmap_app, <- !app_assoc.
    cbn [fmap list_fmap record_of Database.pf_filename app].
    split_and!; try done; [lia| |].
    + intros g [->|Hg]%elem_of_cons; [|by apply I8].
      rewrite I9 by done. cbn [target]. by rewrite lookup_insert_eq.
    + intros k [Hkf Hk]%not_elem_of_cons. rewrite I9 by done. cbn [target].
      by rewrite lookup_insert_ne.
Qed.

(** One run over one file whose copy is whole and whose record the store
    accepts: the file is copied, recorded and reported as processed. *)
Lemma process_batch_one_file `{Fnmatch} fp env src w f :
  files_to_process fp src (db w) = [f] →
  dry_run fp = false →
  (length (get_source_files fp src) ≤ max_variable_number env)%nat →
  target w !! name f = None →
  copy2 env f = Written (st_size f) → insert_fault env (name f) = None →
  let r := process_batch fp env src w in
  ∃ result,
    r.1 = Returned result
    ∧ files_processed result = [name f] ∧ files_skipped result = []
    ∧ files_errors result = []
    ∧ processed result = 1 ∧ skipped result = 0 ∧ errors result = 0
    ∧ total_size result = st_size f
    ∧ pf_names (db r.2) = pf_names (db w) ++ [name f]
    ∧ target r.2 = <[name f := TFile (st_size f)]> (target w).
Proof.
  intros Hbatch Hdry Hlim Hn Hc Hi r. unfold r.
  assert (Database.is_file_processed (db w) (name f) = false) as Hq.
  { apply (files_to_process_elem fp src (db w) f). rewrite Hbatch. by left. }
  rewrite process_batch_unfold, bool_decide_eq_false_2 by lia.
  rewrite Hbatch. cbv zeta. cbn [process_files].
  rewrite (process_file_recorded fp env stats0 (tick w) f) by done.
  cbn [fst snd]. eexists. split; [reflexivity|].
  cbn [files_processed files_skipped files_errors processed skipped errors total_size
       set_duration count_processed stats0 db tick target app
       Database.processed_files].
  rewrite fmap_app. cbn [fmap list_fmap record_of Database.pf_filename].
  split_and!; done.
Qed.

(** One run over one file in simulation mode: the file is reported as
    processed when its target name is free, and nothing is written. *)
Lemma process_batch_one_file_dry `{Fnmatch} fp env src w f :
  files_to_process fp src (db w) = [f] →
  dry_run fp = true →
  (length (get_source_files fp src) ≤ max_variable_number env)%nat →
  target w !! name f = None →
  let r := process_batch fp env src w in
  ∃ result,
    r.1 = Returned result
    ∧ files_processed result = [name f] ∧ files_skipped result = []
    ∧ files_errors result = []
    ∧ processed result = 1 ∧ skipped result = 0 ∧ errors result = 0
    ∧ target r.2 = target w ∧ db r.2 = db w.
Proof.
  intros Hbatch Hdry Hlim Hn r. unfold r.
  assert (Database.is_file_processed (db w) (name f) = false) as Hq.
  { apply (files_to_process_elem fp src (db w) f). rewrite Hbatch. by left. }
  rewrite process_batch_unfold, bool_decide_eq_false_2 by lia.
  rewrite Hbatch. cbv zeta. cbn [process_files].
  rewrite (process_file_dry_ok fp env stats0 (tick w) f) by done.
  cbn [fst snd]. eexists. split; [reflexivity|]. by split_and!.
Qed.

(** C6: the files returned by [get_source_files] are the regular,
    non-excluded files found by the glob, sorted by base name.  With a
    batch size of 1 a run selects one file only, the first in this order
    among those without a record, so no unprocessed non-excluded file has
    a smaller name, and it selects nothing only when none is left.  A
    result that the run returns mentions this file and no other; and when
    the target name is free, the copy is whole and the store accepts the
    record, the run processes this file: it copies it, records it and
    reports it as processed, and leaves the other names without record as
    they were.  In simulation mode the run reports this file as processed
    when its target name is free, and writes nothing. *)
Theorem batch_of_one_takes_first_name `{Fnmatch} fp env src w :
  let r := process_batch fp env src w in
  StronglySorted name_le (get_source_files fp src)
  ∧ get_source_files fp src
    ≡ₚ filter (λ path, is_file path && negb (_is_excluded fp path)) (glob fp src)
  ∧ (batch_size fp = 1 →
     (∀ result, r.1 = Returned result →
        mentioned result ≡ₚ name <$> files_to_process fp src (db w))
     ∧ match files_to_process fp src (db w) with
       | [] =>
           ∀ g, g ∈ get_source_files fp src →
                Database.is_file_processed (db w) (name g) = true
       | f :: rest =>
           rest = [] ∧ f ∈ get_source_files fp src
           ∧ Database.is_file_processed (db w) (name f) = false
           ∧ (∀ g, g ∈ get_source_files fp src →
                   Database.is_file_processed (db w) (name g) = false →
                   name_le f g)
           ∧ (dry_run fp = false →
              (length (get_source_files fp src) ≤ max_variable_number env)%nat →
              target w !! name f = None →
              copy2 env f = Written (st_size f) → insert_fault env (name f) = None →
              ∃ result,
                r.1 = Returned result
                ∧ files_processed result = [name f]
                ∧ processed result = 1 ∧ skipped result = 0 ∧ errors result = 0
                ∧ Database.is_file_processed (db r.2) (name f) = true
                ∧ target r.2 !! name f = Some (TFile (st_size f))
                ∧ ∀ n, n ≠ name f →
                       Database.is_file_processed (db r.2) n
                       = Database.is_file_processed (db w) n
                       ∧ target r.2 !! n = target w !! n)
           ∧ (dry_run fp = true →
              (length (get_source_files fp src) ≤ max_variable_number env)%nat →
              target w !! name f = None →
              ∃ result,
                r.1 = Returned result
                ∧ files_processed result = [name f]
                ∧ processed result = 1 ∧ skipped result = 0 ∧ errors result = 0
                ∧ target r.2 = target w ∧ db r.2 = db w)
       end).
Proof.
  intros r. split_and!.
  - apply get_source_files_sorted.
  - apply sort_by_name_perm.
  - intros Hbs. split; [intros result; apply process_batch_mentioned|].
    pose proof (files_to_process_spec fp src (db w)) as Hspec.
    rewrite Hbs in Hspec. specialize (Hspec ltac:(lia)).
    pose proof (get_source_files_sorted fp src) as Hsorted.
    apply (StronglySorted_filter _
             (λ f, Database.is_file_processed (db w) (name f) = false)) in Hsorted.
    destruct (filter _ (get_source_files fp src)) as [|f rest] eqn:Hfilter;
      rewrite Hspec; simpl.
    + intros g Hg.
      destruct (Database.is_file_processed (db w) (name g)) eqn:Hq; [done|].
      assert (g ∈ filter (λ f, Database.is_file_processed (db w) (name f) = false)
                         (get_source_files fp src)) as Hin
        by by rewrite list_elem_of_filter.
      rewrite Hfilter in Hin. by apply elem_of_nil in Hin.
    + rewrite take_0.
      assert (f ∈ filter (λ f, Database.is_file_processed (db w) (name f) = false)
                         (get_source_files fp src)) as Hin
        by (rewrite Hfilter; by left).
      apply list_elem_of_filter in Hin as [Hq Hf].
      split_and!; [done..| | |].
      * intros g Hg Hgq.
        assert (g ∈ f :: rest) as Hgin
          by (rewrite <- Hfilter; by rewrite list_elem_of_filter).
        apply StronglySorted_inv in Hsorted as [_ Hall].
        apply elem_of_cons in Hgin as [->|Hgin].
        -- apply string_leb_refl.
        -- by eapply Forall_forall in Hall.
      * intros Hdry Hlim Hn Hc Hi.
        destruct (process_batch_one_file fp env src w f)
          as (result & Hret & Hfp & _ & _ & Hp & Hs & He & _ & Hnames & Htgt);
          try done.
        fold r in Hret, Hnames, Htgt. exists result. split_and!; try done.
        -- apply is_file_processed_true. rewrite Hnames. apply elem_of_app.
           right. by left.
        -- rewrite Htgt. apply lookup_insert_eq.
        -- intros n Hne. split; [|rewrite Htgt; by apply lookup_insert_ne].
           unfold Database.is_file_processed. apply bool_decide_ext.
           rewrite Hnames, elem_of_app, list_elem_of_singleton. tauto.
      * intros Hdry Hlim Hn.
        destruct (process_batch_one_file_dry fp env src w f)
          as (result & Hret & Hfp & _ & _ & Hp & Hs & He & Htgt & Hdb); try done.
        fold r in Hret, Htgt, Hdb. exists result. by split_and!.
Qed.

(** With the source [src_abc] and an empty store, a batch of one
    processes [a.txt] and nothing else. *)
Lemma batch_of_one_takes_first_name_witness :
  let fp := processor 1 false in
  let r := process_batch (H:=glob_star) fp env_ok src_abc world0 in
  files_to_process (H:=glob_star) fp src_abc (db world0) = [file [] "a.txt" 5]
  ∧ ∃ result,
      r.1 = Returned result ∧ files_processed result = ["a.txt"]
      ∧ Database.is_file_processed (db r.2) "a.txt" = true
      ∧ target r.2 !! "a.txt" = Some (TFile 5).
Proof.
  intros fp r. split; [reflexivity|].
  destruct (batch_of_one_takes_first_name (H:=glob_star) (processor 1 false)
              env_ok src_abc world0) as (_ & _ & Hone).
  destruct (Hone eq_refl) as (_ & Hfirst).
  change (files_to_process (processor 1 false) src_abc (db world0))
    with [file [] "a.txt" 5] in Hfirst.
  destruct Hfirst as (_ & _ & _ & _ & Hproc & _).
  destruct Hproc as (result & Hret & Hfp & _ & _ & _ & Hq & Ht & _);
    [reflexivity|vm_compute; lia|reflexivity..|].
  exists result. split_and!; done.
Defined.

(** The sort key is the base name: [b/a.txt] comes before [a/z.txt],
    against both the order of the paths and the order of discovery. *)
Example get_source_files_by_base_name :
  get_source_files (H:=glob_star) (processor 1 false)
    [file ["a"] "z.txt" 1; file ["b"] "a.txt" 2]
  = [file ["b"] "a.txt" 2; file ["a"] "z.txt" 1].
Proof. reflexivity. Qed.

(** ** The exit status *)

Lemma Config_not_found path file e :
  Config path file = inl e →
  match e with
  | FileNotFoundError _ => file = Missing
  | ValueError _ => ∃ c, file = Parsed c
  | UnexpectedError _ => ∃ msg, file = Unparsable msg
  end.
Proof.
  unfold Config, _validate_config. destruct file as [|msg|c].
  - by intros [= <-].
  - intros [= <-]. by exists msg.
  - destruct (cfg_source_dir c), (cfg_target_dir c), (cfg_database_path c),
      (cfg_batch_size c); try (intros [= <-]; by exists c).
    case_bool_decide; [|done]. intros [= <-]. by exists c.
Qed.

(** C8, amended: when the batch ran and returned, the exit status is 0
    for a result without per-file error and 1 for a result with at least
    one.  When no batch ran, the status is 1 for a configuration error
    ([ValueError]: a required field missing, a batch size that is not
    positive, a source directory that does not exist), and nothing was
    written; it is 2 for a configuration file that is missing, which click
    refuses before the body of [main] runs, and 2 for any other exception:
    a configuration that cannot be read, a store that does not open, an
    exception that leaves [process_batch]. *)
Theorem main_exit_code `{Fnmatch} cli s env w :
  let flow := (main_body cli s env w).1.1 in
  let ran := (main_body cli s env w).1.2 in
  let code := main cli s env w in
  (config_file s = Missing → code = 2)
  ∧ (∀ result, ran = Some result →
       config_file s ≠ Missing ∧ 0 ≤ errors result
       ∧ (errors result = 0 → code = 0) ∧ (0 < errors result → code = 1))
  ∧ (∀ e, config_file s ≠ Missing → flow = Raise e →
       ran = None
       ∧ match e with
         | ValueError _ => code = 1 ∧ (main_body cli s env w).2 = w
         | UnexpectedError _ => code = 2
         | FileNotFoundError _ => False
         end)
  ∧ (∀ e, Config (cli_config cli) (config_file s) = inl e →
       flow = Raise e ∧ (main_body cli s env w).2 = w)
  ∧ (∀ cfg, Config (cli_config cli) (config_file s) = inr cfg →
       database_fault s = None →
       cli_check_integrity cli = false → cli_list_processed cli = false →
       cli_stats cli = false →
       (source s = None → ∃ msg, flow = Raise (ValueError msg))
       ∧ ∀ fp src e,
           FileProcessor_init (apply_cli_overrides cfg cli) s = inr (fp, src) →
           cli_clean_orphans cli = false →
           (process_batch fp env src w).1 = Raises e →
           ran = None ∧ code = 2).
Proof.
  unfold main, main_body.
  destruct (Config (cli_config cli) (config_file s)) as [e0|cfg] eqn:Hcfg; cbn [fst snd].
  { pose proof (Config_not_found _ _ _ Hcfg) as Hfile.
    split_and!; try done.
    - by intros ->.
    - intros e Hmiss [= <-]. split; [done|].
      destruct e0 as [msg|msg|msg]; [done| |].
      + destruct Hfile as [c ->]. done.
      + destruct Hfile as [m ->]. done.
    - by intros e [= <-]. }
  assert (config_file s ≠ Missing) as Hpresent.
  { intros Hm. rewrite Hm in Hcfg. done. }
  assert (∀ z : Z, match config_file s with Missing => 2 | _ => z end = z) as Hcode.
  { intros z. by destruct (config_file s). }
  rewrite Hcode.
  destruct (database_fault s) as [msg|] eqn:Hdb; cbn [fst snd].
  { split_and!; try done. by intros e _ [= <-]. }
  destruct (cli_check_integrity cli) eqn:Hci; cbn [fst snd].
  { split_and!; done. }
  destruct (cli_list_processed cli) eqn:Hlp; cbn [fst snd].
  { split_and!; done. }
  destruct (cli_stats cli) eqn:Hst; cbn [fst snd].
  { split_and!; done. }
  destruct (FileProcessor_init (apply_cli_overrides cfg cli) s) as [e1|[fp0 src0]]
    eqn:Hinit; cbn [fst snd].
  { assert (source s = None ∧ ∃ msg, e1 = ValueError msg) as [Hsrc [msg ->]].
    { unfold FileProcessor_init in Hinit. destruct (source s); [done|].
      injection Hinit as <-. eauto. }
    split_and!; try done.
    - by intros e _ [= <-].
    - intros cfg' [= <-] _ _ _ _. split; [eauto|]. intros fp src e Heq. congruence. }
  assert (source s ≠ None) as Hsrc.
  { unfold FileProcessor_init in Hinit. by destruct (source s). }
  destruct (cli_clean_orphans cli) eqn:Hco; cbn [fst snd].
  { split_and!; done. }
  pose proof (process_batch_counts fp0 env src0 w) as Hcounts.
  destruct (process_batch fp0 env src0 w) as [[result|e] w'] eqn:Hrun; cbn [fst snd] in *.
  - destruct (Hcounts result eq_refl) as (_ & _ & He).
    destruct (bool_decide_reflect (0 < errors result)); cbn [fst snd exit_code].
    + split_and!; try done.
      * intros ? [= <-]. split_and!; lia || done.
      * intros cfg' [= <-] _ _ _ _. split; [done|].
        intros fp src e Heq _ Hraise.
        assert (fp = fp0 ∧ src = src0) as [-> ->] by (split; congruence).
        rewrite Hrun in Hraise. done.
    + split_and!; try done.
      * intros ? [= <-]. split_and!; lia || done.
      * intros cfg' [= <-] _ _ _ _. split; [done|].
        intros fp src e Heq _ Hraise.
        assert (fp = fp0 ∧ src = src0) as [-> ->] by (split; congruence).
        rewrite Hrun in Hraise. done.
  - split_and!; try done.
    by intros e' _ [= <-].
Qed.

Lemma main_exit_code_witness :
  Config (cli_config cli0) (config_file startup_bad)
    = inl (ValueError "batch_size must be positive: 0")
  ∧ (main_body (H:=glob_star) cli0 startup_bad env_ok world0).1.1
    = Raise (ValueError "batch_size must be positive: 0")
  ∧ main (H:=glob_star) cli0 startup_bad env_ok world0 = 1.
Proof.
  split; [reflexivity|].
  destruct (main_exit_code (H:=glob_star) cli0 startup_bad env_ok world0)
    as (_ & _ & Hraise & Hcfg & _).
  destruct (Hcfg (ValueError "batch_size must be positive: 0") eq_refl) as [Hflow _].
  split; [exact Hflow|].
  destruct (Hraise (ValueError "batch_size must be positive: 0")) as [_ [Hcode _]];
    [discriminate|exact Hflow|exact Hcode].
Defined.

(** C8 as stated fails: a configuration whose batch size is zero ends the
    start before any batch, and the exit status is 1, the status of a
    batch with a per-file error. *)
Lemma main_exit_code_counterexample :
  Config (cli_config cli0) (config_file startup_bad)
    = inl (ValueError "batch_size must be positive: 0")
  ∧ (main_body (H:=glob_star) cli0 startup_bad env_ok world0).1.2 = None
  ∧ main (H:=glob_star) cli0 startup_bad env_ok world0 = 1
  ∧ main (H:=glob_star) cli0 startup_ok env_ok
      (with_target world0 {["a.txt" := TFile 1]}) = 1.
Proof. split_and!; vm_compute; reflexivity. Qed.

(** ** Orphan reconciliation *)

Lemma verify_target_files_elem w k :
  k ∈ verify_target_files w
  ↔ ∃ e, target w !! k = Some e ∧ is_regular e = true.
Proof.
  unfold verify_target_files. rewrite list_elem_of_fmap. split.
  - intros ([k' e] & -> & Hin). apply list_elem_of_filter in Hin as [Hreg Hin].
    apply elem_of_map_to_list in Hin. exists e. split; [done|].
    by apply Is_true_true.
  - intros (e & Hk & Hreg). exists (k, e). split; [done|].
    apply list_elem_of_filter. split; [by apply Is_true_true|].
    by apply elem_of_map_to_list.
Qed.

Lemma is_orphan_true w k :
  is_orphan w k = true
  ↔ ∃ e, target w !! k = Some e ∧ is_regular e = true
         ∧ Database.is_file_processed (db w) k = false.
Proof.
  unfold is_orphan. destruct (target w !! k) as [e|].
  - rewrite andb_true_iff, negb_true_iff. split.
    + intros [? ?]. by exists e.
    + by intros (e' & [= <-] & ? & ?).
  - split; [done|]. by intros (e & ? & _).
Qed.

Lemma orphan_set_elem w k :
  let target_files := verify_target_files w in
  let processed := filter (λ f, Database.is_file_processed (db w) f) target_files in
  k ∈ (list_to_set target_files ∖ list_to_set processed : gset string)
  ↔ is_orphan w k = true.
Proof.
  simpl. rewrite elem_of_difference, !elem_of_list_to_set, list_elem_of_filter.
  rewrite verify_target_files_elem, is_orphan_true, Is_true_true.
  destruct (Database.is_file_processed (db w) k); split.
  - intros [Hk Hn]. destruct Hn. by split.
  - by intros (e & _ & _ & ?).
  - intros [(e & ? & ?) _]. by exists e.
  - intros (e & ? & ? & _). split; [by exists e|]. by intros [? _].
Qed.

Lemma orphans_of_elem w k : k ∈ orphans_of w ↔ is_orphan w k = true.
Proof.
  unfold orphans_of. rewrite list_elem_of_filter, Is_true_true. split; [tauto|].
  intros Ho. split; [done|]. apply is_orphan_true in Ho as (e & He & _).
  apply list_elem_of_fmap. exists (k, e). split; [done|].
  by apply elem_of_map_to_list.
Qed.

Lemma orphans_of_NoDup w : NoDup (orphans_of w).
Proof. apply NoDup_filter, NoDup_fst_map_to_list. Qed.

Lemma orphan_set_elements w :
  let target_files := verify_target_files w in
  let processed := filter (λ f, Database.is_file_processed (db w) f) target_files in
  elements (list_to_set target_files ∖ list_to_set processed : gset string)
  ≡ₚ orphans_of w.
Proof.
  simpl. apply NoDup_Permutation; [apply NoDup_elements|apply orphans_of_NoDup|].
  intros k. rewrite elem_of_elements, orphans_of_elem. apply orphan_set_elem.
Qed.

(** The loop deletes, in real mode, the listed files whose [unlink] does
    not raise, counts them, and touches nothing else. *)
Lemma unlink_orphans_spec fp env l c w :
  let r := foldl (unlink_orphan fp env) (c, w) l in
  r.1 = c + Z.of_nat (length (filter (λ k, dry_run fp = true ∨ unlink_fault env k = None) l))
  ∧ db r.2 = db w
  ∧ ∀ k, target r.2 !! k
         = if bool_decide (k ∈ l ∧ dry_run fp = false ∧ unlink_fault env k = None)
           then None else target w !! k.
Proof.
  revert c w. induction l as [|x l IH]; intros c w; cbn [foldl].
  { cbn [fst snd]. rewrite filter_nil. split_and!; [simpl; lia|done|]. intros k.
    rewrite bool_decide_eq_false_2; [done|]. intros [[]%elem_of_nil _]. }
  destruct (unlink_orphan fp env (c, w) x) as [c1 w1] eqn:Hstep.
  destruct (IH c1 w1) as (Hc & Hd & Ht). rewrite Hc, Hd. clear IH Hc Hd.
  rewrite filter_cons. unfold unlink_orphan in Hstep.
  destruct (dry_run fp) eqn:Hdry; simpl in Hstep.
  - injection Hstep as <- <-. rewrite decide_True by auto. simpl.
    split_and!; [lia|done|]. intros k. rewrite Ht.
    rewrite !bool_decide_eq_false_2 by (by intros (_ & ? & _)). done.
  - destruct (unlink_fault env x) as [msg|] eqn:Hx; injection Hstep as <- <-.
    + rewrite decide_False by (intros [?|?]; congruence).
      split_and!; [done..|]. intros k. rewrite Ht.
      rewrite (bool_decide_ext (k ∈ l ∧ _)
                 (k ∈ x :: l ∧ false = false ∧ unlink_fault env k = None));
        [done|].
      rewrite elem_of_cons. split.
      * intros (? & ? & ?). auto.
      * intros ([->|?] & ? & ?); [congruence|auto].
    + rewrite decide_True by auto. simpl. split_and!; [lia|done|].
      intros k. rewrite Ht. simpl.
      destruct (decide (k = x)) as [->|Hne].
      * rewrite lookup_delete_eq, (bool_decide_eq_true_2 (x ∈ x :: l ∧ _)).
        -- by case_bool_decide.
        -- split; [by left|done].
      * rewrite lookup_delete_ne by done.
        rewrite (bool_decide_ext (k ∈ l ∧ _)
                   (k ∈ x :: l ∧ false = false ∧ unlink_fault env k = None));
          [done|].
        rewrite elem_of_cons. split.
        -- intros (? & ? & ?). auto.
        -- intros ([?|?] & ? & ?); [done|auto].
Qed.

Lemma clean_target_orphans_spec fp env w :
  let r := clean_target_orphans fp env w in
  r.1 = Z.of_nat (length (filter (λ k, dry_run fp = true ∨ unlink_fault env k = None)
                                 (orphans_of w)))
  ∧ db r.2 = db w
  ∧ ∀ k, target r.2 !! k
         = if bool_decide (is_orphan w k = true ∧ dry_run fp = false
                           ∧ unlink_fault env k = None)
           then None else target w !! k.
Proof.
  pose proof (orphan_set_elements w) as Hperm.
  pose proof (orphan_set_elem w) as Hset. simpl in Hperm, Hset.
  assert (orphans_of w = [] →
          0 = Z.of_nat (length (filter (λ k, dry_run fp = true ∨ unlink_fault env k = None)
                                       (orphans_of w)))
          ∧ db w = db w
          ∧ ∀ k, target w !! k
                 = if bool_decide (is_orphan w k = true ∧ dry_run fp = false
                                   ∧ unlink_fault env k = None)
                   then None else target w !! k) as Hnone.
  { intros Hnil. rewrite Hnil. split_and!; [done..|]. intros k.
    case_bool_decide as Hk; [|done]. destruct Hk as [Hk _].
    apply orphans_of_elem in Hk. rewrite Hnil in Hk. by apply elem_of_nil in Hk. }
  unfold clean_target_orphans. cbv zeta.
  destruct (verify_target_files w) as [|x tf] eqn:Htf.
  { apply Hnone, elem_of_nil_inv. intros k Hk%orphans_of_elem%Hset.
    apply elem_of_difference in Hk as [Hk _].
    by apply elem_of_list_to_set, elem_of_nil in Hk. }
  match goal with
  | |- context [decide (?X = ∅)] => destruct (decide (X = ∅)) as [Hempty|_]
  end.
  { apply Hnone, elem_of_nil_inv. intros k Hk%orphans_of_elem%Hset.
    rewrite Hempty in Hk. by apply elem_of_empty in Hk. }
  match goal with
  | |- context [foldl _ _ ?l] =>
      destruct (unlink_orphans_spec fp env l 0 w) as (Hc & Hd & Ht)
  end.
  rewrite Hc, Hd. split_and!; [|done|].
  - by rewrite Hperm.
  - intros k. rewrite Ht.
    rewrite (bool_decide_ext (k ∈ _ ∧ _)
               (is_orphan w k = true ∧ dry_run fp = false
                ∧ unlink_fault env k = None)); [done|].
    by rewrite elem_of_elements, Hset.
Qed.

Lemma list_filter_all {A} (P : A → Prop) `{!∀ x, Decision (P x)} (l : list A) :
  (∀ x, x ∈ l → P x) → filter P l = l.
Proof.
  induction l as [|a l IH]; intros Hall; [done|].
  rewrite filter_cons, decide_True by (apply Hall; by left).
  f_equal. apply IH. intros x Hx. apply Hall. by right.
Qed.

(** C10: the orphans are the regular files of the target directory
    without a record.  [clean_target_orphans] never touches the record
    store, a recorded file or any entry that is not an orphan.  In
    simulation mode it deletes nothing and returns the number of orphans.
    In real mode it deletes the orphans, up to those whose [unlink] raises,
    and returns the number it deleted: when no [unlink] raises, every
    orphan is gone and the number returned is the number of orphans. *)
Theorem clean_target_orphans_exact fp env w :
  let r := clean_target_orphans fp env w in
  (∀ k, k ∈ orphans_of w
        ↔ ∃ size, target w !! k = Some (TFile size)
                  ∧ Database.is_file_processed (db w) k = false)
  ∧ db r.2 = db w
  ∧ (∀ k, Database.is_file_processed (db w) k = true →
          target r.2 !! k = target w !! k)
  ∧ (∀ k, is_orphan w k = false → target r.2 !! k = target w !! k)
  ∧ (dry_run fp = true →
     target r.2 = target w ∧ r.1 = Z.of_nat (length (orphans_of w)))
  ∧ (dry_run fp = false →
     r.1 = Z.of_nat (length (filter (λ k, unlink_fault env k = None) (orphans_of w)))
     ∧ (∀ k, is_orphan w k = true →
             target r.2 !! k
             = match unlink_fault env k with
               | None => None
               | Some _ => target w !! k
               end)
     ∧ ((∀ k, is_orphan w k = true → unlink_fault env k = None) →
        r.1 = Z.of_nat (length (orphans_of w))
        ∧ ∀ k, is_orphan w k = true → target r.2 !! k = None)).
Proof.
  intros r. destruct (clean_target_orphans_spec fp env w) as (Hc & Hd & Ht).
  fold r in Hc, Hd, Ht. split_and!.
  - intros k. rewrite orphans_of_elem, is_orphan_true. split.
    + intros ([size|] & Hk & Hreg & Hq); [eauto|done].
    + intros (size & Hk & Hq). eauto.
  - done.
  - intros k Hq. rewrite Ht. rewrite bool_decide_eq_false_2; [done|].
    intros [(e & _ & _ & Hq')%is_orphan_true _]. congruence.
  - intros k Ho. rewrite Ht. rewrite bool_decide_eq_false_2; [done|].
    intros [? _]. congruence.
  - intros Hdry. split.
    + apply map_eq. intros k. rewrite Ht. rewrite bool_decide_eq_false_2; [done|].
      intros (_ & ? & _). congruence.
    + rewrite Hc. do 2 f_equal. apply list_filter_all. auto.
  - intros Hdry. split_and!.
    + rewrite Hc. do 2 f_equal. apply list_filter_iff. intros k.
      split; [intros [?|?]; [congruence|done]|auto].
    + intros k Ho. rewrite Ht. destruct (unlink_fault env k) eqn:Hk.
      * rewrite bool_decide_eq_false_2; [done|]. intros (_ & _ & ?). done.
      * by rewrite bool_decide_eq_true_2.
    + intros Hok. split.
      * rewrite Hc. do 2 f_equal.
        apply list_filter_all. intros k Hk%orphans_of_elem. auto.
      * intros k Ho. rewrite Ht. by rewrite bool_decide_eq_true_2; [|auto].
Qed.

(** One recorded file, one orphan and one directory in the target: the
    orphan goes, the rest stays, and the count is 1. *)
Lemma clean_target_orphans_exact_witness :
  let r := clean_target_orphans (processor 1 false) env_ok world_orphan in
  (∀ k, is_orphan world_orphan k = true → unlink_fault env_ok k = None)
  ∧ r.1 = 1
  ∧ target r.2 !! "orphan.txt" = None
  ∧ target r.2 !! "tracked.txt" = Some (TFile 13).
Proof.
  pose proof (clean_target_orphans_exact (processor 1 false) env_ok world_orphan)
    as (_ & _ & Hrec & _ & _ & Hreal).
  destruct (Hreal eq_refl) as (_ & _ & Hall).
  destruct (Hall (λ _ _, eq_refl)) as [Hcount Hgone].
  split_and!.
  - intros k _. reflexivity.
  - exact Hcount.
  - apply Hgone. reflexivity.
  - rewrite Hrec; reflexivity.
Defined.

(** ** Uniqueness of the file name in the record store *)

Lemma count_records_NoDup (d : Database.DatabaseManager) (n : string) :
  NoDup (pf_names d) → (Database.count_records d n ≤ 1)%nat.
Proof.
  unfold Database.count_records.
  induction (Database.processed_files d) as [|r rows IH]; simpl; [lia|].
  intros [Hr Hnd]%NoDup_cons. rewrite filter_cons.
  case_decide as Hn; [|auto]. simpl.
  assert (filter (λ r, Database.pf_filename r = n) rows = []) as ->; [|simpl; lia].
  apply elem_of_nil_inv. intros r' [Hr' Hin]%list_elem_of_filter.
  apply Hr, list_elem_of_fmap. exists r'. split; [congruence|done].
Qed.

Lemma process_batch_nodup `{Fnmatch} fp env src w :
  NoDup (pf_names (db w)) → NoDup (pf_names (db (process_batch fp env src w).2)).
Proof.
  intros Hnd. destruct (process_batch_world fp env src w) as (l & _ & _ & -> & _).
  by apply process_files_nodup.
Qed.

Lemma run_op_nodup `{Fnmatch} w op :
  NoDup (pf_names (db w)) → NoDup (pf_names (db (run_op w op))).
Proof.
  intros Hnd. destruct op as [fp env src|fp env|env n sp tp size cd h|env n t m]; simpl.
  - by apply process_batch_nodup.
  - destruct (clean_target_orphans_spec fp env w) as (_ & -> & _). done.
  - destruct (Database.add_processed_file env (db w) n sp tp size cd h)
      as [e|[i d]] eqn:Hadd; [done|].
    apply add_processed_file_names in Hadd as (Hq & Hn & _). simpl. rewrite Hn.
    apply NoDup_app. split_and!; [done| |apply NoDup_singleton].
    intros x Hx ->%list_elem_of_singleton. by apply is_file_processed_false in Hq.
  - by rewrite db_log_error_processed_files.
Qed.

Lemma run_ops_nodup `{Fnmatch} ops w :
  NoDup (pf_names (db w)) → NoDup (pf_names (db (foldl run_op w ops))).
Proof.
  revert w. induction ops as [|op ops IH]; intros w Hnd; cbn [foldl]; [done|].
  by apply IH, run_op_nodup.
Qed.

(** C2: after any sequence of batches, orphan clean-ups, insertions and
    error logs on a new record store, a file name has at most one record;
    [add_processed_file] for a name that has a record fails and leaves
    the store as it is. *)
Theorem filename_unique `{Fnmatch} (ops : list Op) tgt t n :
  let w := foldl run_op
             {| target := tgt; db := Database._initialize_database; ticks := t |}
             ops in
  (Database.count_records (db w) n ≤ 1)%nat
  ∧ ∀ env sp tp size cd h,
      Database.is_file_processed (db w) n = true →
      (∃ e, Database.add_processed_file env (db w) n sp tp size cd h = inl e)
      ∧ run_op w (OpAddProcessedFile env n sp tp size cd h) = w.
Proof.
  intros w. split.
  - apply count_records_NoDup, run_ops_nodup. simpl. constructor.
  - intros env sp tp size cd h Hq.
    destruct (add_processed_file_fails env (db w) n sp tp size cd h Hq) as [e He].
    split; [eauto|]. simpl. by rewrite He.
Qed.

(** A batch over the source [src_abc], then a second insertion of
    [a.txt]: the insertion fails and one record of [a.txt] remains. *)
Lemma filename_unique_witness :
  let ops := [OpProcessBatch (processor 10 false) env_ok src_abc;
              OpAddProcessedFile env_ok "a.txt" "/src/a.txt" "/dst/a.txt" 5 0 None] in
  let w := foldl (run_op (H:=glob_star)) world0 ops in
  Database.is_file_processed (db w) "a.txt" = true
  ∧ (Database.count_records (db w) "a.txt" ≤ 1)%nat
  ∧ run_op (H:=glob_star) w
      (OpAddProcessedFile env_ok "a.txt" "/src/a.txt" "/dst/a.txt" 5 0 None) = w.
Proof.
  intros ops w.
  pose proof (filename_unique (H:=glob_star) ops ∅ 0%nat "a.txt") as [Hcount Hadd].
  split; [reflexivity|]. split; [exact Hcount|].
  apply (Hadd env_ok "/src/a.txt" "/dst/a.txt" 5 0 None). reflexivity.
Defined.

(** ** What a step and a batch may change *)

(** What a step may change, in full: either the records stay as they are,
    and the target directory too unless a failed copy left its file under
    the free target name; or the file got its record and its copy. *)
Lemma process_file_effect fp env s w f :
  let r := process_file fp env (s, w) f in
  (pf_names (db r.2.2) = pf_names (db w)
   ∧ (dry_run fp = true ∨ files_processed r.2.1 = files_processed s)
   ∧ (target r.2.2 = target w
      ∨ (dry_run fp = false ∧ target w !! name f = None
         ∧ Database.is_file_processed (db w) (name f) = false
         ∧ ∃ k, target r.2.2 = <[name f := TFile k]> (target w)
                ∧ leaves_file env f k)))
  ∨ (dry_run fp = false
     ∧ Database.is_file_processed (db w) (name f) = false
     ∧ target w !! name f = None
     ∧ copy2 env f = Written (st_size f)
     ∧ insert_fault env (name f) = None
     ∧ pf_names (db r.2.2) = pf_names (db w) ++ [name f]
     ∧ target r.2.2 = <[name f := TFile (st_size f)]> (target w)
     ∧ files_processed r.2.1 = files_processed s ++ [name f]).
Proof.
  intros r. unfold r. clear r.
  assert (∀ tgt', tgt' = target w
                  ∨ (dry_run fp = false ∧ target w !! name f = None
                     ∧ ∃ z, tgt' = <[name f := TFile z]> (target w) ∧ leaves_file env f z) →
                  Database.is_file_processed (db w) (name f) = false →
                  tgt' = target w
                  ∨ (dry_run fp = false ∧ target w !! name f = None
                     ∧ Database.is_file_processed (db w) (name f) = false
                     ∧ ∃ k, tgt' = <[name f := TFile k]> (target w)
                            ∧ leaves_file env f k)) as Hleft.
  { intros tgt' [->|(? & ? & z & -> & ?)] ?; [by left|right]. eauto 10. }
  step_cases fp env s w f; cbn [fst snd].
  - left. auto.
  - left. auto.
  - left. rewrite db_log_error_processed_files, db_log_error_target.
    cbn [with_target db target]. auto.
  - left. cbn [tick with_target db target]. auto.
  - left. auto.
  - right. cbn [db target files_processed count_processed Database.processed_files].
    rewrite fmap_app. cbn [fmap list_fmap record_of Database.pf_filename].
    split_and!; done.
  - left. cbn [tick with_target db target]. split_and!; [done|by right|].
    right. split_and!; [done..|]. exists (st_size f). split; [done|].
    right. split; [done|]. rewrite Hu. by eexists.
  - left. rewrite db_log_error_processed_files, db_log_error_target.
    cbn [tick db target]. auto.
  - left. cbn [tick db target]. auto.
Qed.

(** Over the whole loop: the records only grow; a name that has no record
    at the end keeps its target entry, unless its name was free and a
    failed copy of a file of the batch left its file there; and a name
    that the loop reports as processed in real mode has a record at the
    end. *)
Lemma process_files_effect fp env batch s w n :
  let r := process_files fp env (s, w) batch in
  (n ∈ pf_names (db w) → n ∈ pf_names (db r.2.2))
  ∧ (n ∉ pf_names (db r.2.2) →
     target r.2.2 !! n = target w !! n
     ∨ (target w !! n = None ∧ dry_run fp = false
        ∧ ∃ g k, g ∈ batch ∧ name g = n ∧ leaves_file env g k
                 ∧ target r.2.2 !! n = Some (TFile k)))
  ∧ (dry_run fp = false → n ∈ files_processed r.2.1 →
     n ∈ files_processed s ∨ n ∈ pf_names (db r.2.2)).
Proof.
  revert s w. induction batch as [|f batch IH]; intros s w.
  { cbn [process_files fst snd]. auto. }
  cbv zeta. rewrite process_files_cons.
  pose proof (process_file_effect fp env s w f) as Hstep. cbv zeta in Hstep.
  pose proof (process_file_raises fp env s w f) as Hraise.
  destruct (process_file fp env (s, w) f) as [flow [s1 w1]]. cbn [fst snd] in *.
  assert ((n ∈ pf_names (db w) → n ∈ pf_names (db w1))
          ∧ (n ∉ pf_names (db w1) →
             target w1 !! n = target w !! n
             ∨ (target w !! n = None ∧ dry_run fp = false
                ∧ ∃ g k, g ∈ f :: batch ∧ name g = n ∧ leaves_file env g k
                         ∧ target w1 !! n = Some (TFile k)))
          ∧ (dry_run fp = false → n ∈ files_processed s1 →
             n ∈ files_processed s ∨ n ∈ pf_names (db w1))) as Hone.
  { destruct Hstep as [(Hn & Hfp & Htgt)|(Hd & Hq & Hfree & Hc & Hi & Hn & Htgt & Hfp)].
    - rewrite Hn. split_and!; [done| |].
      + intros _. destruct Htgt as [->|(Hd & Hfree & _ & k & -> & Hk)]; [by left|].
        destruct (decide (n = name f)) as [->|Hne].
        * right. split_and!; [done..|]. exists f, k. rewrite lookup_insert_eq.
          split_and!; [by left|done..].
        * left. by rewrite lookup_insert_ne.
      + intros Hd Hin. left. destruct Hfp as [?| <-]; [congruence|done].
    - rewrite Hn, Htgt, Hfp. split_and!.
      + intros ?. apply elem_of_app. by left.
      + intros Hnot. left. apply lookup_insert_ne. intros <-. apply Hnot.
        apply elem_of_app. right. by left.
      + intros _ [?|Hin]%elem_of_app; [by left|]. right. apply elem_of_app. by right. }
  destruct flow as [e|]; [done|]. cbn [fst snd].
  destruct (IH s1 w1) as (Hmono & Htgt & Hproc). clear IH.
  destruct Hone as (Hmono1 & Htgt1 & Hproc1). split_and!.
  - auto.
  - intros Hnot.
    assert (n ∉ pf_names (db w1)) as Hnot1 by (intros ?; apply Hnot; auto).
    destruct (Htgt Hnot) as [Heq|(Hfree & Hd & g & k & Hg & Hgn & Hk & Hat)].
    + rewrite Heq. destruct (Htgt1 Hnot1) as [?|(? & ? & g & k & ? & ? & ? & Hat)];
        [by left|]. right. split_and!; [done..|]. by exists g, k.
    + destruct (Htgt1 Hnot1) as [Heq|(? & ? & g' & k' & ? & ? & ? & Hat')];
        [|congruence].
      right. rewrite <- Heq. split_and!; [done..|]. exists g, k.
      split_and!; [by right|done..].
  - intros Hd Hin. destruct (Hproc Hd Hin) as [Hin1|?]; [|by right].
    destruct (Hproc1 Hd Hin1) as [?|?]; [by left|]. right. auto.
Qed.

Lemma glob_elem fp src g : g ∈ glob fp src → g ∈ src.
Proof.
  unfold glob. destruct (recursive fp); [done|].
  by intros [_ ?]%list_elem_of_filter.
Qed.

Lemma files_to_process_src `{Fnmatch} fp src d g :
  g ∈ files_to_process fp src d → g ∈ src.
Proof.
  intros [Hg _]%files_to_process_elem.
  apply get_source_files_elem in Hg as [Hg _]. by eapply glob_elem.
Qed.

Lemma process_batch_effect `{Fnmatch} fp env src w n :
  let r := process_batch fp env src w in
  (n ∈ pf_names (db w) → n ∈ pf_names (db r.2))
  ∧ (n ∉ pf_names (db r.2) →
     target r.2 !! n = target w !! n
     ∨ (target w !! n = None ∧ dry_run fp = false
        ∧ ∃ g k, g ∈ files_to_process fp src (db w) ∧ name g = n
                 ∧ leaves_file env g k ∧ target r.2 !! n = Some (TFile k)))
  ∧ (dry_run fp = false → ∀ result, r.1 = Returned result →
     n ∈ files_processed result →
     (n ∉ pf_names (db w)) ∧ n ∈ pf_names (db r.2))
  ∧ (n ∈ pf_names (db r.2) →
     n ∈ pf_names (db w)
     ∨ (dry_run fp = false
        ∧ ∃ g, g ∈ src ∧ name g = n ∧ copy2 env g = Written (st_size g))).
Proof.
  intros r. unfold r. clear r.
  destruct (process_batch_world fp env src w) as (l & Hl & Ht & Hd & _).
  assert (∀ g, g ∈ l → g ∈ files_to_process fp src (db w)) as Hsub.
  { destruct Hl as [->| ->]; [by intros g []%elem_of_nil|done]. }
  destruct (process_files_effect fp env l stats0 (tick w) n) as (Hmono & Htgt & Hproc).
  cbn [tick db target] in *. split_and!.
  - by rewrite Hd.
  - rewrite Ht, Hd.
    intros Hnot. destruct (Htgt Hnot) as [?|(? & ? & g & k & ? & ? & ? & ?)];
      [by left|]. right. split_and!; [done..|]. exists g, k. auto.
  - intros Hdry result Hret Hin.
    pose proof (process_batch_mentioned fp env src w result Hret) as Hment.
    apply process_batch_returned in Hret
      as [_ [(_ & -> & _)|(_ & Hflow & -> & Hw)]]; [by apply elem_of_nil in Hin|].
    rewrite Hw. cbn [tick db].
    destruct (process_files_effect fp env (files_to_process fp src (db w)) stats0
                (tick w) n) as (_ & _ & Hproc').
    destruct (Hproc' Hdry Hin) as [[]%elem_of_nil|Hrec]. split; [|done].
    assert (n ∈ name <$> files_to_process fp src (db w))
      as (g & -> & Hg)%list_elem_of_fmap.
    { rewrite <- Hment. unfold mentioned. apply elem_of_app. by left. }
    apply files_to_process_elem in Hg as [_ Hq]. by apply is_file_processed_false.
  - rewrite Hd.
    intros [?|(Hdry & g & Hg & Hn & Hc)]%process_files_recorded; [by left|].
    right. split; [done|]. exists g. split_and!; [|done..].
    eapply files_to_process_src. eauto.
Qed.

(** C3, amended: when the copy of a file leaves a target whose size
    differs from the size of the source, [_copy_file] unlinks the file it
    has written and reports the failure: the target directory is as
    before, unless the [unlink] itself raises, and then the short file
    stays and the failure reported is that of the [unlink].  Either way
    the step adds no record and does not report the file as processed;
    and a batch over a source directory in which no file of that name is
    copied whole creates no record for the name and does not report it as
    processed, and leaves no target file for it when no failed copy leaves
    one behind. *)
Theorem size_mismatch_not_recorded `{Fnmatch} fp env src f n :
  dry_run fp = false → copy2 env f = Written n → n ≠ st_size f →
  let msg := "Incorrect size after copy (" +:+ pretty (st_size f)
             +:+ " != " +:+ pretty n +:+ ")" in
  (∀ tgt : gmap string TEntry, tgt !! name f = None →
     let written := <[name f := TFile n]> tgt in
     match unlink_fault env (name f) with
     | None =>
         _copy_file fp env tgt f (name f) = ((false, Some msg), delete (name f) written)
         ∧ delete (name f) written !! name f = None
         ∧ delete (name f) written = tgt
     | Some (e, m) =>
         _copy_file fp env tgt f (name f)
         = ((false, Some (copy_error_message e m)), written)
     end)
  ∧ (∀ s w, Database.is_file_processed (db w) (name f) = false →
            target w !! name f = None →
            let r := process_file fp env (s, w) f in
            Database.processed_files (db r.2.2) = Database.processed_files (db w)
            ∧ files_processed r.2.1 = files_processed s
            ∧ processed r.2.1 = processed s
            ∧ (unlink_fault env (name f) = None →
               target r.2.2 = target w
               ∧ (log_fault env (name f) = None →
                  r = (None,
                       (count_error s (name f) msg,
                        (db_log_error env w (name f) "COPY_ERROR" msg).2)))))
  ∧ ((∀ g, g ∈ src → name g = name f → copy2 env g ≠ Written (st_size g)) →
     ∀ w, let r := process_batch fp env src w in
          Database.is_file_processed (db r.2) (name f)
          = Database.is_file_processed (db w) (name f)
          ∧ (∀ result, r.1 = Returned result → name f ∉ files_processed result)
          ∧ (Database.is_file_processed (db w) (name f) = false →
             (∀ g k, g ∈ src → name g = name f → ¬ leaves_file env g k) →
             target r.2 !! name f = target w !! name f)).
Proof.
  intros Hdry Hc Hne msg.
  assert (∀ tgt : gmap string TEntry, tgt !! name f = None →
            _copy_file fp env tgt f (name f)
            = match unlink_fault env (name f) with
              | None => ((false, Some msg), tgt)
              | Some (e, m) =>
                  ((false, Some (copy_error_message e m)), <[name f := TFile n]> tgt)
              end) as Hcopy.
  { intros tgt Hn. unfold _copy_file. rewrite Hn, Hdry, Hc.
    rewrite bool_decide_eq_true_2 by done.
    destruct (unlink_fault env (name f)) as [[e m]|]; [done|].
    by rewrite delete_insert_eq, delete_id. }
  split_and!.
  - intros tgt Hn written. specialize (Hcopy tgt Hn). unfold written.
    destruct (unlink_fault env (name f)) as [[e m]|]; [done|].
    rewrite delete_insert_eq, delete_id by done. done.
  - intros s w Hq Hn r. unfold r. specialize (Hcopy (target w) Hn).
    destruct (unlink_fault env (name f)) as [[e m]|] eqn:Hu.
    + rewrite (process_file_copy_failed fp env s w f _ _ Hq Hcopy), Hdry.
      destruct (log_fault env (name f)); cbn [fst snd];
        rewrite ?db_log_error_processed_files; done.
    + rewrite (process_file_copy_failed fp env s w f _ _ Hq Hcopy), Hdry.
      rewrite with_target_same.
      destruct (log_fault env (name f)); cbn [fst snd];
        rewrite ?db_log_error_processed_files, ?db_log_error_target; done.
  - intros Hshort w r.
    destruct (process_batch_effect fp env src w (name f)) as (Hmono & Htgt & Hproc & Hrec).
    fold r in Hmono, Htgt, Hproc, Hrec.
    assert (name f ∈ pf_names (db r.2) → name f ∈ pf_names (db w)) as Hback.
    { intros [?|(_ & g & Hg & Hn & Hcg)]%Hrec; [done|]. by destruct (Hshort g). }
    split_and!.
    + destruct (Database.is_file_processed (db w) (name f)) eqn:Hq.
      * by apply is_file_processed_true, Hmono, is_file_processed_true.
      * apply is_file_processed_false. intros Hin%Hback.
        by apply is_file_processed_false in Hq.
    + intros result Hret Hin. destruct (Hproc Hdry result Hret Hin) as [Hno Hyes]. auto.
    + intros Hq Hnone. destruct Htgt as [?|(_ & _ & g & k & Hg & Hgn & Hk & _)]; [|done|].
      * intros Hin%Hback. by apply is_file_processed_false in Hq.
      * destruct (Hnone g k); [|done..]. eapply files_to_process_src. eauto.
Qed.

(** The copy of [a.txt] (5 bytes) stops after 3 bytes: the batch records
    [b.jpg] only, and the target directory has no [a.txt]. *)
Lemma size_mismatch_not_recorded_witness :
  let f := file [] "a.txt" 5 in
  let r := process_batch (H:=glob_star) (processor 10 false) env_short src_abc world0 in
  copy2 env_short f = Written 3
  ∧ Database.is_file_processed (db r.2) "a.txt" = false
  ∧ target r.2 !! "a.txt" = None.
Proof.
  intros f r.
  destruct (size_mismatch_not_recorded (H:=glob_star) (processor 10 false)
              env_short src_abc f 3) as (_ & _ & Hbatch);
    [reflexivity|reflexivity|discriminate|].
  destruct (Hbatch) with (w := world0) as (Hq & _ & Htgt).
  { intros g Hg Hn. unfold env_short, copy2.
    change (name f) with "a.txt" in Hn. rewrite Hn. simpl.
    apply list_elem_of_In in Hg. simpl in Hg.
    destruct Hg as [<-|[<-|[<-|[]]]]; discriminate. }
  split; [reflexivity|]. split; [exact Hq|].
  apply (Htgt eq_refl). intros g k Hg Hn [(e & m & Hr)|[_ [u Hu]]].
  - unfold env_short, copy2 in Hr. destruct (String.eqb (name g) "a.txt"); discriminate.
  - discriminate.
Defined.

(** C3 as stated fails when the [unlink] of the short copy raises: the
    copy operation reports the failure of the [unlink], and the short
    file is still in the target directory after the batch; it has no
    record. *)
Lemma size_mismatch_not_recorded_counterexample :
  let f := file [] "a.txt" 5 in
  let r := process_batch (H:=glob_star) (processor 10 false) env_stuck src_abc world0 in
  copy2 env_stuck f = Written 3
  ∧ _copy_file (processor 10 false) env_stuck ∅ f "a.txt"
    = ((false, Some "Insufficient permissions: [Errno 1] Operation not permitted"),
       {["a.txt" := TFile 3]})
  ∧ target r.2 !! "a.txt" = Some (TFile 3)
  ∧ Database.is_file_processed (db r.2) "a.txt" = false.
Proof. split_and!; vm_compute; reflexivity. Qed.

(** ** A refused insert *)

Lemma db_log_error_errors env w f t m :
  log_fault env f = None →
  Database.errors (db (db_log_error env w f t m).2)
  = Database.errors (db w)
    ++ [{| Database.er_id := Database.errors_seq (db w) + 1;
           Database.er_timestamp := clock env (ticks w);
           Database.er_filename := f;
           Database.er_error_type := t;
           Database.er_error_message := m |}].
Proof.
  intros Hl. destruct (db_log_error_cases env w f t m) as [[_ ->]|(lm & Hl' & _)];
    [done|congruence].
Qed.

(** The loop over files whose copy is whole, in an environment where
    only the insert of a record may fail: it raises nothing; the files
    whose insert is refused are rolled back, logged and counted as
    errors, and the loop goes on: all the others are copied, recorded and
    reported as processed. *)
Lemma process_files_insert_faults fp env l s w :
  dry_run fp = false →
  (∀ g, g ∈ l → copy2 env g = Written (st_size g)
                ∧ unlink_fault env (name g) = None ∧ log_fault env (name g) = None) →
  NoDup (name <$> l) →
  (∀ g, g ∈ l → Database.is_file_processed (db w) (name g) = false
                ∧ target w !! name g = None) →
  let r := process_files fp env (s, w) l in
  let accepted := filter (λ g, insert_fault env (name g) = None) l in
  r.1 = None
  ∧ files_processed r.2.1 = files_processed s ++ (name <$> accepted)
  ∧ files_errors r.2.1
    = files_errors s ++ omap (λ g, (λ m, (name g, m)) <$> insert_fault env (name g)) l
  ∧ pf_names (db r.2.2) = pf_names (db w) ++ (name <$> accepted)
  ∧ (Database.er_error_type <$> Database.errors (db r.2.2))
    = (Database.er_error_type <$> Database.errors (db w))
      ++ replicate (length l - length accepted) "DB_ERROR"
  ∧ (∀ g, g ∈ l →
          target r.2.2 !! name g
          = match insert_fault env (name g) with
            | Some _ => None
            | None => Some (TFile (st_size g))
            end)
  ∧ (∀ k, k ∉ name <$> l → target r.2.2 !! k = target w !! k).
Proof.
  intros Hdry. revert s w.
  induction l as [|f l IH]; intros s w Henv Hnd Hq.
  { cbn [process_files fst snd fmap list_fmap length omap list_omap replicate Nat.sub].
    rewrite filter_nil, !app_nil_r. split_and!; try done. by intros g []%elem_of_nil. }
  rewrite fmap_cons in Hnd. apply NoDup_cons in Hnd as [Hf Hnd].
  destruct (Hq f) as [Hqf Hn]; [by left|].
  destruct (Henv f) as (Hc & Hu & Hl); [by left|].
  assert (∀ g, g ∈ l → name g ≠ name f) as Hne.
  { intros g Hg Heq. apply Hf. rewrite <- Heq. by apply list_elem_of_fmap_2. }
  assert (length (filter (λ g, insert_fault env (name g) = None) l) ≤ length l)%nat
    as Hlen by apply length_filter.
  cbv zeta. rewrite process_files_cons, filter_cons.
  destruct (insert_fault env (name f)) as [im|] eqn:Hi.
  - rewrite (process_file_insert_fault fp env s w f im) by done.
    rewrite Hu, Hl. cbn [fst snd].
    rewrite decide_False by done.
    match goal with
    | |- context [process_files fp env (?s1, ?w1) l] =>
        destruct (IH s1 w1) as (I1 & I2 & I3 & I4 & I5 & I6 & I7);
          [intros g Hg; apply Henv; by right|done| |]
    end.
    + intros g Hg. destruct (Hq g) as [Hqg Hng]; [by right|].
      unfold Database.is_file_processed.
      rewrite db_log_error_processed_files, db_log_error_target. done.
    + rewrite I1, I2, I3, I4, I5.
      rewrite db_log_error_processed_files, db_log_error_errors by done.
      cbn [files_processed files_errors count_error tick db omap list_omap fmap
           option_fmap option_map length].
      rewrite Hi. cbn [fmap option_fmap option_map].
      rewrite fmap_app, <- !app_assoc. cbn [fmap list_fmap Database.er_error_type app].
      replace (S (length l) - length (filter (λ g, insert_fault env (name g) = None) l))%nat
        with (S (length l - length (filter (λ g, insert_fault env (name g) = None) l)))
        by lia.
      split_and!; try done.
      * intros g [->|Hg]%elem_of_cons; [|by apply I6].
        rewrite Hi, I7 by done. rewrite db_log_error_target. done.
      * intros k [Hkf Hk]%not_elem_of_cons. rewrite I7 by done.
        by rewrite db_log_error_target.
  - rewrite (process_file_recorded fp env s w f) by done. cbn [fst snd].
    rewrite decide_True by done.
    match goal with
    | |- context [process_files fp env (?s1, ?w1) l] =>
        destruct (IH s1 w1) as (I1 & I2 & I3 & I4 & I5 & I6 & I7);
          [intros g Hg; apply Henv; by right|done| |]
    end.
    + intros g Hg. destruct (Hq g) as [Hqg Hng]; [by right|]. cbn [db target].
      split; [|rewrite lookup_insert_ne; [done|]; intros Heq; by apply (Hne g)].
      apply is_file_processed_false. cbn [Database.processed_files].
      rewrite fmap_app. cbn [fmap list_fmap record_of Database.pf_filename].
      intros [Hin|Hin%list_elem_of_singleton]%elem_of_app; [|by apply (Hne g)].
      by apply is_file_processed_false in Hqg.
    + rewrite I1, I2, I3, I4, I5.
      cbn [files_processed files_errors count_processed db target omap list_omap
           Database.processed_files Database.errors length].
      rewrite Hi. cbn [fmap option_fmap option_map].
      rewrite !fmap_app, !fmap_cons, <- !app_assoc.
      cbn [fmap list_fmap record_of Database.pf_filename app length Nat.sub].
      split_and!; try done.
      * intros g [->|Hg]%elem_of_cons; [|by apply I6].
        rewrite Hi, I7 by done. cbn [target]. by rewrite lookup_insert_eq.
      * intros k [Hkf Hk]%not_elem_of_cons. rewrite I7 by done. cbn [target].
        by rewrite lookup_insert_ne.
Qed.

(** C4, amended: when the copy of a file succeeded and the insert of its
    record fails, the step adds no record and does not count the file as
    processed; it unlinks the copy and logs the failure in the error table
    under the type DB_ERROR, which is not the type of a copy failure.
    When both succeed, the target directory is as before the copy, the
    file is counted as an error, and the loop goes on: the files after it
    whose copy is whole and whose insert is accepted are copied and
    recorded.  When the [unlink] raises, its exception leaves the loop,
    the copy stays without a record, and no later file is visited; when
    the logging raises, its exception leaves the loop likewise, with the
    copy removed and nothing logged. *)
Theorem insert_failure_rolls_back fp env s w f rest msg :
  dry_run fp = false →
  Database.is_file_processed (db w) (name f) = false →
  target w !! name f = None →
  copy2 env f = Written (st_size f) →
  insert_fault env (name f) = Some msg →
  let r := process_file fp env (s, w) f in
  let all := process_files fp env (s, w) (f :: rest) in
  _copy_file fp env (target w) f (name f)
  = ((true, None), <[name f := TFile (st_size f)]> (target w))
  ∧ Database.processed_files (db r.2.2) = Database.processed_files (db w)
  ∧ processed r.2.1 = processed s ∧ files_processed r.2.1 = files_processed s
  ∧ "DB_ERROR" ≠ "COPY_ERROR"
  ∧ (unlink_fault env (name f) = None → log_fault env (name f) = None →
     r.1 = None ∧ target r.2.2 = target w
     ∧ Database.errors (db r.2.2)
       = Database.errors (db w)
         ++ [{| Database.er_id := Database.errors_seq (db w) + 1;
                Database.er_timestamp := clock env (S (ticks w));
                Database.er_filename := name f;
                Database.er_error_type := "DB_ERROR";
                Database.er_error_message := msg |}]
     ∧ r.2.1 = count_error s (name f) msg
     ∧ errors r.2.1 = errors s + 1
     ∧ all = process_files fp env r.2 rest
     ∧ ((∀ g, g ∈ rest →
              copy2 env g = Written (st_size g)
              ∧ unlink_fault env (name g) = None ∧ log_fault env (name g) = None
              ∧ Database.is_file_processed (db w) (name g) = false
              ∧ target w !! name g = None) →
        NoDup (name <$> f :: rest) →
        all.1 = None
        ∧ files_processed all.2.1
          = files_processed s
            ++ (name <$> filter (λ g, insert_fault env (name g) = None) rest)
        ∧ ∀ g, g ∈ rest → insert_fault env (name g) = None →
               target all.2.2 !! name g = Some (TFile (st_size g))
               ∧ Database.is_file_processed (db all.2.2) (name g) = true))
  ∧ (∀ k um, unlink_fault env (name f) = Some (k, um) →
       r = (Some (UnlinkExn k um),
            (s, tick (with_target w (<[name f := TFile (st_size f)]> (target w)))))
       ∧ all = r)
  ∧ (unlink_fault env (name f) = None →
     ∀ lm, log_fault env (name f) = Some lm →
       r = (Some (StoreExn (Database.OperationalError lm)), (s, tick (tick w)))
       ∧ all = r).
Proof.
  intros Hdry Hq Hn Hc Hi r all. unfold all, r. clear all r.
  rewrite process_files_cons.
  rewrite (process_file_insert_fault fp env s w f msg) by done.
  split_and!.
  - unfold _copy_file. rewrite Hn, Hdry, Hc.
    by rewrite bool_decide_eq_false_2 by (intros ?; done).
  - destruct (unlink_fault env (name f)) as [[k um]|]; [done|].
    destruct (log_fault env (name f)); cbn [fst snd];
      rewrite ?db_log_error_processed_files; done.
  - destruct (unlink_fault env (name f)) as [[k um]|]; [done|].
    by destruct (log_fault env (name f)).
  - destruct (unlink_fault env (name f)) as [[k um]|]; [done|].
    by destruct (log_fault env (name f)).
  - done.
  - intros Hu Hl. rewrite Hu, Hl. cbn [fst snd].
    rewrite db_log_error_target, db_log_error_errors by done.
    split_and!; try done.
    intros Hrest Hnd.
    pose proof (process_files_insert_faults fp env (f :: rest) s w Hdry) as Hall.
    rewrite process_files_cons in Hall.
    rewrite (process_file_insert_fault fp env s w f msg) in Hall by done.
    rewrite Hu, Hl in Hall. cbn [fst snd] in Hall.
    destruct Hall as (H1 & H2 & _ & H4 & _ & H6 & _).
    + intros g [->|Hg]%elem_of_cons; [done|]. by destruct (Hrest g) as (? & ? & ? & _).
    + done.
    + intros g [->|Hg]%elem_of_cons; [done|].
      by destruct (Hrest g) as (_ & _ & _ & ? & ?).
    + rewrite filter_cons, decide_False in H2, H4 by congruence.
      split_and!; [done..|]. intros g Hg Hgi. split.
      * rewrite H6 by (by right). by rewrite Hgi.
      * apply is_file_processed_true. rewrite H4. apply elem_of_app. right.
        apply list_elem_of_fmap_2, list_elem_of_filter. done.
  - intros k um Hu. by rewrite Hu.
  - intros Hu lm Hl. by rewrite Hu, Hl.
Qed.

(** The store is locked when [a.txt] is to be recorded, and takes the
    error entry: the step leaves no copy and no record, and one DB_ERROR
    entry, and the loop copies and records [b.jpg]. *)
Lemma insert_failure_rolls_back_witness :
  let f := file [] "a.txt" 5 in
  let g := file [] "b.jpg" 20 in
  let r := process_file (processor 10 false) env_locked (stats0, world0) f in
  let all := process_files (processor 10 false) env_locked (stats0, world0) [f; g] in
  insert_fault env_locked (name f) = Some "database is locked"
  ∧ target r.2.2 = target world0
  ∧ Database.er_error_type <$> Database.errors (db r.2.2) = ["DB_ERROR"]
  ∧ errors r.2.1 = 1 ∧ processed r.2.1 = 0
  ∧ files_processed all.2.1 = ["b.jpg"]
  ∧ target all.2.2 !! "b.jpg" = Some (TFile 20).
Proof.
  intros f g r all.
  destruct (insert_failure_rolls_back (processor 10 false) env_locked stats0 world0
              f [g] "database is locked")
    as (_ & _ & Hp & _ & _ & Hok & _); [reflexivity..|].
  destruct (Hok eq_refl eq_refl) as (_ & Htgt & Herr & _ & He & _ & Hrest).
  destruct Hrest as (_ & Hfp & Hg).
  { intros g' ->%list_elem_of_singleton. split_and!; reflexivity. }
  { apply (bool_decide_unpack _). vm_compute. exact I. }
  destruct (Hg g) as [Hgt _]; [by left|reflexivity|].
  fold r in Htgt, Herr, He, Hp. fold all in Hfp, Hgt.
  split; [reflexivity|]. split; [exact Htgt|].
  split; [by rewrite Herr|]. split; [exact He|]. split; [exact Hp|].
  split; [exact Hfp|exact Hgt].
Defined.

(** C4 as stated fails when the database is locked for the error entry
    too: [process_batch] raises, no DB_ERROR entry is written and the
    batch does not go on to [b.jpg]. *)
Lemma insert_failure_rolls_back_counterexample :
  let r := process_batch (H:=glob_star) (processor 10 false) env_locked_out
             src_abc world0 in
  files_to_process (H:=glob_star) (processor 10 false) src_abc (db world0)
  = [file [] "a.txt" 5; file [] "b.jpg" 20]
  ∧ r.1 = Raises (StoreExn (Database.OperationalError "database is locked"))
  ∧ Database.errors (db r.2) = []
  ∧ target r.2 !! "a.txt" = None
  ∧ target r.2 !! "b.jpg" = None.
Proof. split_and!; vm_compute; reflexivity. Qed.

(** ** Simulation mode against real mode *)

Lemma files_to_process_with_dry_run `{Fnmatch} fp b src d :
  files_to_process (with_dry_run fp b) src d = files_to_process fp src d.
Proof. reflexivity. Qed.

(** In simulation mode the loop counts the files whose target name is
    free and changes nothing. *)
Lemma process_files_dry_count fp env l s w :
  dry_run fp = true →
  (∀ f, f ∈ l → Database.is_file_processed (db w) (name f) = false) →
  let r := process_files fp env (s, w) l in
  r.1 = None ∧ r.2.2 = w
  ∧ processed r.2.1
    = processed s + Z.of_nat (length (filter (λ f, target w !! name f = None) l)).
Proof.
  intros Hdry. revert s. induction l as [|f l IH]; intros s Hq.
  { cbn [process_files fst snd]. rewrite filter_nil. simpl. split_and!; [done..|lia]. }
  assert (Database.is_file_processed (db w) (name f) = false) as Hf
    by (apply Hq; by left).
  cbv zeta. rewrite process_files_cons, filter_cons.
  destruct (target w !! name f) as [e|] eqn:Hn.
  - rewrite (process_file_copy_failed fp env s w f _ _ Hf
               (_copy_file_target_exists fp env w f e Hn)), Hdry.
    rewrite with_target_same. cbn [fst snd].
    rewrite decide_False by done.
    edestruct IH as (Hflow & Hw & Hc); [|split_and!; [exact Hflow|exact Hw|rewrite Hc; done]].
    intros g Hg. apply Hq. by right.
  - rewrite process_file_dry_ok by done. cbn [fst snd]. rewrite decide_True by done.
    destruct (IH (count_processed s (name f) (st_size f))) as (-> & -> & ->).
    { intros g Hg. apply Hq. by right. }
    split_and!; [done..|]. simpl. lia.
Qed.

(** In real mode, when every copy is whole and the store accepts every
    insert, the loop over files with distinct names raises nothing and
    processes exactly the files whose target name is free. *)
Lemma process_files_real_count fp env l s w :
  dry_run fp = false → faithful env → NoDup (name <$> l) →
  (∀ f, f ∈ l → Database.is_file_processed (db w) (name f) = false) →
  let r := process_files fp env (s, w) l in
  r.1 = None
  ∧ processed r.2.1
    = processed s + Z.of_nat (length (filter (λ f, target w !! name f = None) l)).
Proof.
  intros Hdry Hfaith. revert s w.
  induction l as [|f l IH]; intros s w Hnd Hq.
  { cbn [process_files fst snd]. rewrite filter_nil. simpl. split; [done|lia]. }
  rewrite fmap_cons in Hnd. apply NoDup_cons in Hnd as [Hf Hnd].
  assert (Database.is_file_processed (db w) (name f) = false) as Hqf
    by (apply Hq; by left).
  destruct (Hfaith f) as (Hc & Hi & Hl).
  cbv zeta. rewrite process_files_cons, filter_cons.
  destruct (target w !! name f) as [e|] eqn:Hn.
  - rewrite (process_file_copy_failed fp env s w f _ _ Hqf
               (_copy_file_target_exists fp env w f e Hn)), Hdry, Hl.
    rewrite with_target_same. cbn [fst snd].
    rewrite decide_False by done.
    match goal with
    | |- context [process_files fp env (?s1, ?w1) l] =>
        destruct (IH s1 w1) as [Hflow Hcount]; [done| |]
    end.
    + intros g Hg. unfold Database.is_file_processed.
      rewrite db_log_error_processed_files. apply Hq. by right.
    + rewrite Hflow, Hcount. split; [done|]. cbn [processed count_error].
      rewrite (list_filter_ext_in _ (λ f0, target w !! name f0 = None)); [done|].
      intros g Hg. by rewrite db_log_error_target.
  - rewrite (process_file_recorded fp env s w f) by done. cbn [fst snd].
    rewrite decide_True by done.
    match goal with
    | |- context [process_files fp env (?s1, ?w1) l] =>
        destruct (IH s1 w1) as [Hflow Hcount]; [done| |]
    end.
    + intros g Hg. cbn [db]. apply is_file_processed_false.
      cbn [Database.processed_files]. rewrite fmap_app.
      cbn [fmap list_fmap record_of Database.pf_filename].
      intros [Hin|Hin]%elem_of_app.
      * assert (Database.is_file_processed (db w) (name g) = false) as Hqg
          by (apply Hq; by right).
        by apply is_file_processed_false in Hqg.
      * apply list_elem_of_singleton in Hin. apply Hf. rewrite <- Hin.
        by apply list_elem_of_fmap_2.
    + rewrite Hflow, Hcount. split; [done|]. cbn [processed count_processed target].
      rewrite (list_filter_ext_in _ (λ f0, target w !! name f0 = None)); [simpl; lia|].
      intros g Hg. rewrite lookup_insert_ne; [done|].
      intros Heq. apply Hf. rewrite Heq. by apply list_elem_of_fmap_2.
Qed.

(** C5, amended: in simulation mode [process_batch] leaves the target
    directory and the record store (records and error entries) as they
    are; it selects the files that real mode would select, and the
    processed count of its result is the number of selected files whose
    target name is free; it returns whenever the query of the unprocessed
    names is within the limit of the store.  This count is the count of
    real mode when the selected files have distinct base names and, in
    real mode, every copy is whole and every insert is accepted. *)
Theorem dry_run_changes_nothing `{Fnmatch} fp env src w :
  dry_run fp = true →
  let r := process_batch fp env src w in
  target r.2 = target w ∧ db r.2 = db w
  ∧ files_to_process fp src (db w) = files_to_process (with_dry_run fp false) src (db w)
  ∧ (∀ result, r.1 = Returned result →
       processed result
       = Z.of_nat (length (filter (λ f, target w !! name f = None)
                                  (files_to_process fp src (db w)))))
  ∧ (within_variable_limit fp src env → ∃ result, r.1 = Returned result)
  ∧ ∀ env',
      faithful env' → NoDup (name <$> files_to_process fp src (db w)) →
      within_variable_limit fp src env' →
      ∃ result',
        (process_batch (with_dry_run fp false) env' src w).1 = Returned result'
        ∧ processed result'
          = Z.of_nat (length (filter (λ f, target w !! name f = None)
                                     (files_to_process fp src (db w))))
        ∧ ∀ result, r.1 = Returned result → processed result' = processed result.
Proof.
  intros Hdry r.
  pose proof (files_to_process_elem fp src (db w)) as Hbatch.
  assert (∀ l, (l = [] ∨ l = files_to_process fp src (db w)) →
               let rl := process_files fp env (stats0, tick w) l in
               rl.1 = None ∧ rl.2.2 = tick w
               ∧ processed rl.2.1
                 = Z.of_nat (length (filter (λ f, target w !! name f = None) l)))
    as Hloop.
  { intros l Hl.
    destruct (process_files_dry_count fp env l stats0 (tick w) Hdry) as (? & ? & ?);
      [|done].
    intros g Hg. destruct Hl as [->| ->]; [by apply elem_of_nil in Hg|].
    by apply Hbatch. }
  assert (∀ result, r.1 = Returned result →
            processed result
            = Z.of_nat (length (filter (λ f, target w !! name f = None)
                                       (files_to_process fp src (db w))))) as Hcount.
  { intros result [_ [(-> & -> & _)|(_ & _ & -> & _)]]%process_batch_returned; [done|].
    change (processed (set_duration ?s _)) with (processed s).
    by destruct (Hloop _ (or_intror eq_refl)) as (_ & _ & ->). }
  split_and!.
  - destruct (process_batch_world fp env src w) as (l & Hl & Ht & _).
    fold r in Ht. rewrite Ht. by destruct (Hloop l Hl) as (_ & -> & _).
  - destruct (process_batch_world fp env src w) as (l & Hl & _ & Hd & _).
    fold r in Hd. rewrite Hd. by destruct (Hloop l Hl) as (_ & -> & _).
  - done.
  - done.
  - intros Hlim. apply process_batch_returns; [done|].
    by destruct (Hloop _ (or_intror eq_refl)) as (? & _).
  - intros env' Hfaith Hnd Hlim.
    destruct (process_files_real_count (with_dry_run fp false) env'
                (files_to_process fp src (db w)) stats0 (tick w))
      as [Hflow Hreal]; [done..|by intros g Hg; apply Hbatch|].
    destruct (process_batch_returns (with_dry_run fp false) env' src w)
      as [result' Hret']; [done|by rewrite files_to_process_with_dry_run|].
    exists result'. split; [done|].
    assert (processed result'
            = Z.of_nat (length (filter (λ f, target w !! name f = None)
                                       (files_to_process fp src (db w))))) as Hp.
    { apply process_batch_returned in Hret'
        as [_ [(Hnil & -> & _)|(_ & _ & -> & _)]].
      - rewrite files_to_process_with_dry_run in Hnil. by rewrite Hnil.
      - change (processed (set_duration ?s _)) with (processed s).
        rewrite files_to_process_with_dry_run. by rewrite Hreal. }
    split; [done|]. intros result Hret. by rewrite Hp, (Hcount result Hret).
Qed.

(** On the source [src_abc] the simulation reports 2 processed
    files, as the real run does, and writes nothing. *)
Lemma dry_run_changes_nothing_witness :
  let r := process_batch (H:=glob_star) (processor 10 true) env_ok src_abc world0 in
  dry_run (processor 10 true) = true
  ∧ target r.2 = ∅ ∧ db r.2 = Database._initialize_database
  ∧ ∃ result result',
      r.1 = Returned result ∧ processed result = 2
      ∧ (process_batch (H:=glob_star) (processor 10 false) env_ok src_abc world0).1
        = Returned result'
      ∧ processed result' = processed result.
Proof.
  intros r.
  destruct (dry_run_changes_nothing (H:=glob_star) (processor 10 true) env_ok
              src_abc world0 eq_refl) as (Ht & Hd & _ & Hc & Hret & Hreal).
  fold r in Ht, Hd, Hc, Hret, Hreal.
  split; [reflexivity|]. split; [exact Ht|]. split; [exact Hd|].
  destruct Hret as [result Hresult]; [vm_compute; lia|].
  destruct (Hreal env_ok) as (result' & Hresult' & _ & Hsame).
  - intros f. split_and!; reflexivity.
  - apply (bool_decide_unpack _). vm_compute. exact I.
  - vm_compute. lia.
  - exists result, result'. split; [exact Hresult|].
    split; [exact (Hc result Hresult)|].
    split; [exact Hresult'|exact (Hsame result Hresult)].
Defined.

(** C5 as stated fails: two source files with one base name are both
    counted by the simulation, while the real run copies the first and
    skips the second. *)
Lemma dry_run_changes_nothing_counterexample :
  (∃ result,
     (process_batch (H:=glob_star) (processor 10 true) env_ok src_dup world0).1
     = Returned result ∧ processed result = 2)
  ∧ ∃ result,
      (process_batch (H:=glob_star) (processor 10 false) env_ok src_dup world0).1
      = Returned result ∧ processed result = 1 ∧ skipped result = 1.
Proof. split; eexists; split_and!; vm_compute; reflexivity. Qed.

(** ** Repeated runs against one source directory *)

Lemma filter_fmap_name (P : string → Prop) `{!∀ n, Decision (P n)}
    (l : list SourceEntry) :
  name <$> filter (λ f, P (name f)) l = filter P (name <$> l).
Proof.
  induction l as [|f l IH]; [done|].
  rewrite fmap_cons, !filter_cons. case_decide; [|done].
  by rewrite fmap_cons, IH.
Qed.

Lemma filter_not_in_take {A} `{!EqDecision A} (l : list A) (k : nat) :
  NoDup l → filter (λ x, x ∉ take k l) l = drop k l.
Proof.
  revert k. induction l as [|a l IH]; intros k Hnd.
  { by rewrite drop_nil. }
  apply NoDup_cons in Hnd as [Ha Hnd]. destruct k as [|k]; simpl.
  { apply list_filter_all. intros x _. apply not_elem_of_nil. }
  rewrite filter_cons, decide_False by (intros Hn; apply Hn; by left).
  rewrite <- IH by done. apply list_filter_ext_in. intros x Hx.
  rewrite not_elem_of_cons. split; [tauto|]. intros Hn. split; [|done].
  intros ->. done.
Qed.

Lemma pending_filter `{Fnmatch} fp src d :
  pending fp src d
  = filter (λ n, Database.is_file_processed d n = false)
           (name <$> get_source_files fp src).
Proof. apply unprocessed_filter. Qed.

Lemma files_to_process_names `{Fnmatch} fp src d :
  0 < batch_size fp →
  name <$> files_to_process fp src d
  = take (Z.to_nat (batch_size fp)) (pending fp src d).
Proof.
  intros Hbs. rewrite files_to_process_spec, fmap_take by done.
  by rewrite pending_filter,
    <- (filter_fmap_name (λ n, Database.is_file_processed d n = false)).
Qed.

Lemma select_files_nothing bs src acc : select_files bs [] src acc = acc.
Proof.
  revert acc. induction src as [|f src IH]; intros acc; simpl; [done|].
  rewrite ?bool_decide_eq_false_2 by apply not_elem_of_nil. apply IH.
Qed.

(** With nothing pending a call whose query is within the limit returns
    the zeroed statistics and only reads the clock. *)
Lemma process_batch_done `{Fnmatch} fp env src w :
  pending fp src (db w) = [] → within_variable_limit fp src env →
  process_batch fp env src w = (Returned stats0, tick w).
Proof.
  intros Hp Hlim. rewrite process_batch_unfold.
  rewrite bool_decide_eq_false_2 by (unfold within_variable_limit in Hlim; lia).
  unfold files_to_process. unfold pending in Hp. by rewrite Hp, select_files_nothing.
Qed.

Lemma run_batches_cons `{Fnmatch} fp src env envs w :
  run_batches fp src (env :: envs) w
  = ((process_batch fp env src w).1
       :: (run_batches fp src envs (process_batch fp env src w).2).1,
     (run_batches fp src envs (process_batch fp env src w).2).2).
Proof.
  cbn [run_batches]. destruct (process_batch fp env src w) as [s w1].
  cbn [fst snd]. by destruct (run_batches fp src envs w1).
Qed.

Lemma run_batches_done `{Fnmatch} fp src envs w :
  pending fp src (db w) = [] → Forall (within_variable_limit fp src) envs →
  Forall (λ o, o = Returned stats0) (run_batches fp src envs w).1.
Proof.
  intros Hp Hlim. revert w Hp.
  induction Hlim as [|env envs Henv _ IH]; intros w Hp; [constructor|].
  rewrite run_batches_cons, process_batch_done by done. cbn [fst snd].
  constructor; [done|]. by apply IH.
Qed.

(** One faithful run: it returns, having processed the first
    [batch_size] pending names, and leaves the others pending, their
    target names still free. *)
Lemma process_batch_faithful `{Fnmatch} fp env src w :
  dry_run fp = false → 0 < batch_size fp → faithful env →
  within_variable_limit fp src env →
  NoDup (name <$> get_source_files fp src) →
  (∀ n, n ∈ pending fp src (db w) → target w !! n = None) →
  let r := process_batch fp env src w in
  let k := Z.to_nat (batch_size fp) in
  (∃ result, r.1 = Returned result
             ∧ files_processed result = take k (pending fp src (db w))
             ∧ processed result = Z.of_nat (length (take k (pending fp src (db w))))
             ∧ skipped result = 0 ∧ errors result = 0)
  ∧ pending fp src (db r.2) = drop k (pending fp src (db w))
  ∧ (∀ n, n ∈ pending fp src (db r.2) → target r.2 !! n = None).
Proof.
  intros Hdry Hbs Hfaith Hlim Hnd Hfree r k.
  assert (NoDup (pending fp src (db w))) as Hndp.
  { rewrite pending_filter. by apply NoDup_filter. }
  pose proof (files_to_process_names fp src (db w) Hbs) as Hnames.
  pose proof (files_to_process_elem fp src (db w)) as Hbatch.
  fold k in Hnames.
  destruct (process_files_faithful fp env (files_to_process fp src (db w)) stats0
              (tick w) Hdry Hfaith)
    as (Hflow & Hfp & Hproc & Hskip & Herr & Hpf & _ & Hcopied & Hframe).
  { rewrite Hnames. eapply sublist_NoDup; [exact Hndp|apply sublist_take]. }
  { intros g Hg. split; [by apply Hbatch|]. cbn [tick target]. apply Hfree.
    eapply elem_of_sublist; [|apply (sublist_take _ k)].
    rewrite <- Hnames. by apply list_elem_of_fmap_2. }
  destruct (process_batch_returns fp env src w) as [result Hret]; [done..|].
  fold r in Hret.
  pose proof Hret as Hshape. apply process_batch_returned in Hshape as [_ Hshape].
  fold r in Hshape.
  assert (files_processed result = take k (pending fp src (db w))
          ∧ processed result = Z.of_nat (length (take k (pending fp src (db w))))
          ∧ skipped result = 0 ∧ errors result = 0
          ∧ pf_names (db r.2) = pf_names (db w) ++ take k (pending fp src (db w))
          ∧ ∀ n, n ∉ take k (pending fp src (db w)) → target r.2 !! n = target w !! n)
    as (Hfp' & Hproc' & Hskip' & Herr' & Hpf' & Hframe').
  { destruct Hshape as [(Hnil & -> & ->)|(_ & _ & -> & ->)].
    - rewrite Hnil in Hnames. simpl in Hnames. rewrite <- Hnames.
      cbn [tick db target]. rewrite app_nil_r. done.
    - cbn [files_processed processed skipped errors set_duration tick db target].
      rewrite Hfp, Hproc, Hskip, Herr, Hpf, <- Hnames, length_fmap.
      split_and!; try done. }
  split; [exists result; done|].
  assert (pending fp src (db r.2) = drop k (pending fp src (db w))) as Hpend.
  { rewrite <- filter_not_in_take by done. rewrite !pending_filter.
    rewrite list_filter_filter. apply list_filter_iff. intros n.
    rewrite !is_file_processed_false, Hpf', not_elem_of_app.
    rewrite <- pending_filter. tauto. }
  split; [done|]. intros n Hn. rewrite Hpend in Hn.
  rewrite Hframe'.
  - apply Hfree. eapply elem_of_sublist; [exact Hn|apply sublist_drop].
  - intros Hin. rewrite <- (take_drop k (pending fp src (db w))) in Hndp.
    apply NoDup_app in Hndp as (_ & Hdisj & _). by apply (Hdisj n).
Qed.

(** Faithful runs all return, and work through the pending names from the
    front, [batch_size] names per run. *)
Lemma run_batches_faithful `{Fnmatch} fp src envs w :
  dry_run fp = false → 0 < batch_size fp →
  NoDup (name <$> get_source_files fp src) →
  Forall faithful envs → Forall (within_variable_limit fp src) envs →
  (∀ n, n ∈ pending fp src (db w) → target w !! n = None) →
  let r := run_batches fp src envs w in
  let k := (length envs * Z.to_nat (batch_size fp))%nat in
  ∃ ss, r.1 = Returned <$> ss
        ∧ concat (files_processed <$> ss) = take k (pending fp src (db w))
        ∧ total_processed ss = Z.of_nat (length (take k (pending fp src (db w))))
        ∧ pending fp src (db r.2) = drop k (pending fp src (db w)).
Proof.
  intros Hdry Hbs Hnd Henvs Hlims. revert w Hlims.
  induction Henvs as [|env envs Hfaith _ IH]; intros w Hlims Hfree.
  { exists []. simpl. by rewrite take_0, drop_0. }
  apply Forall_cons in Hlims as [Hlim Hlims].
  destruct (process_batch_faithful fp env src w)
    as ((result & Hret & Hfp & Hproc & _) & Hpend & Hfree1); try done.
  destruct (IH _ Hlims Hfree1) as (ss & Hss & Hc & Ht & Hp).
  exists (result :: ss). rewrite run_batches_cons. cbn [fst snd length Nat.mul].
  rewrite Hret, Hss, Hp, Hpend.
  rewrite !fmap_cons. cbn [concat total_processed foldr].
  fold (total_processed ss). rewrite Hc, Ht, Hfp, Hproc, Hpend.
  split_and!.
  - done.
  - apply take_take_drop.
  - rewrite <- Nat2Z.inj_add, <- length_app. by rewrite take_take_drop.
  - by rewrite drop_drop.
Qed.

(** C1, amended: let the non-excluded source files have distinct base
    names and be no more than the variables that the store allows in one
    query, let no file of the target directory bear the name of a source
    file that has no record yet, and let every copy be whole and every
    insert be accepted.  Then, for a batch size of at least 1, enough calls
    of [process_batch] in real mode all return and process every file
    that had no record, each exactly once and in the order of the names;
    afterwards every non-excluded source file has a record, and every
    further call returns the zeroed statistics, so [processed = 0]. *)
Theorem repeated_batches_process_once `{Fnmatch} fp src envs w :
  dry_run fp = false → 1 ≤ batch_size fp →
  NoDup (name <$> get_source_files fp src) →
  (∀ n, n ∈ pending fp src (db w) → target w !! n = None) →
  Forall faithful envs → Forall (within_variable_limit fp src) envs →
  (length (pending fp src (db w)) ≤ length envs * Z.to_nat (batch_size fp))%nat →
  let r := run_batches fp src envs w in
  ∃ ss,
    r.1 = Returned <$> ss
    ∧ concat (files_processed <$> ss) = pending fp src (db w)
    ∧ NoDup (concat (files_processed <$> ss))
    ∧ total_processed ss = Z.of_nat (length (pending fp src (db w)))
    ∧ (∀ f, f ∈ get_source_files fp src →
            Database.is_file_processed (db r.2) (name f) = true)
    ∧ ∀ more, Forall (within_variable_limit fp src) more →
              Forall (λ o, o = Returned stats0 ∧ processed stats0 = 0)
                     (run_batches fp src more r.2).1.
Proof.
  intros Hdry Hbs Hnd Hfree Henvs Hlims Hlen r.
  destruct (run_batches_faithful fp src envs w) as (ss & Hss & Hc & Ht & Hp);
    try done; [lia|].
  fold r in Hss, Hp. rewrite take_ge in Hc, Ht by done. rewrite drop_ge in Hp by done.
  exists ss. split_and!.
  - done.
  - done.
  - rewrite Hc, pending_filter. by apply NoDup_filter.
  - done.
  - intros f Hf.
    destruct (Database.is_file_processed (db r.2) (name f)) eqn:Hq; [done|].
    assert (name f ∈ pending fp src (db r.2)) as Hin.
    { rewrite pending_filter. apply list_elem_of_filter. split; [done|].
      by apply list_elem_of_fmap_2. }
    rewrite Hp in Hin. by apply elem_of_nil in Hin.
  - intros more Hmore. eapply Forall_impl; [by apply run_batches_done|].
    by intros s ->.
Qed.

(** The source [src_abc] with a batch size of 1: three runs
    process [a.txt], then [b.jpg], then nothing. *)
Lemma repeated_batches_process_once_witness :
  let fp := processor 1 false in
  let r := run_batches (H:=glob_star) fp src_abc [env_ok; env_ok; env_ok] world0 in
  pending (H:=glob_star) fp src_abc (db world0) = ["a.txt"; "b.jpg"]
  ∧ ∃ ss, r.1 = Returned <$> ss
          ∧ concat (files_processed <$> ss) = ["a.txt"; "b.jpg"]
          ∧ total_processed ss = 2
          ∧ Forall (λ o, o = Returned stats0 ∧ processed stats0 = 0)
                   (run_batches (H:=glob_star) fp src_abc [env_ok] r.2).1.
Proof.
  intros fp r. split; [reflexivity|].
  destruct (repeated_batches_process_once (H:=glob_star) fp src_abc
              [env_ok; env_ok; env_ok] world0)
    as (ss & Hss & Hc & _ & Ht & _ & Hmore).
  - reflexivity.
  - vm_compute. discriminate.
  - apply (bool_decide_unpack _). vm_compute. exact I.
  - intros n _. reflexivity.
  - repeat constructor; reflexivity.
  - repeat (constructor; [vm_compute; lia|]). constructor.
  - vm_compute. lia.
  - exists ss. fold r in Hss, Hmore. split; [exact Hss|]. split; [exact Hc|].
    split; [exact Ht|]. apply Hmore.
    constructor; [vm_compute; lia|constructor].
Defined.

Lemma total_processed_zero ss :
  Forall (λ s, s = stats0) ss → total_processed ss = 0.
Proof. induction 1 as [|s ss -> _ IH]; simpl; [done|]. by rewrite IH. Qed.

Lemma all_returned_zero (l : list Outcome) :
  Forall (λ o, o = Returned stats0) l
  → l = Returned <$> replicate (length l) stats0.
Proof. induction 1 as [|o l -> _ IH]; simpl; [done|]. by f_equal. Qed.

(** C1 as stated fails: with two source files of one base name in two
    subdirectories, an empty target directory and an empty store, every
    copy whole and every insert accepted, any number of runs with a batch
    size of 1 returns and processes one file in total, and [b/x.txt] is
    never copied: after the first run every call returns
    [processed = 0]. *)
Lemma repeated_batches_process_once_counterexample :
  length (get_source_files (H:=glob_star) (processor 1 false) src_dup) = 2%nat
  ∧ ∀ k, ∃ ss,
      (run_batches (H:=glob_star) (processor 1 false) src_dup
         (replicate k env_ok) world0).1 = Returned <$> ss
      ∧ total_processed ss ≤ 1.
Proof.
  split; [reflexivity|]. intros [|k]; [exists []; split; [done|simpl; lia]|].
  cbn [replicate]. rewrite run_batches_cons.
  destruct (process_batch (H:=glob_star) (processor 1 false) env_ok src_dup world0)
    as [s1 w1] eqn:Hrun.
  vm_compute in Hrun. injection Hrun as Hs1 <-. cbn [fst snd].
  destruct s1 as [s1|]; [|discriminate]. injection Hs1 as Hs1.
  match goal with
  | |- context [run_batches ?fp ?src ?envs ?w] =>
      pose proof (run_batches_done (H:=glob_star) fp src envs w eq_refl) as Hdone
  end.
  match type of Hdone with
  | ?P → _ => assert P as Hlims
  end.
  { apply Forall_forall. intros env Henv.
    apply elem_of_replicate in Henv as [-> _]. vm_compute. lia. }
  specialize (Hdone Hlims).
  apply all_returned_zero in Hdone. rewrite Hdone.
  match goal with
  | |- context [replicate ?n stats0] => exists (s1 :: replicate n stats0)
  end.
  subst s1. split; [done|].
  unfold total_processed. cbn [foldr].
  match goal with
  | |- context [foldr _ 0 ?l] => change (foldr _ 0 l) with (total_processed l)
  end.
  rewrite total_processed_zero; [simpl; lia|].
  apply Forall_forall. by intros x [-> _]%elem_of_replicate.
Qed.

(** * Further properties of the code *)

(** ** The queries of the record store *)

Lemma insert_by_date_perm r l : insert_by_date r l ≡ₚ r :: l.
Proof.
  induction l as [|y l IH]; simpl; [done|].
  case_bool_decide; [done|]. rewrite IH. apply Permutation_swap.
Qed.

Lemma order_by_copy_date_desc_perm l : order_by_copy_date_desc l ≡ₚ l.
Proof.
  induction l as [|r l IH]; simpl; [done|].
  by rewrite insert_by_date_perm, IH.
Qed.

Lemma order_by_copy_date_desc_sorted l :
  StronglySorted (λ a b, Database.pf_copy_date b ≤ Database.pf_copy_date a)
                 (order_by_copy_date_desc l).
Proof.
  induction l as [|r l IH]; simpl; [constructor|].
  induction IH as [|y l' Hs IH Hy]; simpl; [repeat constructor|].
  case_bool_decide as Hle.
  - constructor; [by constructor|]. constructor; [done|].
    eapply Forall_impl; [exact Hy|]. simpl. intros z Hz. lia.
  - constructor; [done|]. rewrite insert_by_date_perm.
    constructor; [lia|done].
Qed.

(** X1: a query of [get_unprocessed_files] with no more names than the
    store allows variables returns the argument without the names that
    have a record: the same names in the same order, each as often as the
    argument has it.  So its answer is a sublist of the argument, asking
    again about the answer changes nothing, and a store without records
    returns the argument.  A query with more names raises
    OperationalError, and an empty one returns the empty list whatever
    the limit. *)
Theorem get_unprocessed_files_sublist env (d : Database.DatabaseManager)
    (l : list string) :
  let kept := filter (λ n, Database.is_file_processed d n = false) l in
  ((length l ≤ max_variable_number env)%nat →
   Database.get_unprocessed_files env d l = inr kept
   ∧ Database.get_unprocessed_files env d kept = inr kept)
  ∧ ((max_variable_number env < length l)%nat →
     Database.get_unprocessed_files env d l
     = inl (Database.OperationalError "too many SQL variables"))
  ∧ Database.get_unprocessed_files env d [] = inr []
  ∧ kept `sublist_of` l
  ∧ (∀ n, n ∈ kept ↔ n ∈ l ∧ Database.is_file_processed d n = false)
  ∧ (∀ n, length (filter (λ x, x = n) kept)
          = if Database.is_file_processed d n then 0%nat
            else length (filter (λ x, x = n) l))
  ∧ (Database.processed_files d = [] → kept = l).
Proof.
  intros kept. split_and!.
  - intros Hlen. rewrite !get_unprocessed_files_runs, !unprocessed_filter.
    + split; [done|]. f_equal. apply list_filter_all.
      by intros n [? _]%list_elem_of_filter.
    + etrans; [|exact Hlen]. apply sublist_length, sublist_filter.
    + done.
  - apply get_unprocessed_files_raises.
  - done.
  - apply sublist_filter.
  - intros n. unfold kept. rewrite list_elem_of_filter. tauto.
  - intros n. unfold kept. rewrite list_filter_filter.
    destruct (Database.is_file_processed d n) eqn:Hq.
    + replace (filter _ l) with (@nil string); [done|]. symmetry.
      apply elem_of_nil_inv. intros x [[-> Hx] _]%list_elem_of_filter. congruence.
    + f_equal. apply list_filter_ext_in. intros x _. split; [tauto|].
      intros ->. done.
  - intros Hnil. apply list_filter_all. intros n _.
    apply is_file_processed_false. rewrite Hnil. apply not_elem_of_nil.
Qed.

Lemma count_records_zero d n :
  Database.is_file_processed d n = false → Database.count_records d n = 0%nat.
Proof.
  intros Hq%is_file_processed_false. unfold Database.count_records.
  replace (filter _ _) with (@nil Database.ProcessedFile); [done|].
  symmetry. apply elem_of_nil_inv. intros r [Hr Hin]%list_elem_of_filter.
  apply Hq, list_elem_of_fmap. by exists r.
Qed.

Lemma sum_sizes_app l1 l2 : sum_sizes (l1 ++ l2) = sum_sizes l1 + sum_sizes l2.
Proof. induction l1 as [|r l1 IH]; simpl; [done|]. rewrite IH. lia. Qed.

(** X2: an insert that the store accepts for a name without a record
    returns the next id, makes [is_file_processed] true for this name and
    for no other, leaves exactly one record of the name, adds one file and
    its size to the statistics, and a second insert of the name is refused
    with an integrity error. *)
Theorem add_processed_file_lookup env d filename sp tp size cd h :
  insert_fault env filename = None →
  Database.is_file_processed d filename = false →
  ∃ d', Database.add_processed_file env d filename sp tp size cd h
        = inr (Database.processed_seq d + 1, d')
    ∧ Database.is_file_processed d' filename = true
    ∧ (∀ n, n ≠ filename →
            Database.is_file_processed d' n = Database.is_file_processed d n)
    ∧ Database.count_records d' filename = 1%nat
    ∧ stat_total_files (get_statistics d') = stat_total_files (get_statistics d) + 1
    ∧ stat_total_size (get_statistics d') = stat_total_size (get_statistics d) + size
    ∧ stat_total_errors (get_statistics d') = stat_total_errors (get_statistics d)
    ∧ ∀ sp' tp' size' cd' h',
        Database.add_processed_file env d' filename sp' tp' size' cd' h'
        = inl (Database.IntegrityError
                 "UNIQUE constraint failed: processed_files.filename").
Proof.
  intros Hi Hq. unfold Database.add_processed_file. rewrite Hi, Hq.
  eexists. split; [reflexivity|].
  assert (Database.is_file_processed
            {| Database.processed_files :=
                 Database.processed_files d
                 ++ [{| Database.pf_id := Database.processed_seq d + 1;
                        Database.pf_filename := filename;
                        Database.pf_source_path := sp;
                        Database.pf_target_path := tp;
                        Database.pf_size := size;
                        Database.pf_copy_date := cd;
                        Database.pf_hash := h |}];
               Database.errors := Database.errors d;
               Database.processed_seq := Database.processed_seq d + 1;
               Database.errors_seq := Database.errors_seq d |} filename = true)
    as Hnew.
  { apply is_file_processed_true. simpl. rewrite fmap_app.
    apply elem_of_app. right. by left. }
  split_and!.
  - done.
  - intros n Hne. apply bool_decide_ext. simpl.
    rewrite fmap_app, elem_of_app. simpl. rewrite list_elem_of_singleton. tauto.
  - unfold Database.count_records. simpl. rewrite filter_app, length_app.
    fold (Database.count_records d filename). rewrite count_records_zero by done.
    rewrite filter_cons, decide_True by done. done.
  - simpl. rewrite length_app. simpl. lia.
  - simpl. rewrite sum_sizes_app. simpl. lia.
  - done.
  - intros sp' tp' size' cd' h'. simpl. by rewrite Hnew.
Qed.

Lemma add_processed_file_lookup_witness :
  ∃ d', Database.add_processed_file env_ok Database._initialize_database
          "a.txt" "/src/a.txt" "/dst/a.txt" 5 0 None = inr (1, d')
        ∧ Database.is_file_processed d' "a.txt" = true.
Proof.
  destruct (add_processed_file_lookup env_ok Database._initialize_database
              "a.txt" "/src/a.txt" "/dst/a.txt" 5 0 None)
    as (d' & Hadd & Hq & _); [reflexivity..|].
  exists d'. split; [exact Hadd|exact Hq].
Defined.

(** X3: the whole listing of [get_processed_files] holds every record
    once, most recent first; any limit and offset give a run of rows of
    that listing, in the same order; a limit of [None] or of 0 gives the
    whole listing whatever the offset; a positive limit gives that many
    rows, or the rows left after the offset if they are fewer. *)
Theorem get_processed_files_listing d limit offset :
  let all := get_processed_files d None 0 in
  let by_date := λ a b, Database.pf_copy_date b ≤ Database.pf_copy_date a in
  all ≡ₚ Database.processed_files d
  ∧ StronglySorted by_date all
  ∧ get_processed_files d limit offset `sublist_of` all
  ∧ StronglySorted by_date (get_processed_files d limit offset)
  ∧ (limit = None ∨ limit = Some 0 → get_processed_files d limit offset = all)
  ∧ (∀ l, limit = Some l → 0 < l →
          get_processed_files d limit offset
          = take (Z.to_nat l) (drop (Z.to_nat offset) all)
          ∧ length (get_processed_files d limit offset)
            = (Z.to_nat l `min` (length (Database.processed_files d) - Z.to_nat offset))%nat).
Proof.
  intros all by_date.
  pose proof (order_by_copy_date_desc_sorted (Database.processed_files d)) as Hs.
  pose proof (order_by_copy_date_desc_perm (Database.processed_files d)) as Hp.
  assert (∀ n m, StronglySorted by_date (take n (drop m all))) as Hrun.
  { intros n m. apply (StronglySorted_app_1_l _ _ (drop n (drop m all))).
    rewrite take_drop. apply (StronglySorted_app_1_r _ (take m all)).
    by rewrite take_drop. }
  assert (∀ m, StronglySorted by_date (drop m all)) as Hdrop.
  { intros m. apply (StronglySorted_app_1_r _ (take m all)). by rewrite take_drop. }
  unfold get_processed_files in *. fold all. split_and!; [done..| | | |].
  - destruct limit as [l|]; [|done]. repeat case_bool_decide; [done| |].
    + apply sublist_drop.
    + etrans; [apply sublist_take|apply sublist_drop].
  - destruct limit as [l|]; [|done]. repeat case_bool_decide; auto.
  - intros [->| ->]; [done|]. by rewrite bool_decide_eq_true_2.
  - intros l -> Hl. rewrite bool_decide_eq_false_2 by lia.
    rewrite bool_decide_eq_false_2 by lia. split; [done|].
    rewrite length_take, length_drop. unfold all. by rewrite Hp.
Qed.

Lemma get_processed_files_listing_witness :
  let d := (process_batch (H:=glob_star) (processor 10 false) env_ok src_abc world0).2 in
  Database.pf_filename <$> get_processed_files (db d) (Some 1) 0 = ["b.jpg"]
  ∧ length (get_processed_files (db d) (Some 1) 0)
    = (Z.to_nat 1 `min` (length (Database.processed_files (db d)) - Z.to_nat 0))%nat.
Proof.
  intros d. split; [reflexivity|].
  destruct (get_processed_files_listing (db d) (Some 1) 0)
    as (_ & _ & _ & _ & _ & Hlimit).
  destruct (Hlimit 1) as [_ Hlen]; [reflexivity|lia|]. exact Hlen.
Defined.

(** X4: [get_statistics] on a store without records reports no file, no
    byte and no last copy; otherwise the last copy is the date of a record
    and no record is more recent, and it is the date of the first row of
    the listing. *)
Theorem get_statistics_last_copy d :
  stat_last_copy (get_statistics d)
  = Database.pf_copy_date <$> head (get_processed_files d None 0)
  ∧ match stat_last_copy (get_statistics d) with
    | None =>
        Database.processed_files d = []
        ∧ stat_total_files (get_statistics d) = 0
        ∧ stat_total_size (get_statistics d) = 0
    | Some m =>
        (∃ r, r ∈ Database.processed_files d ∧ Database.pf_copy_date r = m)
        ∧ ∀ r, r ∈ Database.processed_files d → Database.pf_copy_date r ≤ m
    end.
Proof.
  split; [done|]. simpl.
  pose proof (order_by_copy_date_desc_sorted (Database.processed_files d)) as Hs.
  pose proof (order_by_copy_date_desc_perm (Database.processed_files d)) as Hp.
  destruct (order_by_copy_date_desc (Database.processed_files d)) as [|r0 l]; simpl.
  - apply Permutation_nil_l in Hp. rewrite <- Hp. done.
  - split.
    + exists r0. split; [|done]. rewrite <- Hp. by left.
    + intros r Hr. rewrite <- Hp in Hr.
      apply StronglySorted_inv in Hs as [_ Hall].
      apply elem_of_cons in Hr as [->|Hr]; [lia|].
      by eapply Forall_forall in Hall.
Qed.

(** ** What the loop of a batch writes *)

Ltac delta_split :=
  unfold batch_delta; cbn [fst snd tick with_target db target ticks
    Database.processed_files Database.errors processed total_size errors
    files_processed files_errors skipped files_skipped count_skipped count_error
    count_processed length sum_sizes foldr fmap list_fmap Database.pf_filename
    Database.pf_size Database.er_filename Database.er_error_message record_of];
  rewrite ?app_nil_r;
  repeat (split_and! || intro); try done; try congruence; try lia;
  try (unfold record_of; cbn [Database.pf_size]; lia); try (by left).

Lemma batch_delta_nil fp env s w : batch_delta fp env [] s w s w [] [].
Proof. delta_split; constructor. Qed.

Lemma batch_delta_step fp env s w f :
  ∃ rows errs,
    batch_delta fp env [f] s w (process_file fp env (s, w) f).2.1
      (process_file fp env (s, w) f).2.2 rows errs.
Proof.
  assert (f ∈ [f]) as Hf by by left.
  assert (∀ tgt' k,
            tgt' = target w
            ∨ (dry_run fp = false ∧ target w !! name f = None
               ∧ ∃ z, tgt' = <[name f := TFile z]> (target w) ∧ leaves_file env f z) →
            Database.is_file_processed (db w) (name f) = false →
            tgt' !! k = target w !! k
            ∨ (dry_run fp = false ∧ target w !! k = None
               ∧ Database.is_file_processed (db w) k = false
               ∧ ∃ g z, g ∈ [f] ∧ name g = k ∧ leaves_file env g z
                        ∧ tgt' !! k = Some (TFile z))) as Hleft.
  { intros tgt' k [->|(Hd & Hfree & z & -> & Hz)] Hq; [by left|].
    destruct (decide (k = name f)) as [->|Hne].
    - right. split_and!; [done..|]. exists f, z. by rewrite lookup_insert_eq.
    - left. by rewrite lookup_insert_ne. }
  step_cases fp env s w f.
  - exists [], []. delta_split; constructor.
  - exists [], []. delta_split; constructor.
  - eexists [], [_]. unfold batch_delta. cbn [fst snd].
    rewrite db_log_error_processed_files, db_log_error_target, db_log_error_errors
      by done.
    delta_split; try (by constructor); try (by apply Hleft).
    constructor; [|constructor]. split; [by left|by exists f].
  - exists [], []. delta_split; try (by constructor); try (by apply Hleft).
  - exists [], []. delta_split; constructor.
  - eexists [_], []. delta_split.
    + constructor; [|constructor]. eexists f, _, _.
      split_and!; try done. by rewrite lookup_insert_eq.
    + apply NoDup_singleton.
    + left. apply lookup_insert_ne. intros <-.
      match goal with Hk : _ ∉ _ |- _ => apply Hk end. by left.
  - exists [], []. delta_split; try (by constructor).
    apply Hleft; [|done]. right. split_and!; [done..|]. exists (st_size f).
    split; [done|]. right. split; [done|]. rewrite Hu. by eexists.
  - eexists [], [_]. unfold batch_delta. cbn [fst snd].
    rewrite db_log_error_processed_files, db_log_error_target, db_log_error_errors
      by done.
    delta_split; try (by constructor).
    constructor; [|constructor]. split; [by right|by exists f].
  - exists [], []. delta_split; constructor.
Qed.

Lemma batch_delta_trans fp env l1 l2 s w s1 w1 s2 w2 rows1 errs1 rows2 errs2 :
  batch_delta fp env l1 s w s1 w1 rows1 errs1 →
  batch_delta fp env l2 s1 w1 s2 w2 rows2 errs2 →
  batch_delta fp env (l1 ++ l2) s w s2 w2 (rows1 ++ rows2) (errs1 ++ errs2).
Proof.
  intros (Hr1 & He1 & Hd1 & Hreal1 & Hrows1 & Hnd1 & Hfr1 & Herr1)
         (Hr2 & He2 & Hd2 & Hreal2 & Hrows2 & Hnd2 & Hfr2 & Herr2).
  assert (∀ k, Database.is_file_processed (db w1) k = false →
               Database.is_file_processed (db w) k = false) as Hback.
  { intros k. rewrite !is_file_processed_false, Hr1, fmap_app, not_elem_of_app.
    tauto. }
  assert (∀ row, row ∈ rows2 →
                 (Database.pf_filename row ∉ Database.pf_filename <$> rows1)
                 ∧ Database.is_file_processed (db w) (Database.pf_filename row) = false)
    as Hfresh.
  { intros row Hrow. eapply Forall_forall in Hrows2; [|exact Hrow].
    destruct Hrows2 as (f & id & cd & _ & -> & _ & Hq & _). simpl.
    apply is_file_processed_false in Hq. rewrite Hr1, fmap_app in Hq.
    apply not_elem_of_app in Hq as [Hq1 Hq2]. split; [done|].
    by apply is_file_processed_false. }
  unfold batch_delta. split_and!.
  - by rewrite Hr2, Hr1, app_assoc.
  - by rewrite He2, He1, app_assoc.
  - intros Hdry. destruct (Hd1 Hdry) as (-> & -> & ->).
    by destruct (Hd2 Hdry) as (-> & -> & ->).
  - intros Hdry. destruct (Hreal1 Hdry) as (Hp1 & Hs1 & Hc1 & Hf1 & Hfe1).
    destruct (Hreal2 Hdry) as (Hp2 & Hs2 & Hc2 & Hf2 & Hfe2).
    rewrite Hp2, Hs2, Hc2, Hf2, Hfe2, Hp1, Hs1, Hc1, Hf1, Hfe1.
    rewrite !length_app, sum_sizes_app, !fmap_app, !app_assoc.
    split_and!; try done; lia.
  - apply Forall_app. split.
    + apply Forall_forall. intros row Hrow.
      destruct (proj1 (Forall_forall _ _) Hrows1 row Hrow)
        as (f & id & cd & Hf & Heq & Hc & Hq & Hn & Ht).
      exists f, id, cd. split_and!; try done; [apply elem_of_app; by left|].
      destruct (Hfr2 (name f)) as [->|(_ & Hnone & _)]; [|done|congruence].
      intros (row2 & Heq2 & Hin)%list_elem_of_fmap.
      destruct (Hfresh row2 Hin) as [Hno _]. apply Hno. rewrite <- Heq2.
      apply list_elem_of_fmap. exists row. split; [by rewrite Heq|done].
    + apply Forall_forall. intros row Hrow. destruct (Hfresh row Hrow) as [Hno Hq].
      eapply Forall_forall in Hrows2; [|exact Hrow].
      destruct Hrows2 as (f & id & cd & Hf & -> & Hc & _ & Hn & Ht).
      exists f, id, cd. cbn [record_of Database.pf_filename] in *.
      split_and!; try done; [apply elem_of_app; by right|].
      destruct (Hfr1 (name f) Hno) as [<-|(_ & _ & _ & g & z & _ & _ & _ & Hat)];
        [done|congruence].
  - rewrite fmap_app. apply NoDup_app. split_and!; [done| |done].
    intros n Hn1 (row & -> & Hrow)%list_elem_of_fmap.
    by destruct (Hfresh row Hrow).
  - intros k Hk. rewrite fmap_app in Hk. apply not_elem_of_app in Hk as [Hk1 Hk2].
    destruct (Hfr2 k Hk2) as [->|(Hd & Hnone & Hq & g & z & Hg & Hgn & Hz & Hat)].
    + destruct (Hfr1 k Hk1) as [?|(Hd & Hnone & Hq & g & z & Hg & Hgn & Hz & Hat)];
        [by left|].
      right. split_and!; [done..|]. exists g, z.
      split_and!; [apply elem_of_app; by left|done..].
    + destruct (Hfr1 k Hk1) as [Heq|(_ & _ & _ & g' & z' & _ & _ & _ & Hat')];
        [|congruence].
      right. rewrite <- Heq. split_and!; [done|done|by apply Hback|].
      exists g, z. split_and!; [apply elem_of_app; by right|done..].
  - apply Forall_app. split.
    + eapply Forall_impl; [exact Herr1|]. simpl. intros e [Ht (f & Hf & Hn)].
      split; [done|]. exists f. split; [apply elem_of_app; by left|done].
    + eapply Forall_impl; [exact Herr2|]. simpl. intros e [Ht (f & Hf & Hn)].
      split; [done|]. exists f. split; [apply elem_of_app; by right|done].
Qed.

Lemma batch_delta_weaken fp env l l' s w s' w' rows errs :
  (∀ f, f ∈ l → f ∈ l') →
  batch_delta fp env l s w s' w' rows errs →
  batch_delta fp env l' s w s' w' rows errs.
Proof.
  intros Hsub (Hr & He & Hd & Hreal & Hrows & Hnd & Hfr & Herr).
  unfold batch_delta. split_and!; try done.
  - eapply Forall_impl; [exact Hrows|]. simpl.
    intros row (f & id & cd & Hf & Hrest). exists f, id, cd. auto.
  - intros k Hk. destruct (Hfr k Hk) as [?|(? & ? & ? & g & z & ? & Hrest)];
      [by left|]. right. split_and!; [done..|]. exists g, z. auto.
  - eapply Forall_impl; [exact Herr|]. simpl. intros e [Ht (f & Hf & Hn)].
    split; [done|]. exists f. auto.
Qed.

Lemma process_files_delta fp env l s w :
  ∃ rows errs,
    batch_delta fp env l s w (process_files fp env (s, w) l).2.1
      (process_files fp env (s, w) l).2.2 rows errs.
Proof.
  revert s w. induction l as [|f l IH]; intros s w.
  { exists [], []. apply batch_delta_nil. }
  rewrite process_files_cons.
  destruct (batch_delta_step fp env s w f) as (rows1 & errs1 & H1).
  destruct (process_file fp env (s, w) f) as [[e|] [s1 w1]]; cbn [fst snd] in *.
  - exists rows1, errs1. eapply batch_delta_weaken; [|exact H1].
    intros g ->%list_elem_of_singleton. by left.
  - destruct (IH s1 w1) as (rows2 & errs2 & H2).
    exists (rows1 ++ rows2), (errs1 ++ errs2).
    by apply (batch_delta_trans fp env [f] l s w s1 w1).
Qed.

(** [process_batch] is the loop between two readings of the clock: the
    store and the target directory it leaves are those of the loop, and
    so is its result, but for the duration, when it returns. *)
Lemma process_batch_delta `{Fnmatch} fp env src w :
  let r := process_batch fp env src w in
  ∃ rows errs s' w',
    batch_delta fp env (files_to_process fp src (db w)) stats0 (tick w) s' w' rows errs
    ∧ db r.2 = db w' ∧ target r.2 = target w'
    ∧ ∀ result, r.1 = Returned result →
        processed result = processed s' ∧ skipped result = skipped s'
        ∧ errors result = errors s' ∧ total_size result = total_size s'
        ∧ files_processed result = files_processed s'
        ∧ files_skipped result = files_skipped s'
        ∧ files_errors result = files_errors s'.
Proof.
  intros r. unfold r. rewrite process_batch_unfold. case_bool_decide.
  { exists [], [], stats0, (tick w). split; [|done].
    eapply batch_delta_weaken; [|apply batch_delta_nil]. by intros ? ?%elem_of_nil. }
  destruct (process_files_delta fp env (files_to_process fp src (db w)) stats0 (tick w))
    as (rows & errs & Hd).
  exists rows, errs. destruct (files_to_process fp src (db w)) as [|f batch].
  - exists stats0, (tick w). split_and!; [done..|]. by intros result [= <-].
  - eexists _, _. split; [exact Hd|]. cbv zeta.
    destruct (process_files _ _ _ _).1; cbn [fst snd]; split_and!; try done.
    by intros result [= <-].
Qed.

(** X5: the statistics of the store follow the result of a batch.  When
    the batch returns in real mode, the number of files has grown by
    [processed], the number of bytes by [total_size] and the number of
    logged errors by [errors]; in simulation mode the statistics stay as
    they are; and a batch that raises has not made any of the three
    smaller. *)
Theorem process_batch_statistics `{Fnmatch} fp env src w :
  let r := process_batch fp env src w in
  let before := get_statistics (db w) in
  let after := get_statistics (db r.2) in
  (∀ result, r.1 = Returned result →
     stat_total_files after
     = stat_total_files before + (if dry_run fp then 0 else processed result)
     ∧ stat_total_size after
       = stat_total_size before + (if dry_run fp then 0 else total_size result)
     ∧ stat_total_errors after
       = stat_total_errors before + (if dry_run fp then 0 else errors result))
  ∧ (dry_run fp = true → after = before)
  ∧ stat_total_files before ≤ stat_total_files after
  ∧ stat_total_errors before ≤ stat_total_errors after.
Proof.
  intros r before after.
  destruct (process_batch_delta fp env src w)
    as (rows & errs & s' & w' & (Hr & He & Hdry & Hreal & _) & Hdb & _ & Hres).
  fold r in Hdb, Hres. unfold before, after, get_statistics.
  rewrite Hdb, Hr, He. cbn [tick db]. split_and!.
  - intros result (Hp & _ & Hc & Hs & _)%Hres.
    cbn [stat_total_files stat_total_size stat_total_errors].
    rewrite Hp, Hc, Hs, !length_app, sum_sizes_app. destruct (dry_run fp).
    + destruct (Hdry eq_refl) as (-> & -> & _). simpl. lia.
    + destruct (Hreal eq_refl) as (-> & -> & -> & _). simpl. lia.
  - intros Hd. destruct (Hdry Hd) as (-> & -> & _). by rewrite !app_nil_r.
  - cbn [stat_total_files]. rewrite length_app. lia.
  - cbn [stat_total_errors]. rewrite length_app. lia.
Qed.

(** X6: [process_batch] only appends to the two tables of the store, and
    it never removes or replaces an entry that the target directory
    already has. *)
Theorem process_batch_append_only `{Fnmatch} fp env src w :
  let r := process_batch fp env src w in
  Database.processed_files (db w) `prefix_of` Database.processed_files (db r.2)
  ∧ Database.errors (db w) `prefix_of` Database.errors (db r.2)
  ∧ ∀ k e, target w !! k = Some e → target r.2 !! k = Some e.
Proof.
  intros r.
  destruct (process_batch_delta fp env src w)
    as (rows & errs & s' & w' & (Hr & He & _ & _ & Hrows & _ & Hfr & _) & Hdb & Ht & _).
  fold r in Hdb, Ht. rewrite Hdb, Ht, Hr, He. cbn [tick db target] in *.
  split_and!; [by eexists..|]. intros k e Hk.
  destruct (Hfr k) as [->|(_ & Hnone & _)]; [|done|congruence].
  intros (row & -> & Hrow)%list_elem_of_fmap.
  eapply Forall_forall in Hrows; [|exact Hrow].
  destruct Hrows as (f & id & cd & _ & -> & _ & _ & Hn & _). simpl in Hk. congruence.
Qed.

Lemma orphans_of_perm w1 w2 :
  (∀ k, is_orphan w1 k = is_orphan w2 k) → orphans_of w1 ≡ₚ orphans_of w2.
Proof.
  intros Heq. apply NoDup_Permutation; [apply orphans_of_NoDup..|].
  intros k. by rewrite !orphans_of_elem, Heq.
Qed.

(** X7: a batch takes no orphan away, in any mode and whatever fails, and
    it leaves a new one only where a copy that failed left its file: under
    a target name that was free, the name of a selected file whose copy
    raised after it had written, or was short and could not be unlinked.
    In simulation mode, and in real mode when no copy of a selected file
    leaves a file, the orphans after [process_batch] are those before, and
    an orphan clean-up run after the batch returns the number it would have
    returned before. *)
Theorem process_batch_keeps_orphans `{Fnmatch} fp env src w :
  let r := process_batch fp env src w in
  (∀ k, is_orphan w k = true → is_orphan r.2 k = true)
  ∧ (∀ k, is_orphan r.2 k = true →
          is_orphan w k = true
          ∨ (dry_run fp = false ∧ target w !! k = None
             ∧ ∃ g z, g ∈ files_to_process fp src (db w) ∧ name g = k
                      ∧ leaves_file env g z ∧ target r.2 !! k = Some (TFile z)))
  ∧ (dry_run fp = true
     ∨ (∀ g z, g ∈ files_to_process fp src (db w) → ¬ leaves_file env g z) →
     (∀ k, is_orphan r.2 k = is_orphan w k)
     ∧ orphans_of r.2 ≡ₚ orphans_of w
     ∧ ∀ fp' env', (clean_target_orphans fp' env' r.2).1
                   = (clean_target_orphans fp' env' w).1).
Proof.
  intros r.
  destruct (process_batch_delta fp env src w)
    as (rows & errs & s' & w' & (Hr & _ & _ & _ & Hrows & _ & Hfr & _) & Hdb & Ht & _).
  fold r in Hdb, Ht. cbn [tick db target] in *.
  assert (∀ k, k ∈ Database.pf_filename <$> rows →
               is_orphan r.2 k = false ∧ is_orphan w k = false) as Hnew.
  { intros k (row & -> & Hrow)%list_elem_of_fmap.
    pose proof Hrow as Hrow'. eapply Forall_forall in Hrow'; [|exact Hrows].
    destruct Hrow' as (f & id & cd & _ & -> & _ & _ & Hn & Hn').
    cbn [record_of Database.pf_filename].
    unfold is_orphan. rewrite Ht, Hn, Hn'. split; [|done].
    apply andb_false_intro2, negb_false_iff, is_file_processed_true.
    rewrite Hdb, Hr, fmap_app. apply elem_of_app. right.
    apply list_elem_of_fmap. by exists (record_of fp env f id cd). }
  assert (∀ k, k ∉ Database.pf_filename <$> rows →
               Database.is_file_processed (db r.2) k
               = Database.is_file_processed (db w) k) as Hq.
  { intros k Hk. apply bool_decide_ext. rewrite Hdb, Hr, fmap_app, elem_of_app. tauto. }
  assert (∀ k, is_orphan r.2 k = is_orphan w k
               ∨ (is_orphan w k = false ∧ dry_run fp = false ∧ target w !! k = None
                  ∧ ∃ g z, g ∈ files_to_process fp src (db w) ∧ name g = k
                           ∧ leaves_file env g z ∧ target r.2 !! k = Some (TFile z)))
    as Hcases.
  { intros k. destruct (decide (k ∈ Database.pf_filename <$> rows)) as [Hin|Hout].
    { left. destruct (Hnew k Hin) as [-> ->]. done. }
    destruct (Hfr k Hout) as [Heq|(Hd & Hnone & _ & g & z & Hg & Hgn & Hz & Hat)].
    - left. unfold is_orphan. by rewrite Ht, Heq, Hq.
    - right. split_and!; [unfold is_orphan; by rewrite Hnone|done..|].
      exists g, z. by rewrite Ht. }
  split_and!.
  - intros k Hk. destruct (Hcases k) as [->|(Hno & _)]; [done|congruence].
  - intros k Hk. destruct (Hcases k) as [<-|(_ & Hrest)]; [by left|by right].
  - intros Hclean.
    assert (∀ k, is_orphan r.2 k = is_orphan w k) as Hsame.
    { intros k. destruct (Hcases k) as [?|(_ & Hd & _ & g & z & Hg & _ & Hz & _)];
        [done|]. destruct Hclean as [?|Hclean]; [congruence|].
      by destruct (Hclean g z Hg). }
    split_and!; [done|by apply orphans_of_perm|].
    intros fp' env'.
    destruct (clean_target_orphans_spec fp' env' r.2) as (-> & _).
    destruct (clean_target_orphans_spec fp' env' w) as (-> & _).
    by rewrite (orphans_of_perm r.2 w Hsame).
Qed.

(** X8: every record that [process_batch] adds is the record of a
    source file it selected, with the name, the paths and the size of that
    file; the copy wrote as many bytes as the source has, the target
    directory holds a regular file of the recorded size under the recorded
    name when the batch ends, and the name is reported as processed when
    the batch returns. *)
Theorem process_batch_records_have_copies `{Fnmatch} fp env src w row :
  let r := process_batch fp env src w in
  row ∈ Database.processed_files (db r.2) →
  row ∈ Database.processed_files (db w)
  ∨ (dry_run fp = false
     ∧ (∃ f id copy_date,
          f ∈ get_source_files fp src ∧ row = record_of fp env f id copy_date
          ∧ copy2 env f = Written (st_size f)
          ∧ Database.is_file_processed (db w) (name f) = false)
     ∧ target w !! Database.pf_filename row = None
     ∧ target r.2 !! Database.pf_filename row = Some (TFile (Database.pf_size row))
     ∧ ∀ result, r.1 = Returned result →
                 Database.pf_filename row ∈ files_processed result).
Proof.
  intros r.
  destruct (process_batch_delta fp env src w)
    as (rows & errs & s' & w' & (Hr & _ & Hdry & Hreal & Hrows & _) & Hdb & Ht & Hres).
  fold r in Hdb, Ht, Hres. rewrite Hdb, Ht, Hr. cbn [tick db target] in *.
  intros [Hin|Hin]%elem_of_app; [by left|]. right.
  destruct (dry_run fp) eqn:Hd.
  { destruct (Hdry eq_refl) as (-> & _). by apply elem_of_nil in Hin. }
  destruct (Hreal eq_refl) as (_ & _ & _ & Hfp & _).
  pose proof Hin as Hin'. eapply Forall_forall in Hin'; [|exact Hrows].
  destruct Hin' as (f & id & cd & Hf & -> & Hc & Hq & Hn & Hn').
  apply files_to_process_elem in Hf as [Hf _].
  split_and!; try done.
  - by exists f, id, cd.
  - intros result (_ & _ & _ & _ & -> & _)%Hres. rewrite Hfp.
    cbn [stats0 files_processed app]. apply list_elem_of_fmap.
    by eexists (record_of fp env f id cd).
Qed.

(** A source directory given as [.] and a target directory given as
    [/dst/]: the records bear the paths [a.txt] and [/dst/a.txt], and the
    target directory holds the two files. *)
Lemma process_batch_records_have_copies_witness :
  let fp := processor_in "." "/dst/" 10 false in
  let r := process_batch (H:=glob_star) fp env_ok src_abc world0 in
  (λ row, (Database.pf_source_path row, Database.pf_target_path row))
    <$> Database.processed_files (db r.2)
  = [("a.txt", "/dst/a.txt"); ("b.jpg", "/dst/b.jpg")]
  ∧ Forall (λ row, target r.2 !! Database.pf_filename row
                   = Some (TFile (Database.pf_size row)))
           (Database.processed_files (db r.2)).
Proof.
  intros fp r. split; [reflexivity|]. apply Forall_forall. intros row Hrow.
  destruct (process_batch_records_have_copies (H:=glob_star) fp
              env_ok src_abc world0 row Hrow) as [Hold|(_ & _ & _ & Hcopy & _)].
  - by apply elem_of_nil in Hold.
  - exact Hcopy.
Defined.

(** X9: a file name that has a record is out of reach of every later
    batch: it is never selected, so that a result mentions it nowhere; its
    records and its target entry stay as they are; and no name is
    reported as processed twice by a batch in real mode. *)
Theorem recorded_name_never_touched `{Fnmatch} fp env src w n :
  let r := process_batch fp env src w in
  (Database.is_file_processed (db w) n = true →
   (n ∉ name <$> files_to_process fp src (db w))
   ∧ (∀ result, r.1 = Returned result → n ∉ mentioned result)
   ∧ target r.2 !! n = target w !! n
   ∧ Database.count_records (db r.2) n = Database.count_records (db w) n)
  ∧ (dry_run fp = false →
     ∀ result, r.1 = Returned result → NoDup (files_processed result)).
Proof.
  intros r.
  destruct (process_batch_delta fp env src w)
    as (rows & errs & s' & w' & (Hr & _ & _ & Hreal & Hrows & Hnd & Hfr & _) & Hdb & Ht
        & Hres).
  fold r in Hdb, Ht, Hres. cbn [tick db target] in *. split.
  - intros Hq.
    assert (n ∉ Database.pf_filename <$> rows) as Hout.
    { intros (row & -> & Hrow)%list_elem_of_fmap.
      eapply Forall_forall in Hrows; [|exact Hrow].
      destruct Hrows as (f & id & cd & _ & -> & _ & Hq' & _). simpl in Hq. congruence. }
    assert (n ∉ name <$> files_to_process fp src (db w)) as Hsel.
    { intros (f & -> & Hf)%list_elem_of_fmap.
      apply files_to_process_elem in Hf as [_ Hf]. congruence. }
    split_and!.
    + done.
    + intros result Hret. unfold r in Hret.
      by rewrite (process_batch_mentioned _ _ _ _ _ Hret).
    + rewrite Ht. destruct (Hfr n Hout) as [?|(_ & _ & ? & _)]; [done|congruence].
    + unfold Database.count_records. rewrite Hdb, Hr, filter_app, length_app.
      replace (filter _ rows) with (@nil Database.ProcessedFile); [simpl; lia|].
      symmetry. apply elem_of_nil_inv. intros row [Hrow Hin]%list_elem_of_filter.
      apply Hout, list_elem_of_fmap. by exists row.
  - intros Hdry result (_ & _ & _ & _ & -> & _)%Hres.
    by destruct (Hreal Hdry) as (_ & _ & _ & -> & _).
Qed.

Lemma recorded_name_never_touched_witness :
  let w := (process_batch (H:=glob_star) (processor 1 false) env_ok src_abc world0).2 in
  let r := process_batch (H:=glob_star) (processor 10 false) env_ok src_abc w in
  Database.is_file_processed (db w) "a.txt" = true
  ∧ (∃ result, r.1 = Returned result
               ∧ ("a.txt" ∉ mentioned result) ∧ NoDup (files_processed result))
  ∧ target r.2 !! "a.txt" = target w !! "a.txt".
Proof.
  intros w r.
  destruct (recorded_name_never_touched (H:=glob_star) (processor 10 false) env_ok
              src_abc w "a.txt") as [Hrec Hnd].
  destruct Hrec as (_ & Hment & Hkeep & _); [reflexivity|].
  split; [reflexivity|]. split; [|exact Hkeep].
  destruct r.1 as [result|e] eqn:Hret; [|vm_compute in Hret; discriminate].
  exists result. split; [reflexivity|]. split.
  - by apply Hment.
  - apply Hnd; [reflexivity|done].
Defined.

(** ** The excluded files *)

(** C9: a file whose base name matches one of the exclude patterns is in
    none of the three lists of any result of [process_batch], and the
    three counters are the lengths of these lists, so it is in no count.
    Whether the call returns or raises, no file of that name is selected,
    and the call leaves the target entry and the records of the name as
    they are. *)
Theorem excluded_files_invisible `{Fnmatch} fp env src w n :
  (∃ p, p ∈ exclude_patterns fp ∧ fnmatch n p = true) →
  let r := process_batch fp env src w in
  (∀ s, r.1 = Returned s →
        (n ∉ files_processed s) ∧ (n ∉ files_skipped s) ∧ (n ∉ (files_errors s).*1)
        ∧ counts_agree s)
  ∧ (n ∉ name <$> files_to_process fp src (db w))
  ∧ target r.2 !! n = target w !! n
  ∧ Database.count_records (db r.2) n = Database.count_records (db w) n.
Proof.
  intros Hex r.
  assert (n ∉ name <$> files_to_process fp src (db w)) as Hsel.
  { intros (f & -> & Hf)%list_elem_of_fmap.
    apply files_to_process_elem in Hf as [Hf _].
    apply get_source_files_elem in Hf as (_ & _ & Hf).
    apply (is_excluded_true fp f) in Hex. congruence. }
  destruct (process_batch_delta fp env src w)
    as (rows & errs & s' & w' & (Hr & _ & _ & _ & Hrows & _ & Hfr & _) & Hdb & Ht & _).
  fold r in Hdb, Ht. cbn [tick db target] in *.
  assert (n ∉ Database.pf_filename <$> rows) as Hout.
  { intros (row & -> & Hrow)%list_elem_of_fmap.
    eapply Forall_forall in Hrows; [|exact Hrow].
    destruct Hrows as (f & id & cd & Hf & -> & _). apply Hsel.
    cbn [record_of Database.pf_filename]. by apply list_elem_of_fmap_2. }
  split_and!.
  - intros s Hs.
    assert (n ∉ mentioned s) as Hn
      by by rewrite (process_batch_mentioned fp env src w s Hs).
    unfold mentioned in Hn. rewrite !elem_of_app in Hn.
    split_and!; [tauto..|by eapply process_batch_counts].
  - done.
  - rewrite Ht. destruct (Hfr n Hout) as [?|(_ & _ & _ & g & z & Hg & Hgn & _)];
      [done|]. destruct Hsel. rewrite <- Hgn. by apply list_elem_of_fmap_2.
  - unfold Database.count_records. rewrite Hdb, Hr, filter_app, length_app.
    replace (filter _ rows) with (@nil Database.ProcessedFile); [simpl; lia|].
    symmetry. apply elem_of_nil_inv. intros row [Hrow Hin]%list_elem_of_filter.
    apply Hout, list_elem_of_fmap. by exists row.
Qed.

Lemma excluded_files_invisible_witness :
  let r := process_batch (H:=glob_star) (processor 10 false) env_ok src_abc world0 in
  (∃ s, r.1 = Returned s
        ∧ ("c.tmp" ∉ files_processed s) ∧ ("c.tmp" ∉ files_skipped s)
        ∧ ("c.tmp" ∉ (files_errors s).*1) ∧ counts_agree s)
  ∧ target r.2 !! "c.tmp" = None.
Proof.
  intros r.
  destruct (excluded_files_invisible (H:=glob_star) (processor 10 false) env_ok
              src_abc world0 "c.tmp") as (Hres & _ & Htgt & _).
  { exists "*.tmp". split; [by left|reflexivity]. }
  split; [|exact Htgt].
  eexists. split; [vm_compute; reflexivity|].
  apply Hres. vm_compute. reflexivity.
Defined.

(** ** The size of a batch and the skipped files *)

Lemma select_files_first bs un src :
  bs ≤ 1 →
  select_files bs un src [] = take 1 (filter (λ f, name f ∈ un) src).
Proof.
  intros Hbs. induction src as [|f src IH]; simpl; [done|].
  rewrite filter_cons. case_bool_decide as Hin.
  - rewrite decide_True by done. rewrite bool_decide_eq_true_2 by (simpl; lia).
    simpl. by rewrite take_0.
  - by rewrite decide_False.
Qed.

Lemma files_to_process_take `{Fnmatch} fp src d :
  files_to_process fp src d
  = take (Z.to_nat (1 `max` batch_size fp))
      (filter (λ f, Database.is_file_processed d (name f) = false)
              (get_source_files fp src)).
Proof.
  destruct (decide (0 < batch_size fp)) as [Hpos|Hneg].
  - rewrite files_to_process_spec by done. do 2 f_equal. lia.
  - unfold files_to_process. rewrite select_files_first by lia.
    replace (Z.to_nat (1 `max` batch_size fp)) with 1%nat by lia. f_equal.
    apply list_filter_ext_in. intros f Hf.
    rewrite unprocessed_elem. split; [tauto|].
    intros Hq. split; [done|]. by apply list_elem_of_fmap_2.
Qed.

Lemma process_file_mentioned_le fp env s w f :
  (length (mentioned (process_file fp env (s, w) f).2.1) ≤ S (length (mentioned s)))%nat.
Proof.
  unfold mentioned. step_cases fp env s w f; cbn [fst snd];
    cbn [files_processed files_skipped files_errors count_skipped count_error
         count_processed]; rewrite ?fmap_app, ?length_app; simpl; lia.
Qed.

(** The loop gives every file it visits one outcome, and none to the
    files after an exception. *)
Lemma process_files_mentioned_le fp env l s w :
  (length (mentioned (process_files fp env (s, w) l).2.1)
   ≤ length (mentioned s) + length l)%nat.
Proof.
  revert s w. induction l as [|f l IH]; intros s w; [simpl; lia|].
  rewrite process_files_cons.
  pose proof (process_file_mentioned_le fp env s w f) as Hstep.
  destruct (process_file fp env (s, w) f) as [[e|] [s1 w1]]; cbn [fst snd] in *.
  - simpl. lia.
  - specialize (IH s1 w1). simpl. lia.
Qed.

(** X10: a batch is the front of the sorted source files without a
    record: [batch_size] of them, and one of them when [batch_size] is zero
    or negative, which therefore acts as a batch size of 1; every selected
    file gets exactly one outcome, so the three counters of a result add
    up to the number of selected files, and the counters of a loop that
    raises have not passed that number. *)
Theorem batch_size_bound `{Fnmatch} fp env src w :
  let batch := files_to_process fp src (db w) in
  let r := process_batch fp env src w in
  let loop := (process_files fp env (stats0, tick w) batch).2.1 in
  batch `prefix_of` filter (λ f, Database.is_file_processed (db w) (name f) = false)
                           (get_source_files fp src)
  ∧ (length batch ≤ Z.to_nat (1 `max` batch_size fp))%nat
  ∧ (batch_size fp ≤ 0 → batch = files_to_process (with_batch_size fp 1) src (db w))
  ∧ (∀ result, r.1 = Returned result →
       processed result + skipped result + errors result = Z.of_nat (length batch))
  ∧ processed loop + skipped loop + errors loop ≤ Z.of_nat (length batch).
Proof.
  intros batch r loop. unfold batch. split_and!.
  - rewrite files_to_process_take. apply prefix_take.
  - rewrite files_to_process_take, length_take. lia.
  - intros Hbs. rewrite !files_to_process_take. simpl.
    by replace (Z.to_nat (1 `max` batch_size fp)) with (Z.to_nat (1 `max` 1)) by lia.
  - unfold r. intros result Hret.
    destruct (process_batch_counts fp env src w result Hret) as (-> & -> & ->).
    pose proof (process_batch_mentioned fp env src w result Hret) as Hm.
    apply Permutation_length in Hm. unfold mentioned in Hm.
    rewrite !length_app, !length_fmap in Hm. lia.
  - assert (counts_agree stats0) as H0 by by repeat split.
    destruct (process_files_counts fp env batch stats0 (tick w) H0) as (Hp & Hs & He).
    fold loop in Hp, Hs, He. rewrite Hp, Hs, He.
    pose proof (process_files_mentioned_le fp env batch stats0 (tick w)) as Hle.
    fold loop in Hle. unfold mentioned in Hle.
    rewrite !length_app, !length_fmap in Hle. simpl in Hle. unfold batch in Hle. lia.
Qed.

Lemma batch_size_bound_witness :
  let fp := with_batch_size (processor 1 false) (-3) in
  batch_size fp ≤ 0
  ∧ files_to_process (H:=glob_star) fp src_abc (db world0) = [file [] "a.txt" 5].
Proof.
  intros fp. split; [vm_compute; discriminate|].
  destruct (batch_size_bound (H:=glob_star) fp env_ok src_abc world0)
    as (_ & _ & Hone & _).
  rewrite Hone; [reflexivity|vm_compute; discriminate].
Defined.

Lemma process_files_no_skip fp env l s w :
  dry_run fp = true ∨ NoDup (name <$> l) →
  (∀ f, f ∈ l → Database.is_file_processed (db w) (name f) = false) →
  let r := process_files fp env (s, w) l in
  skipped r.2.1 = skipped s ∧ files_skipped r.2.1 = files_skipped s.
Proof.
  revert s w. induction l as [|f l IH]; intros s w Hmode Hq; [done|].
  cbv zeta. rewrite process_files_cons.
  assert (Database.is_file_processed (db w) (name f) = false) as Hf
    by (apply Hq; by left).
  pose proof (process_file_names fp env s w f) as Hnames.
  pose proof (process_file_dry fp env s w f) as Hdry.
  assert (skipped (process_file fp env (s, w) f).2.1 = skipped s
          ∧ files_skipped (process_file fp env (s, w) f).2.1 = files_skipped s)
    as [Hs Hfs].
  { step_cases fp env s w f; cbn [fst snd]; done || congruence. }
  destruct (process_file fp env (s, w) f) as [[e|] [s1 w1]]; cbn [fst snd] in *;
    [done|].
  rewrite <- Hs, <- Hfs. apply IH.
  - destruct Hmode as [?|Hnd]; [by left|]. right.
    rewrite fmap_cons in Hnd. by apply NoDup_cons in Hnd as [_ ?].
  - intros g Hg. destruct Hmode as [Hd|Hnd].
    { destruct (Hdry Hd) as [_ ->]. apply Hq. by right. }
    rewrite fmap_cons in Hnd. apply NoDup_cons in Hnd as [Hnf _].
    apply is_file_processed_false.
    assert (Database.is_file_processed (db w) (name g) = false) as Hqg
      by (apply Hq; by right).
    apply is_file_processed_false in Hqg.
    destruct Hnames as [->|(_ & _ & _ & _ & ->)]; [done|].
    intros [?|Heq%list_elem_of_singleton]%elem_of_app; [done|].
    apply Hnf. rewrite <- Heq. by apply list_elem_of_fmap_2.
Qed.

(** X11: the check [is_file_processed] at the head of the loop skips a
    file only when an earlier file of the same batch had the same base
    name: in simulation mode, and in real mode when the selected files
    have distinct base names, no file is skipped, whether the loop ends or
    raises. *)
Theorem no_skip_without_duplicate_names `{Fnmatch} fp env src w :
  dry_run fp = true ∨ NoDup (name <$> files_to_process fp src (db w)) →
  let r := process_batch fp env src w in
  let loop := (process_files fp env (stats0, tick w)
                 (files_to_process fp src (db w))).2.1 in
  (∀ result, r.1 = Returned result → skipped result = 0 ∧ files_skipped result = [])
  ∧ skipped loop = 0 ∧ files_skipped loop = [].
Proof.
  intros Hmode r loop.
  assert (skipped loop = 0 ∧ files_skipped loop = []) as Hloop.
  { apply (process_files_no_skip fp env _ stats0 (tick w)); [done|].
    intros g Hg. by apply files_to_process_elem in Hg as [_ ?]. }
  split; [|done]. intros result Hret. unfold r in Hret.
  apply process_batch_returned in Hret as [_ [(_ & -> & _)|(_ & _ & -> & _)]]; done.
Qed.

Lemma no_skip_without_duplicate_names_witness :
  let r := process_batch (H:=glob_star) (processor 10 false) env_short src_abc world0 in
  ∃ result, r.1 = Returned result ∧ skipped result = 0 ∧ files_skipped result = [].
Proof.
  intros r. destruct r.1 as [result|e] eqn:Hret; [|vm_compute in Hret; discriminate].
  exists result. split; [reflexivity|].
  apply (no_skip_without_duplicate_names (H:=glob_star) (processor 10 false)
           env_short src_abc world0); [|exact Hret].
  right. apply (bool_decide_unpack _). vm_compute. exact I.
Defined.

(** ** The ids and the integrity report *)

Lemma ids_add_row d row :
  ids_in_sequence d → Database.pf_id row = Database.processed_seq d + 1 →
  ids_in_sequence
    {| Database.processed_files := Database.processed_files d ++ [row];
       Database.errors := Database.errors d;
       Database.processed_seq := Database.processed_seq d + 1;
       Database.errors_seq := Database.errors_seq d |}.
Proof.
  intros (Hp & Hs & He & Hes) Hid. unfold ids_in_sequence. simpl.
  rewrite fmap_app, length_app, Hp. simpl.
  replace (length (Database.processed_files d) + 1)%nat
    with (S (length (Database.processed_files d))) by lia.
  rewrite seqZ_S, Hid, Hs. split_and!; try done; [|lia].
  do 2 f_equal. lia.
Qed.

(** An error entry takes the next id; a refused one takes none. *)
Lemma ids_log_error env w f t m :
  ids_in_sequence (db w) → ids_in_sequence (db (db_log_error env w f t m).2).
Proof.
  intros (Hp & Hs & He & Hes).
  destruct (db_log_error_cases env w f t m) as [[_ ->]|(lm & _ & ->)];
    [|by repeat split].
  unfold ids_in_sequence. cbn [snd db Database.processed_files Database.errors
    Database.processed_seq Database.errors_seq].
  rewrite fmap_app, length_app, He. simpl.
  replace (length (Database.errors (db w)) + 1)%nat
    with (S (length (Database.errors (db w)))) by lia.
  rewrite seqZ_S, Hes. split_and!; try done; [|lia].
  do 2 f_equal. lia.
Qed.

Lemma ids_process_file fp env s w f :
  ids_in_sequence (db w) → ids_in_sequence (db (process_file fp env (s, w) f).2.2).
Proof.
  intros Hids. step_cases fp env s w f; cbn [fst snd]; try done.
  - by apply ids_log_error.
  - by apply ids_add_row.
  - by apply (ids_log_error _ (tick w)).
Qed.

Lemma ids_process_files fp env l s w :
  ids_in_sequence (db w) → ids_in_sequence (db (process_files fp env (s, w) l).2.2).
Proof.
  intros Hids.
  refine (process_files_rel fp env
            (λ a b, ids_in_sequence (db a.2) → ids_in_sequence (db b.2))
            l _ _ _ (s, w) Hids).
  - by intros a.
  - intros a b c Hab Hbc Ha. auto.
  - intros [s0 w0] g _. apply ids_process_file.
Qed.

Lemma ids_run_op `{Fnmatch} w op :
  ids_in_sequence (db w) → ids_in_sequence (db (run_op w op)).
Proof.
  intros Hids. destruct op as [fp env src|fp env|env n sp tp size cd h|env n t m];
    cbn [run_op].
  - destruct (process_batch_world fp env src w) as (l & _ & _ & -> & _).
    by apply ids_process_files.
  - by destruct (clean_target_orphans_spec fp env w) as (_ & -> & _).
  - unfold Database.add_processed_file.
    destruct (insert_fault env n); [done|].
    destruct (Database.is_file_processed (db w) n); [done|]. simpl.
    by apply ids_add_row.
  - by apply ids_log_error.
Qed.

Lemma ids_run_ops `{Fnmatch} ops w :
  ids_in_sequence (db w) → ids_in_sequence (db (foldl run_op w ops)).
Proof.
  revert w. induction ops as [|op ops IH]; intros w Hw; cbn [foldl]; [done|].
  by apply IH, ids_run_op.
Qed.

(** X12: on a store that started empty, after any sequence of batches,
    clean-ups, insertions and error logs, the records bear the ids
    1, 2, ..., n in the order of their insertion, hence distinct ids, and
    so do the error entries; the next insert returns n + 1. *)
Theorem record_ids_in_sequence `{Fnmatch} (ops : list Op) tgt t :
  let w := foldl run_op
             {| target := tgt; db := Database._initialize_database; ticks := t |}
             ops in
  let n := Z.of_nat (length (Database.processed_files (db w))) in
  Database.pf_id <$> Database.processed_files (db w) = seqZ 1 n
  ∧ NoDup (Database.pf_id <$> Database.processed_files (db w))
  ∧ Database.er_id <$> Database.errors (db w)
    = seqZ 1 (Z.of_nat (length (Database.errors (db w))))
  ∧ ∀ env filename sp tp size cd h i d',
      Database.add_processed_file env (db w) filename sp tp size cd h = inr (i, d') →
      i = n + 1.
Proof.
  intros w n.
  assert (ids_in_sequence (db w)) as (Hp & Hs & He & Hes).
  { apply ids_run_ops. by repeat split. }
  split_and!; [done| |done|].
  - rewrite Hp. apply NoDup_seqZ.
  - intros env filename sp tp size cd h i d'. unfold Database.add_processed_file.
    destruct (insert_fault env filename); [done|].
    destruct (Database.is_file_processed (db w) filename); [done|].
    intros [= <- _]. by rewrite Hs.
Qed.

Lemma record_ids_in_sequence_witness :
  let w := foldl (run_op (H:=glob_star)) world0
             [OpProcessBatch (processor 10 false) env_ok src_abc] in
  ∃ d', Database.add_processed_file env_ok (db w) "z.txt" "/src/z.txt" "/dst/z.txt"
          1 0 None = inr (3, d').
Proof.
  intros w.
  destruct (Database.add_processed_file env_ok (db w) "z.txt" "/src/z.txt"
              "/dst/z.txt" 1 0 None) as [e|[i d']] eqn:Hadd.
  - vm_compute in Hadd. discriminate.
  - exists d'. f_equal. f_equal.
    destruct (record_ids_in_sequence (H:=glob_star)
                [OpProcessBatch (processor 10 false) env_ok src_abc] ∅ 0%nat)
      as (_ & _ & _ & Hnext).
    apply (Hnext _ _ _ _ _ _ _ _ _ Hadd).
Defined.


Lemma count_records_positive d n :
  (0 < Database.count_records d n)%nat ↔ n ∈ pf_names d.
Proof.
  unfold Database.count_records. rewrite list_elem_of_fmap. split.
  - intros Hpos. destruct (filter _ _) as [|r l] eqn:Hf; [simpl in Hpos; lia|].
    assert (r ∈ filter (λ r, Database.pf_filename r = n) (Database.processed_files d))
      as [Hr Hin]%list_elem_of_filter by (rewrite Hf; by left).
    by exists r.
  - intros (r & -> & Hin).
    assert (r ∈ filter (λ r0, Database.pf_filename r0 = Database.pf_filename r)
                       (Database.processed_files d)) as Hin'
      by by apply list_elem_of_filter.
    destruct (filter _ _); [by apply elem_of_nil in Hin'|simpl; lia].
Qed.

Lemma NoDup_count_records d :
  NoDup (pf_names d) ↔ ∀ n, (Database.count_records d n ≤ 1)%nat.
Proof.
  split; [intros Hnd n; by apply count_records_NoDup|].
  unfold Database.count_records.
  induction (Database.processed_files d) as [|r rows IH]; intros Hc; [constructor|].
  rewrite fmap_cons. apply NoDup_cons. split.
  - intros (r' & Heq & Hin)%list_elem_of_fmap. specialize (Hc (Database.pf_filename r)).
    rewrite filter_cons, decide_True in Hc by done. simpl in Hc.
    assert (r' ∈ filter (λ r0, Database.pf_filename r0 = Database.pf_filename r) rows)
      as Hin' by by apply list_elem_of_filter.
    destruct (filter _ rows); [by apply elem_of_nil in Hin'|simpl in Hc; lia].
  - apply IH. intros n. specialize (Hc n). rewrite filter_cons in Hc.
    case_decide; simpl in Hc; lia.
Qed.

(** X13: the report of [check_integrity] lists, with their number of
    records, exactly the file names that have more than one record; its
    status is "ok" exactly when PRAGMA integrity_check answers "ok" and no
    file name has two records.  On a store that started empty no sequence
    of operations makes a duplicate, so the status only repeats the
    answer of the PRAGMA. *)
Theorem check_integrity_report `{Fnmatch} pragma (d : Database.DatabaseManager) :
  let report := check_integrity pragma d in
  (∀ n c, (n, c) ∈ duplicates report
          ↔ c = Database.count_records d n ∧ (1 < c)%nat)
  ∧ duplicate_count report = length (duplicates report)
  ∧ (status report = "ok" ↔ pragma = "ok" ∧ NoDup (pf_names d))
  ∧ ∀ ops tgt t,
      d = db (foldl run_op
                {| target := tgt; db := Database._initialize_database; ticks := t |}
                ops) →
      duplicates report = [] ∧ (status report = "ok" ↔ pragma = "ok").
Proof.
  intros report.
  assert (∀ n c, (n, c) ∈ duplicates report
                 ↔ c = Database.count_records d n ∧ (1 < c)%nat) as Hdup.
  { intros n c. unfold report, check_integrity. simpl.
    rewrite list_elem_of_filter, list_elem_of_fmap. simpl. split.
    - intros [Hc (n' & [= -> ->] & _)]. done.
    - intros [-> Hc]. split; [done|]. exists n. split; [done|].
      apply elem_of_remove_dups, count_records_positive. lia. }
  assert (duplicates report = [] ↔ NoDup (pf_names d)) as Hnil.
  { rewrite NoDup_count_records. split.
    - intros Hnil n. destruct (decide (1 < Database.count_records d n)%nat) as [Hc|?]; [|lia].
      assert ((n, Database.count_records d n) ∈ duplicates report) as Hin
        by by apply Hdup.
      rewrite Hnil in Hin. by apply elem_of_nil in Hin.
    - intros Hc. apply elem_of_nil_inv. intros [n c] [-> Hgt]%Hdup.
      specialize (Hc n). lia. }
  assert (status report = "ok" ↔ pragma = "ok" ∧ NoDup (pf_names d)) as Hstatus.
  { rewrite <- Hnil. unfold report at 1, check_integrity. simpl.
    fold (duplicates (check_integrity pragma d)). fold report.
    repeat case_bool_decide; simpl; split; (done || tauto || intros [? ?]; done). }
  split_and!; [done..|]. intros ops tgt t ->.
  assert (NoDup (pf_names (db (foldl run_op
            {| target := tgt; db := Database._initialize_database; ticks := t |} ops))))
    as Hnd by (apply run_ops_nodup; constructor).
  split; [by apply Hnil|]. rewrite Hstatus. tauto.
Qed.

(** ** The listing of the source directory *)

(** X14: [get_source_files] returns exactly the entries of the glob
    that are regular files and match no exclude pattern, each as often as
    the glob yields it: never a directory, in non-recursive mode only
    children of the source directory, and every regular file when there is
    no exclude pattern. *)
Theorem get_source_files_contents `{Fnmatch} fp src :
  (∀ f, f ∈ get_source_files fp src
        ↔ f ∈ src ∧ is_file f = true
          ∧ (recursive fp = false → parent f = [])
          ∧ ∀ p, p ∈ exclude_patterns fp → fnmatch (name f) p = false)
  ∧ (length (get_source_files fp src) ≤ length src)%nat
  ∧ (exclude_patterns fp = [] → recursive fp = true →
     get_source_files fp src ≡ₚ filter (λ f, is_file f = true) src).
Proof.
  split_and!.
  - intros f. rewrite get_source_files_elem. unfold glob.
    assert (_is_excluded fp f = false
            ↔ ∀ p, p ∈ exclude_patterns fp → fnmatch (name f) p = false) as ->.
    { split.
      - intros Hex p Hp. destruct (fnmatch (name f) p) eqn:Hm; [|done].
        rewrite <- Hex. symmetry. apply is_excluded_true. eauto.
      - intros Hall. destruct (_is_excluded fp f) eqn:Hex; [|done].
        apply is_excluded_true in Hex as (p & Hp & Hm).
        rewrite Hall in Hm; done. }
    destruct (recursive fp).
    + split; [intros (? & ? & ?)|intros (? & ? & _ & ?)]; split_and!; done.
    + rewrite list_elem_of_filter.
      split; [intros ((? & ?) & ? & ?)|intros (? & ? & Hp & ?)];
        split_and!; auto.
  - unfold get_source_files. rewrite sort_by_name_perm.
    etrans; [apply length_filter|]. unfold glob.
    destruct (recursive fp); [done|]. apply length_filter.
  - intros Hnone Hrec. unfold get_source_files, glob.
    rewrite sort_by_name_perm, Hrec.
    erewrite list_filter_iff; [done|]. intros f. unfold _is_excluded.
    rewrite Hnone. simpl. rewrite andb_true_r. apply Is_true_true.
Qed.

Lemma get_source_files_contents_witness :
  file [] "b.jpg" 20 ∈ get_source_files (H:=glob_star) (processor 1 false) src_abc.
Proof.
  apply (get_source_files_contents (H:=glob_star) (processor 1 false) src_abc).
  split_and!.
  - right. by left.
  - reflexivity.
  - discriminate.
  - intros p Hp. apply list_elem_of_singleton in Hp as ->. reflexivity.
Defined.

Lemma insert_by_name_filter n x l :
  filter (λ f, name f = n) (insert_by_name x l) = filter (λ f, name f = n) (x :: l).
Proof.
  induction l as [|y l IH]; simpl; [done|].
  destruct (String.leb (name x) (name y)) eqn:Hle; [done|].
  rewrite filter_cons, IH, !filter_cons.
  destruct (decide (name y = n)) as [Hy|Hy]; [|done].
  destruct (decide (name x = n)) as [Hx|Hx]; [|done].
  rewrite Hx, Hy, string_leb_refl in Hle. done.
Qed.

(** X15: the sort of [get_source_files] is stable: the files of one base
    name come in the order in which the glob found them, so that of two
    files with one name in two subdirectories the first one found is the
    one a batch copies. *)
Theorem get_source_files_stable `{Fnmatch} fp src n :
  filter (λ f, name f = n) (get_source_files fp src)
  = filter (λ f, name f = n)
      (filter (λ path, is_file path && negb (_is_excluded fp path)) (glob fp src)).
Proof.
  unfold get_source_files.
  induction (filter _ (glob fp src)) as [|x l IH]; [done|].
  simpl. rewrite insert_by_name_filter, !filter_cons. by rewrite IH.
Qed.

(** ** The copy of one file *)

(** X16: [_copy_file] never removes or replaces an entry of the target
    directory and touches no other name than that of its target.  When the
    target name is taken, by a file or by a directory, it fails with the
    message "File already exists" and copies nothing.  A failure leaves
    the directory as it was, but for two cases of real mode, in which the
    file that the copy wrote stays under the target name: the copy raised
    after it had written, or it wrote another size than that of the source
    and the [unlink] of the copy raised; the message is then that of the
    exception.  A success in real mode leaves a regular file with the size
    of the source; in simulation mode the call succeeds exactly when the
    name is free, and writes nothing. *)
Theorem _copy_file_never_overwrites fp env (tgt : gmap string TEntry) f n :
  let r := _copy_file fp env tgt f n in
  (∀ k e, tgt !! k = Some e → r.2 !! k = Some e)
  ∧ (∀ k, k ≠ n → r.2 !! k = tgt !! k)
  ∧ (is_Some (tgt !! n) →
     r = ((false, Some ("File already exists in target: " +:+ target_path fp n)), tgt))
  ∧ (r.1.1 = false →
     is_Some r.1.2
     ∧ (r.2 = tgt
        ∨ (dry_run fp = false ∧ tgt !! n = None
           ∧ ∃ k e msg,
               r.2 = <[n := TFile k]> tgt
               ∧ r.1.2 = Some (copy_error_message e msg)
               ∧ (copy2 env f = Raised e msg (Some k)
                  ∨ (copy2 env f = Written k ∧ k ≠ st_size f
                     ∧ unlink_fault env n = Some (e, msg))))))
  ∧ ((∀ e msg k, copy2 env f ≠ Raised e msg (Some k)) → unlink_fault env n = None →
     r.1.1 = false → r.2 = tgt)
  ∧ (r.1.1 = true →
     r.1.2 = None ∧ tgt !! n = None
     ∧ r.2 = if dry_run fp then tgt else <[n := TFile (st_size f)]> tgt)
  ∧ (dry_run fp = true → r.2 = tgt ∧ (r.1.1 = true ↔ tgt !! n = None)).
Proof.
  intros r. unfold r, _copy_file. clear r.
  destruct (tgt !! n) as [e0|] eqn:Hn.
  { cbn [fst snd]. split_and!; try done.
    intros _. split; [by eexists|by left]. }
  assert (∀ z k e, tgt !! k = Some e → <[n := TFile z]> tgt !! k = Some e) as Hkeep.
  { intros z k e Hk. rewrite lookup_insert_ne; [done|]. congruence. }
  assert (∀ z k, k ≠ n → <[n := TFile z]> tgt !! k = tgt !! k) as Hframe.
  { intros z k Hk. by rewrite lookup_insert_ne. }
  assert (∀ z, delete n (<[n := TFile z]> tgt) = tgt) as Hdel.
  { intros z. by rewrite delete_insert_eq, delete_id. }
  destruct (dry_run fp) eqn:Hdry.
  { cbn [fst snd]. split_and!; done. }
  destruct (copy2 env f) as [z| |e msg [z|]] eqn:Hc.
  - case_bool_decide as Hz.
    + destruct (unlink_fault env n) as [[e msg]|] eqn:Hu; cbn [fst snd].
      * split_and!; try done; auto.
        intros _. split; [by eexists|]. right. split_and!; [done..|].
        exists z, e, msg. split_and!; [done..|]. right. split_and!; [done| |done].
        congruence.
      * rewrite Hdel. split_and!; try done.
        intros _. split; [by eexists|by left].
    + assert (z = st_size f) as -> by (destruct (decide (z = st_size f)); [done|];
        destruct Hz; congruence).
      cbn [fst snd]. split_and!; try done; auto.
  - cbn [fst snd]. split_and!; try done. intros _. split; [by eexists|by left].
  - cbn [fst snd]. split_and!; try done; auto.
    + intros _. split; [by eexists|]. right. split_and!; [done..|].
      exists z, e, msg. split_and!; [done..|]. by left.
    + intros Hno. by destruct (Hno e msg z).
  - cbn [fst snd]. split_and!; try done. intros _. split; [by eexists|by left].
Qed.

(** A target directory given as [/dst/] in which [a.txt] is a
    directory: the message names [/dst/a.txt]. *)
Lemma _copy_file_never_overwrites_witness :
  _copy_file (processor_in "/src" "/dst/" 1 false) env_ok {["a.txt" := TDir]}
    (file [] "a.txt" 5) "a.txt"
  = ((false, Some "File already exists in target: /dst/a.txt"), {["a.txt" := TDir]}).
Proof.
  apply (_copy_file_never_overwrites (processor_in "/src" "/dst/" 1 false) env_ok
           {["a.txt" := TDir]} (file [] "a.txt" 5) "a.txt").
  by exists TDir.
Defined.

(** ** Cleaning twice *)

Lemma clean_target_orphans_none fp env w :
  orphans_of w = [] → clean_target_orphans fp env w = (0, w).
Proof.
  intros Hnone. pose proof (orphan_set_elements w) as Hperm. simpl in Hperm.
  rewrite Hnone in Hperm. apply Permutation_nil_r in Hperm.
  apply elements_empty_inv in Hperm. apply leibniz_equiv in Hperm.
  unfold clean_target_orphans. destruct (verify_target_files w); [done|].
  rewrite decide_True; done.
Qed.

(** X17: after [clean_target_orphans] in real mode the orphans left in
    the target directory are exactly those whose [unlink] raised.  When no
    [unlink] raises none is left, and a second clean-up, in any mode and in
    any environment, returns 0 and changes nothing. *)
Theorem clean_target_orphans_twice fp env w :
  dry_run fp = false →
  let r := clean_target_orphans fp env w in
  (∀ k, is_orphan r.2 k = true ↔ is_orphan w k = true ∧ is_Some (unlink_fault env k))
  ∧ ((∀ k, is_orphan w k = true → unlink_fault env k = None) →
     orphans_of r.2 = []
     ∧ ∀ fp' env', clean_target_orphans fp' env' r.2 = (0, r.2)).
Proof.
  intros Hdry r. destruct (clean_target_orphans_spec fp env w) as (_ & Hdb & Ht).
  fold r in Hdb, Ht.
  assert (∀ k, is_orphan r.2 k = true
               ↔ is_orphan w k = true ∧ is_Some (unlink_fault env k)) as Hleft.
  { intros k. unfold is_orphan at 1. rewrite Ht, Hdb.
    destruct (bool_decide_reflect (is_orphan w k = true ∧ dry_run fp = false
                                   ∧ unlink_fault env k = None)) as [(Ho & _ & Hu)|Hno].
    - split; [done|]. intros [_ [e He]]. congruence.
    - fold (is_orphan w k). split.
      + intros Ho. split; [done|]. destruct (unlink_fault env k); [by eexists|].
        destruct Hno. done.
      + tauto. }
  split; [done|]. intros Hok.
  assert (orphans_of r.2 = []) as Hnone.
  { apply elem_of_nil_inv. intros k Hk. apply orphans_of_elem, Hleft in Hk as [Ho [e He]].
    rewrite (Hok k Ho) in He. done. }
  split; [done|]. intros fp' env'. by apply clean_target_orphans_none.
Qed.

Lemma clean_target_orphans_twice_witness :
  let r := clean_target_orphans (processor 1 false) env_ok world_orphan in
  orphans_of r.2 = []
  ∧ clean_target_orphans (processor 1 true) env_ok r.2 = (0, r.2).
Proof.
  destruct (clean_target_orphans_twice (processor 1 false) env_ok world_orphan eq_refl)
    as [_ Hall].
  destruct (Hall (λ _ _, eq_refl)) as [Hnone Hagain].
  split; [exact Hnone|apply Hagain].
Defined.

(** ** The hash of a file *)

Lemma chunk_size_pos : (0 < chunk_size)%nat.
Proof. unfold chunk_size. lia. Qed.

Lemma read_chunks_whole (h : Hasher) :
  (∀ st a b, hash_update h (hash_update h st a) b = hash_update h st (a ++ b)) →
  ∀ turns st rest, (length rest ≤ turns)%nat →
    read_chunks h turns st rest
    = match rest with [] => st | _ => hash_update h st rest end.
Proof.
  intros Hlaw. pose proof chunk_size_pos as Hpos.
  induction turns as [|turns IH]; intros st rest Hlen.
  { destruct rest; [done|]. simpl in Hlen. lia. }
  cbn [read_chunks].
  destruct rest as [|b rest]; [by rewrite take_nil|].
  pose proof (take_drop chunk_size (b :: rest)) as Hsplit.
  destruct (take chunk_size (b :: rest)) as [|c chunk] eqn:Htake.
  { apply (f_equal length) in Htake. rewrite length_take in Htake.
    simpl in Htake. lia. }
  rewrite IH.
  - destruct (drop chunk_size (b :: rest)) as [|d rest'] eqn:Hdrop.
    + rewrite app_nil_r in Hsplit. by rewrite Hsplit.
    + rewrite Hlaw. by rewrite Hsplit.
  - rewrite length_drop. simpl in *. lia.
Qed.

(** X18: [_compute_file_hash] reads the file in blocks of 8192 bytes,
    and for a hash object whose [update] is a streaming one (two updates
    give what one update with the two blocks joined gives) the result is
    the digest of the whole content; an empty file gives the digest of the
    new hash object.  The object is [xxh64] only when the algorithm is
    "xxhash" and the module is available, and [sha256] for every other
    name of an algorithm. *)
Theorem _compute_file_hash_whole fp xxhash_available xxh64 sha256 content :
  let h := hash_object fp xxhash_available xxh64 sha256 in
  (∀ st a b, hash_update h (hash_update h st a) b = hash_update h st (a ++ b)) →
  _compute_file_hash fp xxhash_available xxh64 sha256 content
  = hexdigest h match content with
                | [] => hash_new h
                | _ => hash_update h (hash_new h) content
                end
  ∧ (hash_algorithm fp = "xxhash" → xxhash_available = true → h = xxh64)
  ∧ (hash_algorithm fp ≠ "xxhash" ∨ xxhash_available = false → h = sha256).
Proof.
  intros h Hlaw. split_and!.
  - unfold _compute_file_hash. fold h. by rewrite read_chunks_whole.
  - intros Halg ->. unfold h, hash_object.
    by rewrite bool_decide_eq_true_2.
  - intros Hother. unfold h, hash_object.
    destruct Hother as [Halg| ->]; [|by rewrite andb_false_r].
    by rewrite bool_decide_eq_false_2.
Qed.

Lemma _compute_file_hash_whole_witness :
  _compute_file_hash (processor 1 false) true sum_hasher count_hasher
    (replicate (Z.to_nat 10000) Byte.x01) = "10000".
Proof.
  destruct (_compute_file_hash_whole (processor 1 false) true sum_hasher count_hasher
              (replicate (Z.to_nat 10000) Byte.x01)) as [Heq _].
  - intros st a b. change (foldl (λ acc x, (acc + Byte.to_N x)%N)
                             (foldl (λ acc x, (acc + Byte.to_N x)%N) st a) b
                           = foldl (λ acc x, (acc + Byte.to_N x)%N) st (a ++ b)).
    symmetry. apply foldl_app.
  - rewrite Heq. vm_compute. reflexivity.
Defined.

(** ** The modes of [main] *)

(** X19: with a valid configuration and a record store that opens, the
    options [--check-integrity], [--list-processed] and [--stats] make
    [main] return with status 0 before the processor is built: nothing is
    copied or deleted, no record is written, and neither a missing source
    directory nor [--clean-orphans] on the same command line changes that. *)
Theorem main_information_modes `{Fnmatch} cli s env w cfg :
  Config (cli_config cli) (config_file s) = inr cfg →
  database_fault s = None →
  cli_check_integrity cli || cli_list_processed cli || cli_stats cli = true →
  main_body cli s env w = (Return, None, w) ∧ main cli s env w = 0.
Proof.
  intros Hcfg Hdb Hmode.
  assert (main_body cli s env w = (Return, None, w)) as Hbody.
  { unfold main_body. rewrite Hcfg, Hdb.
    destruct (cli_check_integrity cli); [done|].
    destruct (cli_list_processed cli); [done|].
    destruct (cli_stats cli); done. }
  split; [done|]. unfold main. rewrite Hbody.
  by destruct (config_file s).
Qed.

Lemma main_information_modes_witness :
  let cli := {| cli_batch_size := None; cli_dry_run := false; cli_compute_hash := false;
                cli_hash_algorithm := None; cli_exclude := [];
                cli_config := "config/config.yaml";
                cli_check_integrity := false; cli_list_processed := false;
                cli_stats := true; cli_clean_orphans := true |} in
  let s := {| config_file := Parsed (config_with 10); database_fault := None;
              source := None; xxhash_available := false |} in
  main (H:=glob_star) cli s env_ok world_orphan = 0.
Proof.
  intros cli s.
  apply (main_information_modes (H:=glob_star) cli s env_ok world_orphan (config_with 10));
    reflexivity.
Defined.

Lemma Config_batch_size path file cfg :
  Config path file = inr cfg → ∃ b, cfg_batch_size cfg = Some b ∧ 0 < b.
Proof.
  unfold Config, _validate_config. destruct file as [|msg|c]; [done..|].
  destruct (cfg_source_dir c), (cfg_target_dir c), (cfg_database_path c),
    (cfg_batch_size c) as [b|] eqn:Hb; try done.
  case_bool_decide; [done|]. intros [= <-]. exists b. split; [done|lia].
Qed.

(** X20: in the two modes that build the processor, [main] runs
    [clean_target_orphans] or [process_batch] with a processor whose
    [dry_run] and [compute_hash] are the flags of the command line alone
    (the values of the configuration file are replaced even when the flag is
    not given), whose exclude patterns are those of the file followed by
    those of the command line, and whose batch size is that of the command
    line, taken as it is, or else the validated, positive one of the file.
    The clean-up mode ends with status 0 whatever [unlink] does; a batch
    that returns ends with status 1 when it counted an error and with
    status 0 otherwise, and a batch that raises ends with status 2. *)
Theorem main_builds_processor `{Fnmatch} cli s env w cfg src :
  Config (cli_config cli) (config_file s) = inr cfg →
  database_fault s = None →
  cli_check_integrity cli || cli_list_processed cli || cli_stats cli = false →
  source s = Some src →
  ∃ fp,
    FileProcessor_init (apply_cli_overrides cfg cli) s = inr (fp, src)
    ∧ dry_run fp = cli_dry_run cli
    ∧ compute_hash fp = cli_compute_hash cli
    ∧ exclude_patterns fp = default [] (cfg_exclude_patterns cfg) ++ cli_exclude cli
    ∧ recursive fp = default true (cfg_recursive cfg)
    ∧ (∀ b, cli_batch_size cli = Some b → batch_size fp = b)
    ∧ (cli_batch_size cli = None → cfg_batch_size cfg = Some (batch_size fp)
                                   ∧ 0 < batch_size fp)
    ∧ (compute_hash fp = true → xxhash_available s = false →
       hash_algorithm fp ≠ "xxhash")
    ∧ main_body cli s env w
      = (if cli_clean_orphans cli
         then (Return, None, (clean_target_orphans fp env w).2)
         else let r := process_batch fp env src w in
              match r.1 with
              | Returned result =>
                  (if bool_decide (0 < errors result) then SysExit 1 else Return,
                   Some result, r.2)
              | Raises e => (Raise (UnexpectedError (batch_exn_str e)), None, r.2)
              end)
    ∧ (cli_clean_orphans cli = true → main cli s env w = 0)
    ∧ (cli_clean_orphans cli = false →
       main cli s env w
       = match (process_batch fp env src w).1 with
         | Returned result => if bool_decide (0 < errors result) then 1 else 0
         | Raises _ => 2
         end).
Proof.
  intros Hcfg Hdb Hmode Hsrc.
  apply orb_false_iff in Hmode as [Hmode Hst].
  apply orb_false_iff in Hmode as [Hci Hlp].
  destruct (Config_batch_size _ _ _ Hcfg) as (b0 & Hb0 & Hpos).
  assert (config_file s ≠ Missing) as Hfile.
  { intros Hm. rewrite Hm in Hcfg. done. }
  unfold main, main_body. rewrite Hcfg, Hdb, Hci, Hlp, Hst.
  unfold FileProcessor_init. rewrite Hsrc. eexists. split; [reflexivity|].
  cbn [dry_run compute_hash exclude_patterns recursive batch_size hash_algorithm
       apply_cli_overrides cfg_dry_run cfg_compute_hash cfg_exclude_patterns
       cfg_recursive cfg_batch_size cfg_hash_algorithm default from_option].
  split_and!; try done.
  - intros b ->. done.
  - intros ->. rewrite Hb0. done.
  - intros -> ->. simpl.
    case_bool_decide as Halg; simpl; [done|].
    destruct (cli_hash_algorithm cli); simpl in *; done.
  - destruct (cli_clean_orphans cli); [done|].
    destruct (process_batch _ env src w) as [[r|e] w']; cbn [fst snd]; [|done].
    by case_bool_decide.
  - intros ->. by destruct (config_file s).
  - intros ->. destruct (config_file s); [done|..];
      (destruct (process_batch _ env src w) as [[r|e] w']; cbn [fst snd]; [|done];
       by case_bool_decide).
Qed.

Lemma main_builds_processor_witness :
  let cli := {| cli_batch_size := Some 0; cli_dry_run := false; cli_compute_hash := false;
                cli_hash_algorithm := None; cli_exclude := ["b*"];
                cli_config := "config/config.yaml";
                cli_check_integrity := false; cli_list_processed := false;
                cli_stats := false; cli_clean_orphans := false |} in
  let cfg := {| cfg_source_dir := Some "/src"; cfg_target_dir := Some "/dst";
                cfg_database_path := Some "data/file_tracker.db";
                cfg_batch_size := Some 10;
                cfg_compute_hash := None; cfg_hash_algorithm := None;
                cfg_exclude_patterns := Some ["*.tmp"]; cfg_recursive := None;
                cfg_dry_run := Some true |} in
  let s := {| config_file := Parsed cfg; database_fault := None;
              source := Some src_abc; xxhash_available := true |} in
  ∃ fp result,
    dry_run fp = false ∧ batch_size fp = 0
    ∧ exclude_patterns fp = ["*.tmp"; "b*"]
    ∧ (process_batch (H:=glob_star) fp env_ok src_abc world0).1 = Returned result
    ∧ (main_body (H:=glob_star) cli s env_ok world0).1.2 = Some result.
Proof.
  intros cli cfg s.
  destruct (main_builds_processor (H:=glob_star) cli s env_ok world0 cfg src_abc
              eq_refl eq_refl eq_refl eq_refl)
    as (fp & Hinit & Hdry & _ & Hex & _ & Hb & _ & _ & Hbody & _).
  injection Hinit as <-.
  eexists _, _. split_and!.
  - exact Hdry.
  - apply Hb. reflexivity.
  - exact Hex.
  - reflexivity.
  - rewrite Hbody. reflexivity.
Defined.


(** ** The nested dictionary of the configuration *)

Lemma get_nested_value_empty path :
  is_dict (get_nested_value (PyDict ∅) path (PyDict ∅)) = true.
Proof. destruct path as [|key path]; [done|]. simpl. by rewrite lookup_empty. Qed.

Lemma _set_nested_value_cons current key k2 rest value :
  _set_nested_value current (key :: k2 :: rest) value
  = match current with
    | PyDict d =>
        match _set_nested_value (from_option id (PyDict ∅) (d !! key)) (k2 :: rest) value with
        | inl e => inl e
        | inr child => inr (PyDict (<[key := child]> d))
        end
    | _ => inl TypeError
    end.
Proof. done. Qed.

Lemma _set_nested_value_round_trip path : ∀ config value config' default,
  _set_nested_value config path value = inr config' →
  get_nested_value config' path default = value.
Proof.
  induction path as [|key path IH]; intros config value config' dflt Hset; [done|].
  destruct path as [|k2 rest].
  - destruct config; try done. injection Hset as <-.
    cbn [get_nested_value]. by rewrite lookup_insert_eq.
  - rewrite _set_nested_value_cons in Hset. destruct config; try done.
    destruct (_set_nested_value _ (k2 :: rest) value) as [e|child] eqn:Hchild; [done|].
    injection Hset as <-. change (get_nested_value (PyDict (<[key:=child]> d)) (key :: k2 :: rest) dflt)
      with (match <[key:=child]> d !! key with
            | Some v => get_nested_value v (k2 :: rest) dflt
            | None => dflt
            end).
    rewrite lookup_insert_eq. by eapply IH.
Qed.

Lemma _set_nested_value_succeeds path : ∀ config value,
  (∃ config', _set_nested_value config path value = inr config')
  ↔ path ≠ []
    ∧ ∀ pre, pre `prefix_of` removelast path →
             is_dict (get_nested_value config pre (PyDict ∅)) = true.
Proof.
  induction path as [|key path IH]; intros config value.
  { split; [by intros [? ?]|by intros [? _]]. }
  destruct path as [|k2 rest].
  - cbn [removelast]. split.
    + intros [config' Hset]. split; [done|]. intros pre ->%prefix_nil_inv.
      by destruct config.
    + intros [_ Hd]. specialize (Hd [] (prefix_nil _)). destruct config; try done.
      by eexists.
  - rewrite _set_nested_value_cons.
    change (removelast (key :: k2 :: rest)) with (key :: removelast (k2 :: rest)).
    destruct config as [| | | | | |d];
      try (split; [by intros [? ?]|intros [_ Hd]; by specialize (Hd [] (prefix_nil _))]).
    specialize (IH (from_option id (PyDict ∅) (d !! key)) value).
    split.
    + intros [config' Hset]. split; [done|].
      destruct (_set_nested_value _ (k2 :: rest) value) as [e|child]; [done|].
      destruct IH as [[_ IH] _]; [by eexists|].
      intros [|k pre] Hpre; [done|].
      pose proof (prefix_cons_inv_1 _ _ _ _ Hpre) as ->.
      apply prefix_cons_inv_2 in Hpre. specialize (IH pre Hpre).
      cbn [get_nested_value]. destruct (d !! key) as [v|]; [done|done].
    + intros [_ Hd]. destruct IH as [_ [child Hchild]].
      * split; [done|]. intros pre Hpre.
        specialize (Hd (key :: pre) (prefix_cons _ _ _ Hpre)).
        cbn [get_nested_value] in Hd. destruct (d !! key) as [v|]; [done|].
        apply get_nested_value_empty.
      * rewrite Hchild. by eexists.
Qed.

(** X21: a value that [_set_nested_value] stores is the value that
    [get_nested_value] finds under the same path afterwards, whatever the
    default.  The assignment succeeds exactly when the path is not empty
    and no value that exists on the way to the last key is something else
    than a dictionary; the sections that are missing on the way are
    created.  The empty path, and only it, ends in [IndexError]. *)
Theorem _set_nested_value_get config path value :
  (∀ config' default,
     _set_nested_value config path value = inr config' →
     get_nested_value config' path default = value)
  ∧ ((∃ config', _set_nested_value config path value = inr config')
     ↔ path ≠ []
       ∧ ∀ pre, pre `prefix_of` removelast path →
                is_dict (get_nested_value config pre (PyDict ∅)) = true)
  ∧ (_set_nested_value config path value = inl IndexError ↔ path = []).
Proof.
  split_and!.
  - intros config' dflt. apply _set_nested_value_round_trip.
  - apply _set_nested_value_succeeds.
  - split; [|by intros ->].
    revert config. induction path as [|key path IH]; intros config Hset; [done|].
    exfalso. destruct path as [|k2 rest].
    + by destruct config.
    + rewrite _set_nested_value_cons in Hset. destruct config; try done.
      destruct (_set_nested_value _ (k2 :: rest) value) as [e|child] eqn:Hchild;
        [|done].
      injection Hset as ->. by specialize (IH _ Hchild).
Qed.

Lemma _set_nested_value_get_witness :
  ∃ config',
    _set_nested_value (PyDict {["source_dir" := PyStr "/src"]})
      ["processing"; "batch_size"] (PyInt 5) = inr config'
    ∧ get_nested_value config' ["processing"; "batch_size"] (PyInt 10) = PyInt 5.
Proof.
  destruct (_set_nested_value_get (PyDict {["source_dir" := PyStr "/src"]})
              ["processing"; "batch_size"] (PyInt 5)) as (Hget & Hok & _).
  destruct (proj2 Hok) as [config' Hset].
  - split; [done|]. intros pre Hpre. destruct pre as [|k pre]; [reflexivity|].
    pose proof (prefix_cons_inv_1 _ _ _ _ Hpre) as ->.
    apply prefix_cons_inv_2, prefix_nil_inv in Hpre as ->. reflexivity.
  - exists config'. split; [exact Hset|]. by apply Hget.
Defined.

(** X22: an assignment by [_set_nested_value] is seen only under its
    own path: a path that neither starts the assigned path nor continues it
    gives the same value before and after (in a configuration whose
    dictionaries are not shared between two places). *)
Theorem _set_nested_value_elsewhere path : ∀ q config value config' default,
  _set_nested_value config path value = inr config' →
  ¬ q `prefix_of` path → ¬ path `prefix_of` q →
  get_nested_value config' q default = get_nested_value config q default.
Proof.
  induction path as [|key path IH]; intros q config value config' dflt Hset Hq Hp;
    [done|].
  destruct q as [|k q']; [by destruct Hq; apply prefix_nil|].
  destruct path as [|k2 rest].
  - destruct config; try done. injection Hset as <-. cbn [get_nested_value].
    rewrite lookup_insert_ne; [done|]. intros ->.
    destruct Hp. apply prefix_cons, prefix_nil.
  - rewrite _set_nested_value_cons in Hset. destruct config; try done.
    destruct (_set_nested_value _ (k2 :: rest) value) as [e|child] eqn:Hchild; [done|].
    injection Hset as <-. cbn [get_nested_value].
    destruct (decide (key = k)) as [->|Hne]; [|by rewrite lookup_insert_ne].
    rewrite lookup_insert_eq.
    rewrite (IH q' _ _ _ dflt Hchild).
    + destruct (d !! k) as [v|]; [done|]. simpl.
      destruct q' as [|k' q'']; [by destruct Hq; apply prefix_cons, prefix_nil|].
      cbn [get_nested_value]. by rewrite lookup_empty.
    + intros Hpre. destruct Hq. by apply prefix_cons.
    + intros Hpre. destruct Hp. by apply prefix_cons.
Qed.

Lemma _set_nested_value_elsewhere_witness :
  get_nested_value
    (PyDict {["processing" :=
                PyDict {["batch_size" := PyInt 5; "recursive" := PyBool false]}]})
    ["processing"; "recursive"] PyNone
  = get_nested_value (PyDict {["processing" := PyDict {["recursive" := PyBool false]}]})
      ["processing"; "recursive"] PyNone.
Proof.
  apply (_set_nested_value_elsewhere ["processing"; "batch_size"]
           ["processing"; "recursive"] _ (PyInt 5)).
  - reflexivity.
  - intros [k Hk]. discriminate.
  - intros [k Hk]. discriminate.
Defined.

(** ** A batch that cannot advance *)

Lemma files_to_process_ext `{Fnmatch} fp src d d' :
  Database.processed_files d = Database.processed_files d' →
  files_to_process fp src d = files_to_process fp src d'.
Proof.
  intros Heq. unfold files_to_process, Database.unprocessed.
  by rewrite Heq.
Qed.

(** A file whose target name is taken: the error is counted, and logged
    in real mode, unless the store refuses the entry. *)
Lemma process_file_blocked fp env s w f :
  Database.is_file_processed (db w) (name f) = false →
  is_Some (target w !! name f) →
  let msg := "File already exists in target: " +:+ target_path fp (name f) in
  process_file fp env (s, w) f
  = if dry_run fp then (None, (count_error s (name f) msg, w))
    else match log_fault env (name f) with
         | None =>
             (None, (count_error s (name f) msg,
                     (db_log_error env w (name f) "COPY_ERROR" msg).2))
         | Some m => (Some (StoreExn (Database.OperationalError m)), (s, tick w))
         end.
Proof.
  intros Hq [e He]. cbv zeta.
  rewrite (process_file_copy_failed fp env s w f _ (target w) Hq
             (_copy_file_target_exists fp env w f e He)).
  by rewrite with_target_same.
Qed.

Lemma process_files_blocked fp env l : ∀ s w,
  (∀ f, f ∈ l → Database.is_file_processed (db w) (name f) = false
                ∧ is_Some (target w !! name f)) →
  let r := process_files fp env (s, w) l in
  target r.2.2 = target w
  ∧ Database.processed_files (db r.2.2) = Database.processed_files (db w)
  ∧ (r.1 = None →
     processed r.2.1 = processed s ∧ skipped r.2.1 = skipped s
     ∧ errors r.2.1 = errors s + Z.of_nat (length l)
     ∧ files_processed r.2.1 = files_processed s
     ∧ files_errors r.2.1
       = files_errors s
         ++ ((λ f, (name f,
                    "File already exists in target: " +:+ target_path fp (name f)))
               <$> l)
     ∧ length (Database.errors (db r.2.2))
       = (length (Database.errors (db w)) + if dry_run fp then 0 else length l)%nat)
  ∧ (dry_run fp = true ∨ (∀ f, f ∈ l → log_fault env (name f) = None) → r.1 = None).
Proof.
  induction l as [|f l IH]; intros s w Hall.
  { cbn [process_files fst snd length fmap list_fmap]. rewrite app_nil_r.
    split_and!; try done. intros _. split_and!; try done; try lia.
    destruct (dry_run fp); lia. }
  cbv zeta. rewrite process_files_cons.
  destruct (Hall f) as [Hnew Htaken]; [by left|].
  rewrite (process_file_blocked fp env s w f Hnew Htaken). cbv zeta.
  set (msg := "File already exists in target: " +:+ target_path fp (name f)).
  assert (∀ w1, target w1 = target w →
                Database.processed_files (db w1) = Database.processed_files (db w) →
                ∀ g, g ∈ l → Database.is_file_processed (db w1) (name g) = false
                             ∧ is_Some (target w1 !! name g)) as Hnext.
  { intros w1 Ht Hp g Hg. destruct (Hall g) as [Hgn Hgt]; [by right|].
    unfold Database.is_file_processed in *. by rewrite Hp, Ht. }
  destruct (dry_run fp) eqn:Hdry.
  - cbn [fst snd].
    destruct (IH (count_error s (name f) msg) w (Hnext w eq_refl eq_refl))
      as (Ht & Hp & Hret & Hflow).
    split_and!; [done..| |].
    + intros (H1 & H2 & H3 & H4 & H5 & H6)%Hret.
      rewrite H1, H2, H3, H4, H5, H6.
      cbn [processed skipped errors files_processed files_errors count_error length
           fmap list_fmap].
      rewrite <- app_assoc. split_and!; try done; lia.
    + intros _. apply Hflow. by left.
  - destruct (log_fault env (name f)) as [m|] eqn:Hl; cbn [fst snd].
    { split_and!; try done. intros [?|Hlog]; [done|].
      rewrite Hlog in Hl; [done|by left]. }
    set (w1 := (db_log_error env w (name f) "COPY_ERROR" msg).2).
    assert (target w1 = target w) as Ht1 by apply db_log_error_target.
    assert (Database.processed_files (db w1) = Database.processed_files (db w)) as Hp1
      by apply db_log_error_processed_files.
    assert (length (Database.errors (db w1)) = S (length (Database.errors (db w))))
      as He1.
    { unfold w1. rewrite db_log_error_errors by done. rewrite length_app. simpl. lia. }
    destruct (IH (count_error s (name f) msg) w1 (Hnext w1 Ht1 Hp1))
      as (Ht & Hp & Hret & Hflow).
    split_and!; [congruence..| |].
    + intros (H1 & H2 & H3 & H4 & H5 & H6)%Hret.
      rewrite H1, H2, H3, H4, H5, H6, He1.
      cbn [processed skipped errors files_processed files_errors count_error length
           fmap list_fmap].
      rewrite <- app_assoc. split_and!; try done; lia.
    + intros [?|Hlog]; [done|]. apply Hflow. right. intros g Hg. apply Hlog. by right.
Qed.

Lemma process_batch_blocked `{Fnmatch} fp env src w :
  (∀ f, f ∈ files_to_process fp src (db w) → is_Some (target w !! name f)) →
  let batch := files_to_process fp src (db w) in
  let r := process_batch fp env src w in
  target r.2 = target w
  ∧ Database.processed_files (db r.2) = Database.processed_files (db w)
  ∧ (∀ result, r.1 = Returned result →
       (processed result = 0 ∧ skipped result = 0
        ∧ errors result = Z.of_nat (length batch)
        ∧ files_processed result = []
        ∧ files_errors result
          = (λ f, (name f,
                   "File already exists in target: " +:+ target_path fp (name f)))
              <$> batch)
       ∧ length (Database.errors (db r.2))
         = (length (Database.errors (db w))
            + if dry_run fp then 0 else length batch)%nat)
  ∧ (within_variable_limit fp src env →
     dry_run fp = true ∨ (∀ f, f ∈ batch → log_fault env (name f) = None) →
     ∃ result, r.1 = Returned result).
Proof.
  intros Htaken batch r. unfold r, batch. clear r batch.
  assert (∀ l, l = [] ∨ l = files_to_process fp src (db w) →
               ∀ g, g ∈ l → Database.is_file_processed (db (tick w)) (name g) = false
                            ∧ is_Some (target (tick w) !! name g)) as Hall.
  { intros l [->| ->] g Hg; [by apply elem_of_nil in Hg|].
    split; [|by apply Htaken]. by apply (files_to_process_elem fp src (db w) g). }
  split_and!.
  - destruct (process_batch_world fp env src w) as (l & Hl & -> & _).
    by destruct (process_files_blocked fp env l stats0 (tick w) (Hall l Hl)) as [-> _].
  - destruct (process_batch_world fp env src w) as (l & Hl & _ & -> & _).
    by destruct (process_files_blocked fp env l stats0 (tick w) (Hall l Hl))
      as (_ & -> & _).
  - intros result [_ [(-> & -> & ->)|(_ & Hflow & -> & ->)]]%process_batch_returned.
    { cbn [tick db]. split; [done|]. simpl. destruct (dry_run fp); lia. }
    destruct (process_files_blocked fp env _ stats0 (tick w) (Hall _ (or_intror eq_refl)))
      as (_ & _ & Hret & _).
    destruct (Hret Hflow) as (H1 & H2 & H3 & H4 & H5 & H6).
    cbn [processed skipped errors files_processed files_errors set_duration tick db].
    by rewrite H1, H2, H3, H4, H5, H6.
  - intros Hlim Hlog. apply process_batch_returns; [done|].
    by apply (process_files_blocked fp env _ stats0 (tick w) (Hall _ (or_intror eq_refl))).
Qed.

(** X23: a batch whose files all find their name taken in the target
    directory never advances: however often [process_batch] is run, every
    run selects the same files again and leaves the target directory and
    the records as they are; a run that returns reports each of the files
    with "File already exists" and the path of the target, and processes
    and skips nothing.  Every run returns when its query stays within the
    variables allowed and, in real mode, the store accepts the error
    entries, of which each run then adds one per selected file. *)
Theorem blocked_batch_makes_no_progress `{Fnmatch} fp src envs w :
  (∀ f, f ∈ files_to_process fp src (db w) → is_Some (target w !! name f)) →
  let batch := files_to_process fp src (db w) in
  let r := run_batches fp src envs w in
  Forall (λ o, ∀ s, o = Returned s →
               processed s = 0 ∧ skipped s = 0
               ∧ errors s = Z.of_nat (length batch)
               ∧ files_processed s = []
               ∧ files_errors s
                 = (λ f, (name f,
                          "File already exists in target: " +:+ target_path fp (name f)))
                     <$> batch) r.1
  ∧ length r.1 = length envs
  ∧ target r.2 = target w
  ∧ Database.processed_files (db r.2) = Database.processed_files (db w)
  ∧ files_to_process fp src (db r.2) = batch
  ∧ (Forall (λ env, within_variable_limit fp src env
                    ∧ (dry_run fp = true
                       ∨ ∀ f, f ∈ batch → log_fault env (name f) = None)) envs →
     (∃ ss, r.1 = Returned <$> ss)
     ∧ length (Database.errors (db r.2))
       = (length (Database.errors (db w))
          + if dry_run fp then 0 else length envs * length batch)%nat).
Proof.
  intros Htaken batch. unfold batch. clear batch.
  revert w Htaken. induction envs as [|env envs IH]; intros w Htaken; cbv zeta.
  { simpl. split_and!; try done. intros _. split; [by exists []|].
    destruct (dry_run fp); lia. }
  rewrite run_batches_cons. cbn [fst snd].
  destruct (process_batch_blocked fp env src w Htaken) as (Ht & Hp & Hs & Hret).
  pose proof (files_to_process_ext fp src _ _ Hp) as Hsame.
  destruct (IH (process_batch fp env src w).2) as (I1 & I2 & I3 & I4 & I5 & I6).
  { intros f Hf. rewrite Hsame in Hf. rewrite Ht. by apply Htaken. }
  rewrite Hsame in I1, I5, I6. split_and!.
  - constructor; [|done]. intros s Hres. by apply Hs.
  - simpl. by rewrite I2.
  - by rewrite I3.
  - by rewrite I4.
  - done.
  - intros [[Hlim Hlog] Hrest]%Forall_cons.
    destruct (Hret Hlim Hlog) as [result Hres].
    destruct (I6 Hrest) as [[ss Hss] Hlen]. split.
    + exists (result :: ss). by rewrite Hres, Hss.
    + rewrite Hlen. destruct (Hs result Hres) as [_ ->].
      destruct (dry_run fp); simpl; lia.
Qed.

(** A target directory given as [/dst//] that holds an [a.txt]: three
    runs in real mode for one file at a time report [/dst/a.txt] three
    times, and record nothing. *)
Lemma blocked_batch_makes_no_progress_witness :
  let w := {| target := {["a.txt" := TFile 1]}; db := Database._initialize_database;
              ticks := 0 |} in
  let fp := processor_in "/src" "/dst//" 1 false in
  let r := run_batches (H:=glob_star) fp src_abc [env_ok; env_ok; env_ok] w in
  Forall (λ o, ∀ s, o = Returned s →
               processed s = 0
               ∧ files_errors s
                 = [("a.txt", "File already exists in target: /dst/a.txt")]) r.1
  ∧ (∃ ss, r.1 = Returned <$> ss)
  ∧ Database.processed_files (db r.2) = []
  ∧ length (Database.errors (db r.2)) = 3%nat.
Proof.
  intros w fp.
  destruct (blocked_batch_makes_no_progress (H:=glob_star) fp src_abc
              [env_ok; env_ok; env_ok] w) as (Hs & _ & _ & Hp & _ & He).
  - intros f Hf. apply list_elem_of_singleton in Hf as ->. by eexists.
  - destruct He as [Hss He].
    { repeat (constructor; [split; [vm_compute; lia|by right]|]). constructor. }
    split_and!.
    + eapply Forall_impl; [exact Hs|]. intros o Ho s Hos.
      destruct (Ho s Hos) as (? & _ & _ & _ & ?). by split.
    + exact Hss.
    + exact Hp.
    + exact He.
Defined.
